(** * Gate course and scoring engine of airdrift

    A shallow embedding of [src/game/gameplay/ScoreSystem.ts] and
    [src/game/gameplay/GateCourse.ts], and of what the main loop of
    [src/game/Game.ts] does with them.

    Numbers.  A TypeScript [number] is modelled by [num]: an exact real
    number, or one of the three non-finite values [+Infinity], [-Infinity]
    and [NaN], with the arithmetic and the comparisons of ECMAScript on the
    non-finite values.  Finite arithmetic is exact on [num]: a statement
    there reads the expressions of the code in real numbers.  A statement
    that gives a bound, or that says on which side of a threshold a value
    falls, names the margin it keeps from the threshold and the size of
    the numbers it covers; a statement about the tests of the code
    themselves is about those tests as written.

    The score is modelled a second time, on binary64 numbers ([B64],
    [ScoreSystem64]), with the rounding, the overflow, the sign of zero and
    the [NaN] of the code; what overflow and rounding do to the score and
    to the combo lock is stated there.

    State.  Every method becomes a function from the object's fields to
    the object's fields.  [Math.random()] reads an oracle at a cursor that
    the course carries along.  The calls that [GateCourse] makes on its
    [ScoreSystem] are also recorded, in order, in a trace. *)

From Stdlib Require Import Reals Lra Lia ZArith List Bool Psatz RNsatz.
From Stdlib Require Import SpecFloat.
Import ListNotations.

Open Scope R_scope.

(* ================================================================== *)
(** * ECMAScript numbers *)
(* ================================================================== *)

Module JS.

Inductive num : Type :=
| Fin (r : R)
| PInf
| NInf
| NaN.

Definition Rltb (x y : R) : bool := if Rlt_dec x y then true else false.
Definition Rleb (x y : R) : bool := if Rle_dec x y then true else false.
Definition Reqb (x y : R) : bool := if Req_dec_T x y then true else false.

(** [Number.isFinite] *)
Definition isFinite (a : num) : bool :=
  match a with Fin _ => true | _ => false end.

(** [a < b] *)
Definition lt (a b : num) : bool :=
  match a, b with
  | NaN, _ | _, NaN => false
  | Fin x, Fin y => Rltb x y
  | PInf, _ => false
  | _, NInf => false
  | _, PInf => true
  | NInf, _ => true
  end.

(** [a > b] *)
Definition gt (a b : num) : bool := lt b a.

(** [a <= b] *)
Definition le (a b : num) : bool :=
  match a, b with
  | NaN, _ | _, NaN => false
  | Fin x, Fin y => Rleb x y
  | NInf, _ => true
  | _, PInf => true
  | PInf, _ => false
  | _, NInf => false
  end.

(** [a >= b] *)
Definition ge (a b : num) : bool := le b a.

(** [a === b] *)
Definition seq (a b : num) : bool :=
  match a, b with
  | Fin x, Fin y => Reqb x y
  | PInf, PInf => true
  | NInf, NInf => true
  | _, _ => false
  end.

(** [a !== b] *)
Definition sne (a b : num) : bool := negb (seq a b).

(** Truthiness of a number: [0] and [NaN] are falsy. *)
Definition truthy (a : num) : bool :=
  match a with
  | Fin x => negb (Reqb x 0)
  | NaN => false
  | _ => true
  end.

(** [a || b] on numbers *)
Definition or_else (a b : num) : num := if truthy a then a else b.

(** [-a] *)
Definition neg (a : num) : num :=
  match a with
  | Fin x => Fin (- x)
  | PInf => NInf
  | NInf => PInf
  | NaN => NaN
  end.

(** [a + b] *)
Definition add (a b : num) : num :=
  match a, b with
  | NaN, _ | _, NaN => NaN
  | Fin x, Fin y => Fin (x + y)
  | PInf, NInf | NInf, PInf => NaN
  | PInf, _ | _, PInf => PInf
  | NInf, _ | _, NInf => NInf
  end.

(** [a - b] *)
Definition sub (a b : num) : num := add a (neg b).

(** The infinity that a finite factor [x] turns [+Infinity] into. *)
Definition scaleInf (x : R) : num :=
  if Req_dec_T x 0 then NaN else if Rlt_dec 0 x then PInf else NInf.

(** [a * b] *)
Definition mul (a b : num) : num :=
  match a, b with
  | NaN, _ | _, NaN => NaN
  | Fin x, Fin y => Fin (x * y)
  | Fin x, PInf | PInf, Fin x => scaleInf x
  | Fin x, NInf | NInf, Fin x => neg (scaleInf x)
  | PInf, PInf | NInf, NInf => PInf
  | PInf, NInf | NInf, PInf => NInf
  end.

(** [a / b] *)
Definition div (a b : num) : num :=
  match a, b with
  | NaN, _ | _, NaN => NaN
  | Fin x, Fin y => if Req_dec_T y 0 then scaleInf x else Fin (x / y)
  | Fin _, _ => Fin 0
  | PInf, Fin y => if Rlt_dec y 0 then NInf else PInf
  | NInf, Fin y => if Rlt_dec y 0 then PInf else NInf
  | _, _ => NaN
  end.

(** [Math.abs] *)
Definition abs (a : num) : num :=
  match a with
  | Fin x => Fin (Rabs x)
  | NaN => NaN
  | _ => PInf
  end.

(** [Math.sqrt] *)
Definition sqrt (a : num) : num :=
  match a with
  | Fin x => if Rlt_dec x 0 then NaN else Fin (R_sqrt.sqrt x)
  | PInf => PInf
  | _ => NaN
  end.

(** [Math.exp] *)
Definition exp (a : num) : num :=
  match a with
  | Fin x => Fin (Rtrigo_def.exp x)
  | PInf => PInf
  | NInf => Fin 0
  | NaN => NaN
  end.

(** [Math.floor] *)
Definition floor (a : num) : num :=
  match a with
  | Fin x => Fin (IZR (Int_part x))
  | _ => a
  end.

(** [Math.trunc]: rounds toward zero. *)
Definition trunc (a : num) : num :=
  match a with
  | Fin x => if Rlt_dec x 0 then Fin (- IZR (Int_part (- x)))
             else Fin (IZR (Int_part x))
  | _ => a
  end.

(** [Math.max(a, b)] *)
Definition max (a b : num) : num :=
  match a, b with
  | NaN, _ | _, NaN => NaN
  | _, _ => if lt a b then b else a
  end.

(** [Math.min(a, b)] *)
Definition min (a b : num) : num :=
  match a, b with
  | NaN, _ | _, NaN => NaN
  | _, _ => if lt b a then b else a
  end.

(** [Math.sin] and [Math.cos] *)
Definition sin (a : num) : num :=
  match a with Fin x => Fin (Rtrigo_def.sin x) | _ => NaN end.

Definition cos (a : num) : num :=
  match a with Fin x => Fin (Rtrigo_def.cos x) | _ => NaN end.

(** The angle of the point [(x, y)], in [(-PI, PI]]. *)
Definition Ratan2 (y x : R) : R :=
  if Rlt_dec 0 x then atan (y / x)
  else if Rlt_dec x 0 then
    (if Rle_dec 0 y then atan (y / x) + PI else atan (y / x) - PI)
  else if Rlt_dec 0 y then PI / 2
  else if Rlt_dec y 0 then - (PI / 2)
  else 0.

(** [Math.atan2(y, x)] *)
Definition atan2 (y x : num) : num :=
  match y, x with
  | NaN, _ | _, NaN => NaN
  | Fin b, Fin a => Fin (Ratan2 b a)
  | Fin _, PInf => Fin 0
  | Fin b, NInf => if Rlt_dec b 0 then Fin (- PI) else Fin PI
  | PInf, Fin _ => Fin (PI / 2)
  | NInf, Fin _ => Fin (- (PI / 2))
  | PInf, PInf => Fin (PI / 4)
  | PInf, NInf => Fin (3 * PI / 4)
  | NInf, PInf => Fin (- (PI / 4))
  | NInf, NInf => Fin (- (3 * PI / 4))
  end.

(** [THREE.MathUtils.clamp(value, min, max)] is
    [Math.max(min, Math.min(max, value))]. *)
Definition clamp (value lo hi : num) : num := max lo (min hi value).

(** [THREE.MathUtils.lerp(x, y, t)] is [(1 - t) * x + t * y]. *)
Definition lerp (x y t : num) : num :=
  add (mul (sub (Fin 1) t) x) (mul t y).

(** A number literal that is an integer. *)
Definition ofZ (z : Z) : num := Fin (IZR z).

End JS.

Import JS.

Declare Scope num_scope.
Delimit Scope num_scope with num.
Bind Scope num_scope with num.
Infix "+" := JS.add : num_scope.
Infix "-" := JS.sub : num_scope.
Infix "*" := JS.mul : num_scope.
Infix "/" := JS.div : num_scope.
Notation "- a" := (JS.neg a) : num_scope.
Infix "<?" := JS.lt (at level 70, no associativity) : num_scope.
Infix ">?" := JS.gt (at level 70, no associativity) : num_scope.
Infix "<=?" := JS.le (at level 70, no associativity) : num_scope.
Infix ">=?" := JS.ge (at level 70, no associativity) : num_scope.
Infix "===" := JS.seq (at level 70, no associativity) : num_scope.
Infix "!==" := JS.sne (at level 70, no associativity) : num_scope.

(* ================================================================== *)
(** * ScoreSystem.ts *)
(* ================================================================== *)

Module ScoreSystem.

Inductive ScoreAddReason : Type :=
| GATE | CENTER_BONUS | SPEED_BONUS | PENALTY | CRASH.

(** The private fields of [class ScoreSystem]. *)
Record t : Type := mk {
  score : num;
  displayScore : num;
  combo : num;
  streak : Z;
  gatesPassed : Z;
  gatesTotal : Z;
  lastAdd : num;
  penaltyFlash : num;
  timeSinceScore : num;
  comboLock : num
}.

(** [type ScoreSnapshot] *)
Record ScoreSnapshot : Type := mkSnapshot {
  snap_score : num;
  snap_displayScore : num;
  snap_combo : num;
  snap_comboTier : num;
  snap_streak : Z;
  snap_gatesPassed : Z;
  snap_gatesTotal : Z;
  snap_lastAdd : num;
  snap_penaltyFlash : num
}.

(** Tuneables. *)
Definition COMBO_MAX : num := Fin 3.0.
Definition COMBO_GROW_PER_GATE : num := Fin 0.12.
Definition COMBO_DECAY_PER_SEC : num := Fin 0.18.
Definition SCORE_SMOOTH : num := Fin 10.0.
Definition CRASH_BASE : num := Fin 120.
Definition CRASH_PER_SPEED : num := Fin 22.
Definition COMBO_LOCK_SEC : num := Fin 0.55.

(** The field initialisers. *)
Definition init : t :=
  {| score := Fin 0; displayScore := Fin 0;
     combo := Fin 1.0; streak := 0%Z;
     gatesPassed := 0%Z; gatesTotal := 0%Z;
     lastAdd := Fin 0; penaltyFlash := Fin 0;
     timeSinceScore := Fin 999; comboLock := Fin 0 |}.

Definition set_score (s : t) (v : num) : t :=
  mk v (displayScore s) (combo s) (streak s) (gatesPassed s) (gatesTotal s)
     (lastAdd s) (penaltyFlash s) (timeSinceScore s) (comboLock s).
Definition set_displayScore (s : t) (v : num) : t :=
  mk (score s) v (combo s) (streak s) (gatesPassed s) (gatesTotal s)
     (lastAdd s) (penaltyFlash s) (timeSinceScore s) (comboLock s).
Definition set_combo (s : t) (v : num) : t :=
  mk (score s) (displayScore s) v (streak s) (gatesPassed s) (gatesTotal s)
     (lastAdd s) (penaltyFlash s) (timeSinceScore s) (comboLock s).
Definition set_streak (s : t) (v : Z) : t :=
  mk (score s) (displayScore s) (combo s) v (gatesPassed s) (gatesTotal s)
     (lastAdd s) (penaltyFlash s) (timeSinceScore s) (comboLock s).
Definition set_gatesPassed (s : t) (v : Z) : t :=
  mk (score s) (displayScore s) (combo s) (streak s) v (gatesTotal s)
     (lastAdd s) (penaltyFlash s) (timeSinceScore s) (comboLock s).
Definition set_gatesTotal (s : t) (v : Z) : t :=
  mk (score s) (displayScore s) (combo s) (streak s) (gatesPassed s) v
     (lastAdd s) (penaltyFlash s) (timeSinceScore s) (comboLock s).
Definition set_lastAdd (s : t) (v : num) : t :=
  mk (score s) (displayScore s) (combo s) (streak s) (gatesPassed s)
     (gatesTotal s) v (penaltyFlash s) (timeSinceScore s) (comboLock s).
Definition set_penaltyFlash (s : t) (v : num) : t :=
  mk (score s) (displayScore s) (combo s) (streak s) (gatesPassed s)
     (gatesTotal s) (lastAdd s) v (timeSinceScore s) (comboLock s).
Definition set_timeSinceScore (s : t) (v : num) : t :=
  mk (score s) (displayScore s) (combo s) (streak s) (gatesPassed s)
     (gatesTotal s) (lastAdd s) (penaltyFlash s) v (comboLock s).
Definition set_comboLock (s : t) (v : num) : t :=
  mk (score s) (displayScore s) (combo s) (streak s) (gatesPassed s)
     (gatesTotal s) (lastAdd s) (penaltyFlash s) (timeSinceScore s) v.

(** [total | 0]: the argument as a 32-bit signed integer. *)
Definition toInt32 (a : num) : Z :=
  match trunc a with
  | Fin x => ((Int_part x + 2 ^ 31) mod 2 ^ 32 - 2 ^ 31)%Z
  | _ => 0%Z
  end.

(** [setGateTotal(total)] *)
Definition setGateTotal (s : t) (total : num) : t :=
  set_gatesTotal s (Z.max 0 (toInt32 total)).

(** [update(dt)]: called once per frame. *)
Definition update (s : t) (dt : num) : t :=
  let s := set_timeSinceScore s (timeSinceScore s + dt)%num in
  let s := set_comboLock s (max (Fin 0) (comboLock s - dt)%num) in
  let s := set_penaltyFlash s
             (max (Fin 0) (penaltyFlash s - dt * Fin 2.2)%num) in
  let s :=
    if (timeSinceScore s >? Fin 1.25)%num then
      let decay := (COMBO_DECAY_PER_SEC * dt)%num in
      let s := set_combo s (max (Fin 1.0) (combo s - decay)%num) in
      if (combo s === Fin 1.0)%num then set_streak s 0%Z else s
    else s in
  let alpha := (Fin 1 - exp (- SCORE_SMOOTH * dt))%num in
  set_displayScore s (lerp (displayScore s) (score s) alpha).

(** [add(points, reason, applyCombo = true)] *)
Definition add (s : t) (points : num) (reason : ScoreAddReason)
    (applyCombo : bool) : t :=
  if negb (isFinite points) then s else
  let raw := trunc points in
  let applied := if applyCombo then trunc (raw * combo s)%num else raw in
  let s := set_score s (max (Fin 0) (score s + applied)%num) in
  let s := set_lastAdd s applied in
  if (applied !== Fin 0)%num then set_timeSinceScore s (Fin 0) else s.

(** [onGateCleared(base, centerBonus, speedBonus)] *)
Definition onGateCleared (s : t) (base centerBonus speedBonus : num) : t :=
  let s := set_gatesPassed s (gatesPassed s + 1)%Z in
  let s := add s base GATE true in
  let s := if (centerBonus >? Fin 0)%num
           then add s centerBonus CENTER_BONUS true else s in
  let s := if (speedBonus >? Fin 0)%num
           then add s speedBonus SPEED_BONUS true else s in
  let s := set_streak s (streak s + 1)%Z in
  if (comboLock s <=? Fin 0)%num
  then set_combo s (clamp (combo s + COMBO_GROW_PER_GATE)%num
                          (Fin 1.0) COMBO_MAX)
  else s.

(** [breakCombo(flash = false)] *)
Definition breakCombo (s : t) (flash : bool) : t :=
  let s := set_combo s (Fin 1.0) in
  let s := set_streak s 0%Z in
  let s := set_timeSinceScore s (Fin 999) in
  if flash then set_penaltyFlash s (Fin 1.0) else s.

(** [onPenalty(points)] *)
Definition onPenalty (s : t) (points : num) : t :=
  let s := add s (- abs points)%num PENALTY false in
  breakCombo s true.

(** [onCrash(speed)] *)
Definition onCrash (s : t) (speed : num) : t :=
  let sp := if isFinite speed then speed else Fin 0 in
  let penalty :=
    max CRASH_BASE (floor (CRASH_BASE + sp * CRASH_PER_SPEED)%num) in
  let s := add s (- penalty)%num CRASH false in
  let s := breakCombo s true in
  let s := set_comboLock s COMBO_LOCK_SEC in
  set_penaltyFlash s (Fin 1.0).

(** [getSnapshot()] *)
Definition getSnapshot (s : t) : ScoreSnapshot :=
  let tier := floor ((combo s - Fin 1.0) / Fin 0.4)%num in
  {| snap_score := score s;
     snap_displayScore := displayScore s;
     snap_combo := combo s;
     snap_comboTier := max (Fin 0) tier;
     snap_streak := streak s;
     snap_gatesPassed := gatesPassed s;
     snap_gatesTotal := gatesTotal s;
     snap_lastAdd := lastAdd s;
     snap_penaltyFlash := penaltyFlash s |}.

(** The public mutators, as data, so that a history of calls is a list. *)
Inductive Op : Type :=
| OpUpdate (dt : num)
| OpAdd (points : num) (reason : ScoreAddReason) (applyCombo : bool)
| OpGateCleared (base centerBonus speedBonus : num)
| OpPenalty (points : num)
| OpCrash (speed : num)
| OpBreakCombo (flash : bool)
| OpSetGateTotal (total : num).

Definition step (s : t) (o : Op) : t :=
  match o with
  | OpUpdate dt => update s dt
  | OpAdd p r c => add s p r c
  | OpGateCleared b c sp => onGateCleared s b c sp
  | OpPenalty p => onPenalty s p
  | OpCrash sp => onCrash s sp
  | OpBreakCombo f => breakCombo s f
  | OpSetGateTotal n => setGateTotal s n
  end.

Definition run (s : t) (ops : list Op) : t := fold_left step ops s.

End ScoreSystem.

(* ================================================================== *)
(** * The parts of three.js that GateCourse.ts calls *)
(* ================================================================== *)

(** [THREE.Vector3] *)
Module Vector3.

Record t : Type := mk { x : num; y : num; z : num }.

Definition add (a b : t) : t :=
  mk (x a + x b)%num (y a + y b)%num (z a + z b)%num.

Definition sub (a b : t) : t :=
  mk (x a - x b)%num (y a - y b)%num (z a - z b)%num.

Definition multiplyScalar (a : t) (s : num) : t :=
  mk (x a * s)%num (y a * s)%num (z a * s)%num.

(** [divideScalar(s)] is [multiplyScalar(1 / s)]. *)
Definition divideScalar (a : t) (s : num) : t :=
  multiplyScalar a (Fin 1 / s)%num.

(** [addScaledVector(v, s)] adds [v * s] componentwise. *)
Definition addScaledVector (a v : t) (s : num) : t :=
  mk (x a + x v * s)%num (y a + y v * s)%num (z a + z v * s)%num.

Definition dot (a b : t) : num :=
  (x a * x b + y a * y b + z a * z b)%num.

Definition lengthSq (a : t) : num :=
  (x a * x a + y a * y a + z a * z a)%num.

Definition length (a : t) : num := sqrt (lengthSq a).

(** [normalize()] is [divideScalar(length() || 1)]. *)
Definition normalize (a : t) : t :=
  divideScalar a (or_else (length a) (Fin 1)).

(** [crossVectors(a, b)] *)
Definition cross (a b : t) : t :=
  mk (y a * z b - z a * y b)%num
     (z a * x b - x a * z b)%num
     (x a * y b - y a * x b)%num.

Definition set_x (a : t) (v : num) : t := mk v (y a) (z a).
Definition set_z (a : t) (v : num) : t := mk (x a) (y a) v.

End Vector3.

(** [THREE.Quaternion] *)
Module Quaternion.

Record t : Type := mk { x : num; y : num; z : num; w : num }.

(** The yaw that [new THREE.Euler(0, 0, 0, "YXZ").setFromQuaternion(q)]
    leaves in its [y] field.  [Euler.setFromQuaternion] builds the rotation
    matrix of [q] ([Matrix4.makeRotationFromQuaternion]) and reads the
    angles off it ([Euler.setFromRotationMatrix], case ["YXZ"]). *)
Definition yawYXZ (q : t) : num :=
  let x2 := (x q + x q)%num in
  let y2 := (y q + y q)%num in
  let z2 := (z q + z q)%num in
  let xx := (x q * x2)%num in
  let yy := (y q * y2)%num in
  let zz := (z q * z2)%num in
  let xz := (x q * z2)%num in
  let yz := (y q * z2)%num in
  let wx := (w q * x2)%num in
  let wy := (w q * y2)%num in
  let m11 := (Fin 1 - (yy + zz))%num in
  let m31 := (xz - wy)%num in
  let m13 := (xz + wy)%num in
  let m23 := (yz - wx)%num in
  let m33 := (Fin 1 - (xx + yy))%num in
  if (abs m23 <? Fin 0.9999999)%num
  then atan2 m13 m33
  else atan2 (- m31)%num m11.

(** [setFromEuler(new THREE.Euler(ex, ey, ez))], default order ["XYZ"]. *)
Definition setFromEuler (ex ey ez : num) : t :=
  let c1 := cos (ex / Fin 2)%num in
  let c2 := cos (ey / Fin 2)%num in
  let c3 := cos (ez / Fin 2)%num in
  let s1 := sin (ex / Fin 2)%num in
  let s2 := sin (ey / Fin 2)%num in
  let s3 := sin (ez / Fin 2)%num in
  mk (s1 * c2 * c3 + c1 * s2 * s3)%num
     (c1 * s2 * c3 - s1 * c2 * s3)%num
     (c1 * c2 * s3 + s1 * s2 * c3)%num
     (c1 * c2 * c3 - s1 * s2 * s3)%num.

(** [Vector3.applyQuaternion(q)] *)
Definition applyTo (q : t) (v : Vector3.t) : Vector3.t :=
  let vx := Vector3.x v in
  let vy := Vector3.y v in
  let vz := Vector3.z v in
  let tx := (Fin 2 * (y q * vz - z q * vy))%num in
  let ty := (Fin 2 * (z q * vx - x q * vz))%num in
  let tz := (Fin 2 * (x q * vy - y q * vx))%num in
  Vector3.mk (vx + w q * tx + y q * tz - z q * ty)%num
             (vy + w q * ty + z q * tx - x q * tz)%num
             (vz + w q * tz + x q * ty - y q * tx)%num.

End Quaternion.

(** The rotation of a [THREE.Object3D], kept as the three columns of its
    rotation matrix: the images of the local x, y and z axes. *)
Module Rotation.

Record t : Type := mk { ex : Vector3.t; ey : Vector3.t; ez : Vector3.t }.

Definition identity : t :=
  mk (Vector3.mk (Fin 1) (Fin 0) (Fin 0))
     (Vector3.mk (Fin 0) (Fin 1) (Fin 0))
     (Vector3.mk (Fin 0) (Fin 0) (Fin 1)).

(** [Matrix4.lookAt(eye, target, up)] *)
Definition lookAt (eye target up : Vector3.t) : t :=
  let z := Vector3.sub eye target in
  let z := if (Vector3.lengthSq z === Fin 0)%num
           then Vector3.set_z z (Fin 1) else z in
  let z := Vector3.normalize z in
  let x := Vector3.cross up z in
  let zx :=
    if (Vector3.lengthSq x === Fin 0)%num then
      let z := if (abs (Vector3.z up) === Fin 1)%num
               then Vector3.set_x z (Vector3.x z + Fin 0.0001)%num
               else Vector3.set_z z (Vector3.z z + Fin 0.0001)%num in
      let z := Vector3.normalize z in
      (z, Vector3.cross up z)
    else (z, x) in
  let z := fst zx in
  let x := Vector3.normalize (snd zx) in
  let y := Vector3.cross z x in
  mk x y z.

(** [Object3D.lookAt(target)] for an object that is neither a camera nor a
    light, at [position], under parents that do not move it: its local z
    axis is turned toward [target]. *)
Definition objectLookAt (position target up : Vector3.t) : t :=
  lookAt target position up.

(** [Object3D.worldToLocal(v)]: [v] through the inverse of the object's
    world matrix.  The world matrix is the rotation followed by the
    translation to [position]; its inverse has the rows [ex], [ey], [ez]
    and the translation [- R^T position].  [Vector3.applyMatrix4] divides
    by the fourth coordinate [w]. *)
Definition worldToLocal (r : t) (position v : Vector3.t) : Vector3.t :=
  let w := (Fin 1 / (Fin 0 * Vector3.x v + Fin 0 * Vector3.y v
                     + Fin 0 * Vector3.z v + Fin 1))%num in
  let row a :=
    ((Vector3.x a * Vector3.x v + Vector3.y a * Vector3.y v
      + Vector3.z a * Vector3.z v + - Vector3.dot a position) * w)%num in
  Vector3.mk (row (ex r)) (row (ey r)) (row (ez r)).

End Rotation.

(* ================================================================== *)
(** * GateCourse.ts *)
(* ================================================================== *)

(** [Math.random()]: an infinite tape of numbers in [[0, 1)]. *)
Record Oracle : Type := mkOracle {
  sample : nat -> R;
  sample_range : forall k, 0 <= sample k < 1
}.

Module GateCourse.

(** [type Gate].  Of [group] the model keeps what the game logic reads and
    writes: the position, the rotation and [userData.flash]; the meshes and
    materials only matter to the renderer. *)
Record Gate : Type := mkGate {
  position : Vector3.t;
  rotation : Rotation.t;
  flash : num;
  passed : bool;
  wasAhead : bool;
  lane : Z
}.

Definition set_position (g : Gate) (v : Vector3.t) : Gate :=
  mkGate v (rotation g) (flash g) (passed g) (wasAhead g) (lane g).
Definition set_rotation (g : Gate) (v : Rotation.t) : Gate :=
  mkGate (position g) v (flash g) (passed g) (wasAhead g) (lane g).
Definition set_flash (g : Gate) (v : num) : Gate :=
  mkGate (position g) (rotation g) v (passed g) (wasAhead g) (lane g).
Definition set_passed (g : Gate) (v : bool) : Gate :=
  mkGate (position g) (rotation g) (flash g) v (wasAhead g) (lane g).
Definition set_wasAhead (g : Gate) (v : bool) : Gate :=
  mkGate (position g) (rotation g) (flash g) (passed g) v (lane g).
Definition set_lane (g : Gate) (v : Z) : Gate :=
  mkGate (position g) (rotation g) (flash g) (passed g) (wasAhead g) v.

(** The fields of [class GateCourse] other than the gate pool, with the
    oracle's cursor.  [score] is the [ScoreSystem] that the game shares
    with the course. *)
Record Env : Type := mkEnv {
  lastLane : Z;
  sameLaneStreak : Z;
  fallbackForward : Vector3.t;
  score : ScoreSystem.t;
  cursor : nat
}.

Definition set_lastLane (e : Env) (v : Z) : Env :=
  mkEnv v (sameLaneStreak e) (fallbackForward e) (score e) (cursor e).
Definition set_sameLaneStreak (e : Env) (v : Z) : Env :=
  mkEnv (lastLane e) v (fallbackForward e) (score e) (cursor e).
Definition set_fallbackForward (e : Env) (v : Vector3.t) : Env :=
  mkEnv (lastLane e) (sameLaneStreak e) v (score e) (cursor e).
Definition set_score (e : Env) (v : ScoreSystem.t) : Env :=
  mkEnv (lastLane e) (sameLaneStreak e) (fallbackForward e) v (cursor e).
Definition set_cursor (e : Env) (v : nat) : Env :=
  mkEnv (lastLane e) (sameLaneStreak e) (fallbackForward e) (score e) v.

(** [class GateCourse] *)
Record t : Type := mk {
  gates : list Gate;
  env : Env
}.

(** What the course does to a gate of the pool, in order: the calls on the
    shared [ScoreSystem] and the respawns.  [gate] is the index in
    [this.gates]. *)
Inductive Event : Type :=
| EvGateCleared (gate : nat) (base centerBonus speedBonus : num)
| EvPenalty (gate : nat) (points : num)
| EvBreakCombo (gate : nat) (flash : bool)
| EvRespawn (gate : nat) (lane : Z).

(** The arguments of [update]. *)
Record Input : Type := mkInput {
  dt : num;
  pos : Vector3.t;
  speed : num;
  quat : option Quaternion.t;
  velXZ : option (num * num)
}.

(** Gate geometry. *)
Definition gateW : num := Fin 10.5.
Definition gateH : num := Fin 6.0.
Definition triggerDepth : num := Fin 3.2.

(** Spawn behaviour. *)
Definition gateCount : nat := 22.
Definition spawnMin : num := Fin 70.
Definition spawnMax : num := Fin 220.
Definition lateralLane : num := Fin 11.
Definition laneMax : Z := 1.
Definition verticalCenter : num := Fin 2.6.
Definition verticalJitter : num := Fin 1.0.
Definition behindRecycle : num := Fin 18.
Definition farRecycle : num := Fin 320.

(** Scoring. *)
Definition basePoints : num := Fin 100.
Definition centerBonusMax : num := Fin 80.
Definition speedBonusMax : num := Fin 50.
Definition speedForMax : num := Fin 18.
Definition missPenalty : num := Fin 140.
Definition missComboBreak : bool := true.
Definition missFlashSeconds : num := Fin 0.35.

Definition up : Vector3.t := Vector3.mk (Fin 0) (Fin 1) (Fin 0).

(** [lanes[i]] and [choices[i]] for an index [i] that [Math.floor] made.
    The index is in range whenever it comes from
    [Math.floor(Math.random() * length)] (lemma [nthLane_floor_In]). *)
Definition nthLane (l : list Z) (i : num) : Z :=
  match i with
  | Fin r => nth (Z.to_nat (Int_part r)) l 0%Z
  | _ => 0%Z
  end.

Definition lengthOf (l : list Z) : num := Fin (INR (List.length l)).

Section WithOracle.

Variable rnd : Oracle.

(** [Math.random()] *)
Definition random (e : Env) : num * Env :=
  (Fin (sample rnd (cursor e)), set_cursor e (S (cursor e))).

(** [getForward(quat, velXZ)] *)
Definition getForward (e : Env) (q : option Quaternion.t)
    (v : option (num * num)) : Vector3.t :=
  let fromVel :=
    match v with
    | Some (vx, vz) =>
        if (vx * vx + vz * vz >? Fin 0.6)%num
        then Some (Vector3.normalize (Vector3.mk vx (Fin 0) vz))
        else None
    | None => None
    end in
  match fromVel with
  | Some f => f
  | None =>
      match q with
      | Some q =>
          let yaw := Quaternion.yawYXZ q in
          let tmpQuat := Quaternion.setFromEuler (Fin 0) yaw (Fin 0) in
          Vector3.normalize
            (Quaternion.applyTo tmpQuat
               (Vector3.mk (Fin 0) (Fin 0) (Fin (-1))))
      | None => fallbackForward e
      end
  end.

(** One gate of [buildGates]: the [i]-th, staggered in front of the
    origin. *)
Definition buildGate (i : nat) : Gate :=
  {| position := Vector3.mk (Fin 0) verticalCenter
                   (Fin (-80) - Fin (INR i) * Fin 18)%num;
     rotation := Rotation.identity;
     flash := Fin 0;
     passed := false;
     wasAhead := false;
     lane := 0%Z |}.

(** [buildGates()] *)
Definition buildGates : list Gate := map buildGate (List.seq 0 gateCount).

(** [flashGate(group)] *)
Definition flashGate (g : Gate) : Gate := set_flash g (Fin 1.0).

(** [onGateMissed(g)], for the gate at index [i]. *)
Definition onGateMissed (i : nat) (e : Env) (g : Gate)
    : Env * Gate * list Event :=
  let g := flashGate g in
  let e := set_score e (ScoreSystem.onPenalty (score e) missPenalty) in
  let ev1 := [EvPenalty i missPenalty] in
  let '(e, ev2) :=
    if missComboBreak
    then (set_score e (ScoreSystem.breakCombo (score e) true),
          [EvBreakCombo i true])
    else (e, []) in
  let g := set_wasAhead g false in
  let g := set_passed g true in
  let g := set_flash g (max (flash g) missFlashSeconds) in
  (e, g, ev1 ++ ev2).

(** [chooseLane()] *)
Definition chooseLane (e : Env) : Z * Env :=
  let lanes := [(-1)%Z; 0%Z; 1%Z] in
  let forceChange := (2 <=? sameLaneStreak e)%Z in
  let '(r, e) := random e in
  let lane := nthLane lanes (floor (r * lengthOf lanes)%num) in
  let '(lane, e) :=
    if forceChange then
      let choices := filter (fun x => negb (x =? lastLane e)%Z) lanes in
      let '(r, e) := random e in
      (nthLane choices (floor (r * lengthOf choices)%num), e)
    else
      let '(r, e) := random e in
      if (r <? Fin 0.35)%num then
        let choices := filter (fun x => negb (x =? lastLane e)%Z) lanes in
        let '(r, e) := random e in
        (nthLane choices (floor (r * lengthOf choices)%num), e)
      else (lane, e) in
  let e :=
    if (lane =? lastLane e)%Z
    then set_sameLaneStreak e (sameLaneStreak e + 1)%Z
    else set_sameLaneStreak e 0%Z in
  let e := set_lastLane e lane in
  (lane, e).

(** [respawnGate(g, pos, fwd)], for the gate at index [i]. *)
Definition respawnGate (i : nat) (e : Env) (g : Gate)
    (p fwd : Vector3.t) : Env * Gate * list Event :=
  let '(r, e) := random e in
  let d := (spawnMin + r * (spawnMax - spawnMin))%num in
  let tmpRight :=
    Vector3.normalize
      (Vector3.mk (Vector3.z fwd) (Fin 0) (- Vector3.x fwd)%num) in
  let '(lane, e) := chooseLane e in
  let g := set_lane g lane in
  let '(r, e) := random e in
  let lateral :=
    (Fin (IZR lane) * lateralLane
     + (r * Fin 2 - Fin 1) * (lateralLane * Fin 0.18))%num in
  let '(r, e) := random e in
  let y := (verticalCenter + (r * Fin 2 - Fin 1) * verticalJitter)%num in
  let spawn :=
    Vector3.addScaledVector (Vector3.addScaledVector p fwd d)
      tmpRight lateral in
  let g := set_position g
             (Vector3.mk (Vector3.x spawn) y (Vector3.z spawn)) in
  let tmpLook := Vector3.addScaledVector spawn fwd (Fin 10) in
  let g := set_rotation g (Rotation.objectLookAt (position g) tmpLook up) in
  let g := set_passed g false in
  let g := set_wasAhead g false in
  (e, g, [EvRespawn i lane]).

(** [ahead] and [dist] in the first loop of [update]. *)
Definition ahead (p fwd : Vector3.t) (g : Gate) : num :=
  Vector3.dot (Vector3.sub (position g) p) fwd.

Definition dist (p : Vector3.t) (g : Gate) : num :=
  Vector3.length (Vector3.sub (position g) p).

(** [shouldRecycle] in the first loop of [update]. *)
Definition shouldRecycle (p fwd : Vector3.t) (g : Gate) : bool :=
  (ahead p fwd g <? - behindRecycle)%num || (dist p g >? farRecycle)%num.

(** The body of the first loop of [update]: miss and recycle. *)
Definition recycleStep (p fwd : Vector3.t) (i : nat) (e : Env) (g : Gate)
    : Env * Gate * list Event :=
  let g0 := g in
  let g := if (ahead p fwd g0 >? Fin 0)%num then set_wasAhead g true
           else g in
  if shouldRecycle p fwd g0 then
    let '(e, g, ev1) :=
      if negb (passed g) && wasAhead g then onGateMissed i e g
      else (e, g, []) in
    let '(e, g, ev2) := respawnGate i e g p fwd in
    (e, g, ev1 ++ ev2)
  else (e, g, []).

(** [centerScore] in the second loop of [update], from the local [x] and
    [y] of the drone. *)
Definition centerScore (lx ly : num) : num :=
  let nx := (abs lx / (gateW * Fin 0.5))%num in
  let ny := (abs ly / (gateH * Fin 0.5))%num in
  let centerDist := sqrt (nx * nx + ny * ny)%num in
  floor (centerBonusMax
         * clamp (Fin 1 - centerDist)%num (Fin 0) (Fin 1))%num.

(** [speedScore] in the second loop of [update]. *)
Definition speedScore (spd : num) : num :=
  let t := clamp (spd / speedForMax)%num (Fin 0) (Fin 1) in
  floor (speedBonusMax * t)%num.

(** The drone in the frame of the gate: [tmpLocal] after
    [g.group.worldToLocal(this.tmpLocal)]. *)
Definition localOf (g : Gate) (p : Vector3.t) : Vector3.t :=
  Rotation.worldToLocal (rotation g) (position g) p.

(** The body of the second loop of [update]: pass checks. *)
Definition passStep (p : Vector3.t) (spd : num) (i : nat) (e : Env)
    (g : Gate) : Env * Gate * list Event :=
  if passed g then (e, g, []) else
  let tmpLocal := localOf g p in
  let lx := Vector3.x tmpLocal in
  let ly := Vector3.y tmpLocal in
  let lz := Vector3.z tmpLocal in
  if (abs lz >? triggerDepth * Fin 0.5)%num then (e, g, []) else
  if (abs lx >? gateW * Fin 0.5)%num then (e, g, []) else
  if (abs ly >? gateH * Fin 0.5)%num then (e, g, []) else
  let g := set_passed g true in
  let g := set_wasAhead g false in
  let g := flashGate g in
  let cs := centerScore lx ly in
  let ss := speedScore spd in
  let e := set_score e
             (ScoreSystem.onGateCleared (score e) basePoints cs ss) in
  (e, g, [EvGateCleared i basePoints cs ss]).

(** [for (const g of this.gates) body], the gates numbered from [i]. *)
Fixpoint forGates (body : nat -> Env -> Gate -> Env * Gate * list Event)
    (i : nat) (e : Env) (gs : list Gate) : Env * list Gate * list Event :=
  match gs with
  | [] => (e, [], [])
  | g :: rest =>
      let '(e, g, ev1) := body i e g in
      let '(e, rest, ev2) := forGates body (S i) e rest in
      (e, g :: rest, ev1 ++ ev2)
  end.

(** [update(dt, pos, speed, quat, velXZ)] *)
Definition update (c : t) (inp : Input) : t * list Event :=
  let fwd := getForward (env c) (quat inp) (velXZ inp) in
  let e := set_fallbackForward (env c) fwd in
  let '(e, gs, ev1) :=
    forGates (recycleStep (pos inp) fwd) 0 e (gates c) in
  let '(e, gs, ev2) :=
    forGates (passStep (pos inp) (speed inp)) 0 e gs in
  (mk gs e, ev1 ++ ev2).

(** [new GateCourse(scene, score)] *)
Definition create (s : ScoreSystem.t) : t :=
  {| gates := buildGates;
     env := {| lastLane := 0%Z;
               sameLaneStreak := 0%Z;
               fallbackForward :=
                 Vector3.mk (Fin 0) (Fin 0) (Fin (-1));
               score := ScoreSystem.setGateTotal s (Fin 0);
               cursor := 0%nat |} |}.

(** What happens to a course between two frames and during one: the game
    calls [update], and it calls the shared [ScoreSystem] on its own. *)
Inductive Action : Type :=
| ActUpdate (inp : Input)
| ActScore (o : ScoreSystem.Op).

Definition act (c : t) (a : Action) : t * list Event :=
  match a with
  | ActUpdate inp => update c inp
  | ActScore o =>
      (mk (gates c) (set_score (env c) (ScoreSystem.step (score (env c)) o)),
       [])
  end.

(** A history of actions, with everything it did to the gates. *)
Fixpoint runActions (c : t) (l : list Action) : t * list Event :=
  match l with
  | [] => (c, [])
  | a :: rest =>
      let '(c, ev1) := act c a in
      let '(c, ev2) := runActions c rest in
      (c, ev1 ++ ev2)
  end.

End WithOracle.

End GateCourse.

(* ================================================================== *)
(** * GateCourse.ts: the glow of the gates *)
(* ================================================================== *)

Module GateGlow.

Import GateCourse.

(** The two materials that [buildGates] makes.  Every mesh of every gate
    holds one of them: the same object for all the gates, not a copy. *)
Inductive MaterialRef : Type := FrameMat | GlowMat.

(** Of a [MeshStandardMaterial], what [setGateGlow] reads and writes.
    Setting [needsUpdate = true] adds one to [version]. *)
Record Material : Type := mkMaterial {
  emissive : bool;
  emissiveIntensity : num;
  opacity : num;
  version : nat
}.

(** The material objects of the scene. *)
Record Materials : Type := mkMaterials {
  frameMat : Material;
  glowMat : Material
}.

(** [frameMat] and [glowMat] as [buildGates] makes them. *)
Definition initialMaterials : Materials :=
  {| frameMat := {| emissive := true; emissiveIntensity := Fin 0.15;
                    opacity := Fin 1; version := 0 |};
     glowMat := {| emissive := true; emissiveIntensity := Fin 0.95;
                   opacity := Fin 0.85; version := 0 |} |}.

(** The meshes of one gate's group, in the order [buildGates] adds them:
    [left], [right], [top], [bottom], [glowL], [glowR], [glowTTop],
    [glowB]. *)
Definition groupMeshes : list MaterialRef :=
  [FrameMat; FrameMat; FrameMat; FrameMat; GlowMat; GlowMat; GlowMat; GlowMat].

Definition getMat (st : Materials) (r : MaterialRef) : Material :=
  match r with FrameMat => frameMat st | GlowMat => glowMat st end.

Definition putMat (st : Materials) (r : MaterialRef) (m : Material)
    : Materials :=
  match r with
  | FrameMat => mkMaterials m (glowMat st)
  | GlowMat => mkMaterials (frameMat st) m
  end.

(** The callback of [setGateGlow] on one mesh. *)
Definition glowMesh (op : num) (st : Materials) (r : MaterialRef)
    : Materials :=
  let mat := getMat st r in
  if emissive mat && (emissiveIntensity mat >=? Fin 0.9)%num
  then putMat st r
         (mkMaterial (emissive mat) (emissiveIntensity mat) op
            (S (version mat)))
  else st.

(** [setGateGlow(group, opacity)].  [group.traverse] visits the group,
    which has no material, and then its meshes. *)
Definition setGateGlow (st : Materials) (op : num) : Materials :=
  fold_left (glowMesh op) groupMeshes st.

(** The body of the loop of [animate].  [userData.flash] is a number from
    [buildGates] on, so [?? 0] never applies. *)
Definition animateStep (dt : num) (st : Materials) (g : Gate)
    : Materials * Gate :=
  let f := flash g in
  if (f <=? Fin 0)%num then (st, g) else
  let nf := max (Fin 0) (f - dt * Fin 2.8)%num in
  let g := set_flash g nf in
  let op := (Fin 0.85 + nf * Fin 0.35)%num in
  (setGateGlow st op, g).

Fixpoint animateGates (dt : num) (st : Materials) (gs : list Gate)
    : Materials * list Gate :=
  match gs with
  | [] => (st, [])
  | g :: rest =>
      let '(st, g) := animateStep dt st g in
      let '(st, rest) := animateGates dt st rest in
      (st, g :: rest)
  end.

(** [animate(dt)] *)
Definition animate (c : GateCourse.t) (st : Materials) (dt : num)
    : GateCourse.t * Materials :=
  let '(st, gs) := animateGates dt st (gates c) in
  (GateCourse.mk gs (env c), st).

(** Frames of [animate], one after the other. *)
Fixpoint animateAll (c : GateCourse.t) (st : Materials) (dts : list R)
    : GateCourse.t * Materials :=
  match dts with
  | [] => (c, st)
  | d :: rest =>
      let '(c, st) := animate c st (Fin d) in
      animateAll c st rest
  end.

(** The materials after the respawns of a trace: [respawnGate] ends with
    [setGateGlow(g.group, 0.85)], and nothing else in [update] touches a
    material. *)
Definition glowAfter (st : Materials) (evs : list Event) : Materials :=
  fold_left
    (fun st ev =>
       match ev with
       | EvRespawn _ _ => setGateGlow st (Fin 0.85)
       | _ => st
       end)
    evs st.

End GateGlow.

(* ================================================================== *)
(** * Game.ts: what the main loop does with the course and the score *)
(* ================================================================== *)

Module Game.

Import GateCourse.

(** [Math.hypot(x, y, z)]: [+Infinity] if an argument is infinite, else
    [NaN] if one is [NaN], else the length. *)
Definition hypot (x y z : num) : num :=
  let inf a := match a with PInf | NInf => true | _ => false end in
  if inf x || inf y || inf z then PInf
  else sqrt (x * x + y * y + z * z)%num.

Definition CRASH_COOLDOWN_SEC : num := Fin 0.35.
Definition FIXED_DT : num := Fin (1 / 60).
Definition maxSteps : nat := 5.
Definition BASE_FOV : num := Fin 70.
Definition MAX_FOV : num := Fin 85.
Definition SPEED_FOR_MAX_FOV : num := Fin 18.
Definition FOV_LERP : num := Fin 0.08.

(** One collision event of the queue, with what [world.getCollider] and
    [parent()] give for its two handles: [None] for no collider,
    [Some None] for a collider without a parent, [Some (Some h)] for a
    collider whose parent compares equal to the handle [h]. *)
Record Collision : Type := mkCollision {
  started : bool;
  collider1 : option (option Z);
  collider2 : option (option Z)
}.

(** The penalty of a collision at [speed]. *)
Definition collisionPenalty (speed : num) : num :=
  max (Fin 60) (floor (speed * Fin 35)%num).

(** The callback that [drainCollisionPenalties] gives to
    [drainCollisionEvents], on the score and the cooldown. *)
Definition onCollision (droneHandle : Z) (speed : num)
    (st : ScoreSystem.t * num) (c : Collision) : ScoreSystem.t * num :=
  let '(s, cooldown) := st in
  if negb (started c) then st else
  if (cooldown >? Fin 0)%num then st else
  match collider1 c, collider2 c with
  | Some (Some p1), Some (Some p2) =>
      let droneHit := (p1 =? droneHandle)%Z || (p2 =? droneHandle)%Z in
      if negb droneHit then st else
      (ScoreSystem.onPenalty s (collisionPenalty speed), CRASH_COOLDOWN_SEC)
  | _, _ => st
  end.

(** [drainCollisionPenalties(speed)], once physics, drone and queue
    exist. *)
Definition drainCollisionPenalties (droneHandle : Z) (speed : num)
    (st : ScoreSystem.t * num) (evs : list Collision)
    : ScoreSystem.t * num :=
  if (snd st >? Fin 0)%num then st
  else fold_left (onCollision droneHandle speed) evs st.

(** The fixed-step loop: [while (accumulator >= FIXED_DT && steps <
    maxSteps)].  It returns the accumulator and the number of physics
    steps; [fuel] bounds the iterations, and [maxSteps] of it is enough
    since each iteration counts one step. *)
Fixpoint stepLoop (fuel : nat) (acc : num) (steps : nat) : num * nat :=
  match fuel with
  | O => (acc, steps)
  | S fuel =>
      if (acc >=? FIXED_DT)%num && (steps <? maxSteps)%nat
      then stepLoop fuel (acc - FIXED_DT)%num (S steps)
      else (acc, steps)
  end.

(** [updateCameraFOV(speed)], on [camera.fov]. *)
Definition updateCameraFOV (fov speed : num) : num :=
  let t := clamp (speed / SPEED_FOR_MAX_FOV)%num (Fin 0) (Fin 1) in
  let targetFOV := lerp BASE_FOV MAX_FOV t in
  lerp fov targetFOV FOV_LERP.

(** What the loop keeps from frame to frame.  [course] holds the
    [ScoreSystem] that the game shares with it. *)
Record t : Type := mk {
  course : GateCourse.t;
  glow : GateGlow.Materials;
  crashCooldown : num;
  accumulator : num;
  fov : num;
  droneHandle : Z
}.

(** What a frame gets from the clock and from the physics: the seconds
    since the last frame, the pose and the velocity of the drone after the
    physics steps, and the collision events of the queue. *)
Record Frame : Type := mkFrame {
  elapsed : num;
  position : Vector3.t;
  quaternion : Quaternion.t;
  linvel : Vector3.t;
  collisions : list Collision
}.

Section WithOracle.

Variable rnd : Oracle.

(** [loop], once [init] is over, without the renderer, the terrain and
    the HUD. *)
Definition loop (g : t) (f : Frame) : t * (nat * list Event) :=
  let dt := min (elapsed f) (Fin (1 / 20)) in
  let cooldown := max (Fin 0) (crashCooldown g - dt)%num in
  let '(acc, steps) := stepLoop maxSteps (accumulator g + dt)%num 0 in
  let v := linvel f in
  let speed := hypot (Vector3.x v) (Vector3.y v) (Vector3.z v) in
  let c := course g in
  let '(s, cooldown) :=
    drainCollisionPenalties (droneHandle g) speed
      (GateCourse.score (env c), cooldown) (collisions f) in
  let c := GateCourse.mk (gates c) (GateCourse.set_score (env c) s) in
  let '(c, evs) :=
    GateCourse.update rnd c
      (mkInput dt (position f) speed (Some (quaternion f))
         (Some (Vector3.x v, Vector3.z v))) in
  let '(c, gl) := GateGlow.animate c (GateGlow.glowAfter (glow g) evs) dt in
  let c := GateCourse.mk (gates c)
             (GateCourse.set_score (env c)
                (ScoreSystem.update (GateCourse.score (env c)) dt)) in
  (mk c gl cooldown acc (updateCameraFOV (fov g) speed) (droneHandle g),
   (steps, evs)).

(** Frames, one after the other. *)
Definition run (g : t) (fs : list Frame) : t :=
  fold_left (fun g f => fst (loop g f)) fs g.

End WithOracle.

(** The game as [init] leaves it, with the drone's body at [handle]. *)
Definition start (handle : Z) : t :=
  {| course := GateCourse.create ScoreSystem.init;
     glow := GateGlow.initialMaterials;
     crashCooldown := Fin 0;
     accumulator := Fin 0;
     fov := Fin 70;
     droneHandle := handle |}.

End Game.

(* ================================================================== *)
(** * Vocabulary of the statements *)
(* ================================================================== *)

Module ScoreSpec.

Import ScoreSystem.

(** [1.0 <= combo <= 3.0] *)
Definition comboInRange (s : t) : Prop :=
  exists c, combo s = Fin c /\ 1 <= c <= 3.

(** [score >= 0] *)
Definition scoreNonneg (s : t) : Prop :=
  exists x, score s = Fin x /\ 0 <= x.

Definition comboFinite (s : t) : Prop := isFinite (combo s) = true.

(** What every history of calls keeps, whatever the arguments. *)
Definition sound (s : t) : Prop := scoreNonneg s /\ comboFinite s.

(** No field of the score holds a non-finite number. *)
Definition finiteFields (s : t) : Prop :=
  isFinite (score s) = true /\ isFinite (displayScore s) = true /\
  isFinite (combo s) = true /\ isFinite (lastAdd s) = true /\
  isFinite (penaltyFlash s) = true /\ isFinite (timeSinceScore s) = true /\
  isFinite (comboLock s) = true.

(** A frame's [update(dt)] is called with [dt >= 0]. *)
Definition dtNonneg (o : Op) : Prop :=
  match o with
  | OpUpdate dt => (Fin 0 <=? dt)%num = true
  | _ => True
  end.

(** Every mutator but the per-frame [update(dt)]. *)
Definition isEvent (o : Op) : Prop :=
  match o with
  | OpUpdate _ => False
  | _ => True
  end.

(** The signed change that [add] applies: [applied] in the source. *)
Definition applied (s : t) (points : num) (applyCombo : bool) : num :=
  let raw := trunc points in
  if applyCombo then trunc (raw * combo s)%num else raw.

(** A history in which time advances by finite steps [dt >= 0]. *)
Definition timed (o : Op) : Prop :=
  match o with
  | OpUpdate (Fin d) => 0 <= d
  | OpUpdate _ => False
  | _ => True
  end.

(** The simulated seconds that a history lets pass. *)
Fixpoint elapsed (ops : list Op) : R :=
  match ops with
  | [] => 0
  | OpUpdate (Fin d) :: rest => d + elapsed rest
  | _ :: rest => elapsed rest
  end.

(** The combo is at [1.0] and the lock has more than [budget] seconds left. *)
Definition locked (budget : R) (s : t) : Prop :=
  combo s = Fin 1.0 /\
  exists l, comboLock s = Fin l /\ budget < l <= 0.55.

(** A frame's [update(dt)] with a finite [dt >= 0]. *)
Definition isTick (o : Op) : Prop :=
  match o with
  | OpUpdate (Fin d) => 0 <= d
  | _ => False
  end.

(** The score and the last change are whole numbers, the score not
    negative. *)
Definition wholeScore (s : t) : Prop :=
  (exists n : Z, score s = Fin (IZR n) /\ (0 <= n)%Z) /\
  (exists m : Z, lastAdd s = Fin (IZR m)).

(** Any mutator but [onCrash], with a finite [dt >= 0] for [update]. *)
Definition noCrash (o : Op) : Prop :=
  match o with
  | OpCrash _ => False
  | OpUpdate (Fin d) => 0 <= d
  | OpUpdate _ => False
  | _ => True
  end.

(** A speed that is not finite, or at most a million. *)
Definition speedWithin (a : num) : Prop :=
  match a with Fin v => v <= 1000000 | _ => True end.

(** A number argument that is not finite, or at most [10^100] in size. *)
Definition argWithin (a : num) : Prop :=
  match a with Fin x => Rabs x <= 10 ^ 100 | _ => True end.

(** A call whose number arguments are all within that size. *)
Definition opWithin (o : Op) : Prop :=
  match o with
  | OpUpdate dt => argWithin dt
  | OpAdd p _ _ => argWithin p
  | OpGateCleared b c sp => argWithin b /\ argWithin c /\ argWithin sp
  | OpPenalty p => argWithin p
  | OpCrash sp => argWithin sp
  | OpBreakCombo _ => True
  | OpSetGateTotal _ => True
  end.

End ScoreSpec.

Module CourseSpec.

Import GateCourse.

Definition lanes : list Z := [(-1)%Z; 0%Z; 1%Z].

(** The gate an event is about. *)
Definition gateOf (ev : Event) : nat :=
  match ev with
  | EvGateCleared i _ _ _ => i
  | EvPenalty i _ => i
  | EvBreakCombo i _ => i
  | EvRespawn i _ => i
  end.

Definition isCleared (ev : Event) : bool :=
  match ev with EvGateCleared _ _ _ _ => true | _ => false end.

(** The lanes that [chooseLane] returned, in order. *)
Fixpoint respawnLanes (evs : list Event) : list Z :=
  match evs with
  | [] => []
  | EvRespawn _ l :: rest => l :: respawnLanes rest
  | _ :: rest => respawnLanes rest
  end.

(** No value stands four times in a row. *)
Definition noRun4 (l : list Z) : Prop :=
  forall pre a post, l <> pre ++ a :: a :: a :: a :: post.

(** The miss condition of the first loop, on the gate as the loop finds
    it. *)
Definition missed (p fwd : Vector3.t) (g : Gate) : bool :=
  negb (passed g) && (wasAhead g || (ahead p fwd g >? Fin 0)%num).

(** [sameLaneStreak] after [chooseLane] has returned [ln]. *)
Definition nextStreak (e : Env) (ln : Z) : Z :=
  if (ln =? lastLane e)%Z then (sameLaneStreak e + 1)%Z else 0%Z.

(** The length of the run of [x] at the head of [l]. *)
Fixpoint leadRun (x : Z) (l : list Z) : Z :=
  match l with
  | y :: rest => if (y =? x)%Z then (1 + leadRun x rest)%Z else 0%Z
  | [] => 0%Z
  end.

(** The lane fields agree with the lanes chosen so far, newest first; the
    oldest entry is the initial [lastLane]. *)
Definition laneHist (h : list Z) (e : Env) : Prop :=
  exists x rest,
    h = x :: rest /\
    lastLane e = x /\
    sameLaneStreak e = leadRun x rest /\
    (leadRun x rest <= 2)%Z /\
    noRun4 h /\
    Forall (fun l => In l lanes) h.

Definition pushLanes (evs : list Event) (h : list Z) : list Z :=
  rev (respawnLanes evs) ++ h.

(** Every credit of gate [i] in [evs] comes after a respawn of gate [i]. *)
Definition creditGuarded (i : nat) (evs : list Event) : Prop :=
  forall pre b cs sp post,
    evs = pre ++ EvGateCleared i b cs sp :: post ->
    exists ln, In (EvRespawn i ln) pre.

(** The gate at index [i] exists and has [passed = true]. *)
Definition passedAt (c : GateCourse.t) (i : nat) : Prop :=
  exists g, nth_error (gates c) i = Some g /\ passed g = true.

(** A vector of three finite numbers. *)
Definition fin3 (a b c : R) : Vector3.t := Vector3.mk (Fin a) (Fin b) (Fin c).

Definition finiteVec (v : Vector3.t) : Prop :=
  exists a b c, v = fin3 a b c.

(** A finite unit vector of the horizontal plane. *)
Definition unitXZ (f : Vector3.t) : Prop :=
  exists fx fz, f = fin3 fx 0 fz /\ fx * fx + fz * fz = 1.

Definition finiteQuat (q : Quaternion.t) : Prop :=
  exists a b c d, q = Quaternion.mk (Fin a) (Fin b) (Fin c) (Fin d).

(** Every number of the input that the forward and the geometry read is
    finite. *)
Definition finiteInput (inp : Input) : Prop :=
  finiteVec (pos inp) /\
  match velXZ inp with
  | Some (vx, vz) => isFinite vx = true /\ isFinite vz = true
  | None => True
  end /\
  match quat inp with
  | Some q => finiteQuat q
  | None => True
  end.

(** The containment test of the second loop: none of its three [continue]
    is taken. *)
Definition contains (g : Gate) (p : Vector3.t) : bool :=
  let l := localOf g p in
  negb (abs (Vector3.z l) >? triggerDepth * Fin 0.5)%num
  && negb (abs (Vector3.x l) >? gateW * Fin 0.5)%num
  && negb (abs (Vector3.y l) >? gateH * Fin 0.5)%num.

(** The columns are finite and keep the length of every vector. *)
Definition orthonormal (r : Rotation.t) : Prop :=
  exists x1 x2 x3 y1 y2 y3 z1 z2 z3,
    r = Rotation.mk (fin3 x1 x2 x3) (fin3 y1 y2 y3) (fin3 z1 z2 z3) /\
    forall v1 v2 v3,
      (x1 * v1 + x2 * v2 + x3 * v3) * (x1 * v1 + x2 * v2 + x3 * v3)
      + (y1 * v1 + y2 * v2 + y3 * v3) * (y1 * v1 + y2 * v2 + y3 * v3)
      + (z1 * v1 + z2 * v2 + z3 * v3) * (z1 * v1 + z2 * v2 + z3 * v3)
      = v1 * v1 + v2 * v2 + v3 * v3.

(** A tape on which [Math.random()] always returns [0]. *)
Definition zeroOracle : Oracle :=
  {| sample := fun _ => 0;
     sample_range := fun _ => conj (Rle_refl 0) Rlt_0_1 |}.

(** The course of a new game. *)
Definition newCourse : GateCourse.t := GateCourse.create ScoreSystem.init.

(** A frame whose position has [x = +Infinity], with no orientation and no
    velocity sample. *)
Definition frameAtInfinity : Input :=
  {| dt := Fin 0.016;
     pos := Vector3.mk PInf (Fin 0) (Fin 0);
     speed := Fin 0;
     quat := None;
     velXZ := None |}.

(** A frame 380 units behind the first gate of a new course. *)
Definition frameBehind : Input :=
  {| dt := Fin 0.016;
     pos := fin3 0 0 300;
     speed := Fin 0;
     quat := None;
     velXZ := None |}.

(** A frame at the centre of the first gate of a new course, at speed
    18. *)
Definition frameCenter : Input :=
  {| dt := Fin 0.016;
     pos := fin3 0 2.6 (-80);
     speed := Fin 18;
     quat := None;
     velXZ := None |}.

(** The first gate of a new course once the second loop has credited it. *)
Definition creditedGate : Gate :=
  flashGate (set_wasAhead (set_passed (buildGate 0) true) false).

(** A new course after the frame at the centre of its first gate. *)
Definition creditedCourse : GateCourse.t :=
  fst (GateCourse.update zeroOracle newCourse frameCenter).

(** The calls on the shared [ScoreSystem] that a trace records, in
    order. *)
Fixpoint scoreCalls (evs : list Event) : list ScoreSystem.Op :=
  match evs with
  | [] => []
  | EvGateCleared _ b c s :: rest =>
      ScoreSystem.OpGateCleared b c s :: scoreCalls rest
  | EvPenalty _ p :: rest => ScoreSystem.OpPenalty p :: scoreCalls rest
  | EvBreakCombo _ f :: rest => ScoreSystem.OpBreakCombo f :: scoreCalls rest
  | EvRespawn _ _ :: rest => scoreCalls rest
  end.

(** The number of [onGateCleared] in a trace. *)
Fixpoint credits (evs : list Event) : Z :=
  match evs with
  | [] => 0
  | EvGateCleared _ _ _ _ :: rest => 1 + credits rest
  | _ :: rest => credits rest
  end.

(** Two gates that differ at most in their flash. *)
Definition sameButFlash (g g' : Gate) : Prop :=
  position g' = position g /\ rotation g' = rotation g /\
  passed g' = passed g /\ wasAhead g' = wasAhead g /\
  GateCourse.lane g' = GateCourse.lane g.

(** The glow material can be told from the frame material the way
    [setGateGlow] does it. *)
Definition glowReady (st : GateGlow.Materials) : Prop :=
  GateGlow.emissive (GateGlow.glowMat st) = true /\
  GateGlow.emissiveIntensity (GateGlow.glowMat st) = Fin 0.95 /\
  GateGlow.emissiveIntensity (GateGlow.frameMat st) = Fin 0.15.

(** A bonus as [update] computes it: [NaN], or a whole number from 0 to
    [m]. *)
Definition bonusOk (m : Z) (a : num) : Prop :=
  a = NaN \/ exists k : Z, a = Fin (IZR k) /\ (0 <= k <= m)%Z.

(** The points that a call of the course on the score carries. *)
Definition scoreArgsBounded (ev : Event) : Prop :=
  match ev with
  | EvGateCleared _ b cs sp => b = Fin 100 /\ bonusOk 80 cs /\ bonusOk 50 sp
  | EvPenalty _ p => p = Fin 140
  | _ => True
  end.

(** A finite number of size at most a million. *)
Definition withinMillion (a : num) : Prop :=
  exists x, a = Fin x /\ Rabs x <= 1000000.

(** Every number of the input that the forward and the geometry read is
    finite and of size at most a million. *)
Definition boundedInput (inp : Input) : Prop :=
  (withinMillion (Vector3.x (pos inp)) /\ withinMillion (Vector3.y (pos inp))
   /\ withinMillion (Vector3.z (pos inp))) /\
  match velXZ inp with
  | Some (vx, vz) => withinMillion vx /\ withinMillion vz
  | None => True
  end /\
  match quat inp with
  | Some q =>
      withinMillion (Quaternion.x q) /\ withinMillion (Quaternion.y q) /\
      withinMillion (Quaternion.z q) /\ withinMillion (Quaternion.w q)
  | None => True
  end.

End CourseSpec.

Module GameSpec.

Import Game CourseSpec.

(** The frame without its collision events. *)
Definition mute (f : Game.Frame) : Game.Frame :=
  Game.mkFrame (Game.elapsed f) (Game.position f) (Game.quaternion f)
    (Game.linvel f) [].

(** The clock has moved on by a finite time, not backwards. *)
Definition clockOk (f : Game.Frame) : Prop :=
  exists e, Game.elapsed f = Fin e /\ 0 <= e.

(** A collision event that [onCollision] charges when the cooldown is
    over. *)
Definition isDroneHit (handle : Z) (c : Game.Collision) : bool :=
  Game.started c &&
  match Game.collider1 c, Game.collider2 c with
  | Some (Some p1), Some (Some p2) => (p1 =? handle)%Z || (p2 =? handle)%Z
  | _, _ => false
  end.

(** A frame of 16 milliseconds with the drone at rest, and in the queue
    a collision between the bodies 7 and 1. *)
Definition stillFrame : Frame :=
  {| elapsed := Fin 0.016;
     position := fin3 0 3 0;
     quaternion := Quaternion.mk (Fin 0) (Fin 0) (Fin 0) (Fin 1);
     linvel := fin3 0 0 0;
     collisions := [mkCollision true (Some (Some 7%Z)) (Some (Some 1%Z))] |}.

(** A game whose drone, the body 7, has just been charged a collision. *)
Definition justHit : Game.t :=
  Game.mk (course (start 7)) (glow (start 7)) (Fin 0.35) (Fin 0) (Fin 70) 7.

End GameSpec.

(* ================================================================== *)
(** * Binary64 numbers *)
(* ================================================================== *)

(** A TypeScript [number] as the IEEE 754 binary64 value that it is:
    [spec_float] of the Standard Library with a mantissa of 53 bits and
    the exponent 1024 for the infinities, rounding to nearest, ties to
    even.  The sign of zero, the subnormal numbers, overflow to an
    infinity and [NaN] are all there. *)
Module B64.

Definition prec : Z := 53.
Definition emax : Z := 1024.

Definition zero : spec_float := S754_zero false.
Definition nan : spec_float := S754_nan.

(** An integer literal. *)
Definition ofZ (z : Z) : spec_float := binary_normalize prec emax z 0 false.

(** The decimal literal [n / d], for integers [n] and [d] below [2^53]:
    the binary64 number nearest to the quotient. *)
Definition dec (n d : Z) : spec_float := SFdiv prec emax (ofZ n) (ofZ d).

(** [Number.isFinite] *)
Definition isFinite (a : spec_float) : bool :=
  match a with
  | S754_zero _ | S754_finite _ _ _ => true
  | _ => false
  end.


Definition add : spec_float -> spec_float -> spec_float := SFadd prec emax.
Definition sub : spec_float -> spec_float -> spec_float := SFsub prec emax.
Definition mul : spec_float -> spec_float -> spec_float := SFmul prec emax.
Definition neg : spec_float -> spec_float := SFopp.
Definition abs : spec_float -> spec_float := SFabs.

(** [a < b], [a > b], [a <= b], [a === b], [a !== b] *)
Definition lt : spec_float -> spec_float -> bool := SFltb.
Definition gt (a b : spec_float) : bool := SFltb b a.
Definition le : spec_float -> spec_float -> bool := SFleb.
Definition seq : spec_float -> spec_float -> bool := SFeqb.
Definition sne (a b : spec_float) : bool := negb (SFeqb a b).

(** [Math.max(a, b)]: [NaN] if either is; [+0] is larger than [-0]. *)
Definition max (a b : spec_float) : spec_float :=
  match a, b with
  | S754_nan, _ | _, S754_nan => S754_nan
  | S754_zero sa, S754_zero sb => S754_zero (sa && sb)
  | _, _ => if SFltb a b then b else a
  end.

(** [Math.min(a, b)] *)
Definition min (a b : spec_float) : spec_float :=
  match a, b with
  | S754_nan, _ | _, S754_nan => S754_nan
  | S754_zero sa, S754_zero sb => S754_zero (sa || sb)
  | _, _ => if SFltb b a then b else a
  end.

(** [Math.trunc]: the number [m * 2^e] without its fraction.  With
    [e >= 0] it is an integer already; otherwise the integer part of the
    mantissa is below [2^53] and is a binary64 number. *)
Definition trunc (a : spec_float) : spec_float :=
  match a with
  | S754_finite s m e =>
      if (0 <=? e)%Z then a else
      match Z.shiftr (Zpos m) (- e) with
      | Z0 => S754_zero s
      | q => binary_normalize prec emax (if s then (- q)%Z else q) 0 false
      end
  | _ => a
  end.

(** [Math.floor] *)
Definition floor (a : spec_float) : spec_float :=
  match a with
  | S754_finite s m e =>
      if (0 <=? e)%Z then a else
      let q := Z.shiftr (Zpos m) (- e) in
      let whole := (Z.shiftl q (- e) =? Zpos m)%Z in
      match (if s then (if whole then - q else - q - 1) else q)%Z with
      | Z0 => S754_zero s
      | n => binary_normalize prec emax n 0 false
      end
  | _ => a
  end.

(** [THREE.MathUtils.clamp] and [THREE.MathUtils.lerp] *)
Definition clamp (value lo hi : spec_float) : spec_float :=
  max lo (min hi value).

Definition lerp (x y t : spec_float) : spec_float :=
  add (mul (sub (ofZ 1) t) x) (mul t y).

(** The integer part of a finite number, and [0] for the others. *)
Definition toZ (a : spec_float) : Z :=
  match a with
  | S754_finite s m e =>
      let q := if (0 <=? e)%Z then Z.shiftl (Zpos m) e
               else Z.shiftr (Zpos m) (- e) in
      if s then (- q)%Z else q
  | _ => 0%Z
  end.

(** The real number that a finite binary64 number is. *)
Definition toR (a : spec_float) : R :=
  match a with
  | S754_finite s m e => IZR (if s then Zneg m else Zpos m) * powerRZ 2 e
  | _ => 0
  end.

End B64.

(* ================================================================== *)
(** * ScoreSystem.ts in binary64 *)
(* ================================================================== *)

(** [class ScoreSystem] once more, method by method, on binary64 numbers.
    [Math.exp] is left to the engine by ECMAScript; it is a parameter
    here, and only [displayScore] depends on it. *)
Module ScoreSystem64.

Import B64.

Record t : Type := mk {
  score : spec_float;
  displayScore : spec_float;
  combo : spec_float;
  streak : Z;
  gatesPassed : Z;
  gatesTotal : Z;
  lastAdd : spec_float;
  penaltyFlash : spec_float;
  timeSinceScore : spec_float;
  comboLock : spec_float
}.

(** Tuneables. *)
Definition COMBO_MAX : spec_float := ofZ 3.
Definition COMBO_GROW_PER_GATE : spec_float := dec 12 100.
Definition COMBO_DECAY_PER_SEC : spec_float := dec 18 100.
Definition SCORE_SMOOTH : spec_float := ofZ 10.
Definition CRASH_BASE : spec_float := ofZ 120.
Definition CRASH_PER_SPEED : spec_float := ofZ 22.
Definition COMBO_LOCK_SEC : spec_float := dec 55 100.

(** The field initialisers. *)
Definition init : t :=
  {| score := zero; displayScore := zero;
     combo := ofZ 1; streak := 0%Z;
     gatesPassed := 0%Z; gatesTotal := 0%Z;
     lastAdd := zero; penaltyFlash := zero;
     timeSinceScore := ofZ 999; comboLock := zero |}.

Definition set_score (s : t) (v : spec_float) : t :=
  mk v (displayScore s) (combo s) (streak s) (gatesPassed s) (gatesTotal s)
     (lastAdd s) (penaltyFlash s) (timeSinceScore s) (comboLock s).
Definition set_displayScore (s : t) (v : spec_float) : t :=
  mk (score s) v (combo s) (streak s) (gatesPassed s) (gatesTotal s)
     (lastAdd s) (penaltyFlash s) (timeSinceScore s) (comboLock s).
Definition set_combo (s : t) (v : spec_float) : t :=
  mk (score s) (displayScore s) v (streak s) (gatesPassed s) (gatesTotal s)
     (lastAdd s) (penaltyFlash s) (timeSinceScore s) (comboLock s).
Definition set_streak (s : t) (v : Z) : t :=
  mk (score s) (displayScore s) (combo s) v (gatesPassed s) (gatesTotal s)
     (lastAdd s) (penaltyFlash s) (timeSinceScore s) (comboLock s).
Definition set_gatesPassed (s : t) (v : Z) : t :=
  mk (score s) (displayScore s) (combo s) (streak s) v (gatesTotal s)
     (lastAdd s) (penaltyFlash s) (timeSinceScore s) (comboLock s).
Definition set_gatesTotal (s : t) (v : Z) : t :=
  mk (score s) (displayScore s) (combo s) (streak s) (gatesPassed s) v
     (lastAdd s) (penaltyFlash s) (timeSinceScore s) (comboLock s).
Definition set_lastAdd (s : t) (v : spec_float) : t :=
  mk (score s) (displayScore s) (combo s) (streak s) (gatesPassed s)
     (gatesTotal s) v (penaltyFlash s) (timeSinceScore s) (comboLock s).
Definition set_penaltyFlash (s : t) (v : spec_float) : t :=
  mk (score s) (displayScore s) (combo s) (streak s) (gatesPassed s)
     (gatesTotal s) (lastAdd s) v (timeSinceScore s) (comboLock s).
Definition set_timeSinceScore (s : t) (v : spec_float) : t :=
  mk (score s) (displayScore s) (combo s) (streak s) (gatesPassed s)
     (gatesTotal s) (lastAdd s) (penaltyFlash s) v (comboLock s).
Definition set_comboLock (s : t) (v : spec_float) : t :=
  mk (score s) (displayScore s) (combo s) (streak s) (gatesPassed s)
     (gatesTotal s) (lastAdd s) (penaltyFlash s) (timeSinceScore s) v.

(** [total | 0] *)
Definition toInt32 (a : spec_float) : Z :=
  ((toZ a + 2 ^ 31) mod 2 ^ 32 - 2 ^ 31)%Z.

(** [setGateTotal(total)] *)
Definition setGateTotal (s : t) (total : spec_float) : t :=
  set_gatesTotal s (Z.max 0 (toInt32 total)).

(** [add(points, reason, applyCombo = true)] *)
Definition add (s : t) (points : spec_float)
    (reason : ScoreSystem.ScoreAddReason) (applyCombo : bool) : t :=
  if negb (isFinite points) then s else
  let raw := trunc points in
  let applied := if applyCombo then trunc (mul raw (combo s)) else raw in
  let s := set_score s (max zero (B64.add (score s) applied)) in
  let s := set_lastAdd s applied in
  if sne applied zero then set_timeSinceScore s zero else s.

(** [onGateCleared(base, centerBonus, speedBonus)] *)
Definition onGateCleared (s : t) (base centerBonus speedBonus : spec_float)
    : t :=
  let s := set_gatesPassed s (gatesPassed s + 1)%Z in
  let s := add s base ScoreSystem.GATE true in
  let s := if gt centerBonus zero
           then add s centerBonus ScoreSystem.CENTER_BONUS true else s in
  let s := if gt speedBonus zero
           then add s speedBonus ScoreSystem.SPEED_BONUS true else s in
  let s := set_streak s (streak s + 1)%Z in
  if le (comboLock s) zero
  then set_combo s (clamp (B64.add (combo s) COMBO_GROW_PER_GATE)
                          (ofZ 1) COMBO_MAX)
  else s.

(** [breakCombo(flash = false)] *)
Definition breakCombo (s : t) (flash : bool) : t :=
  let s := set_combo s (ofZ 1) in
  let s := set_streak s 0%Z in
  let s := set_timeSinceScore s (ofZ 999) in
  if flash then set_penaltyFlash s (ofZ 1) else s.

(** [onPenalty(points)] *)
Definition onPenalty (s : t) (points : spec_float) : t :=
  let s := add s (neg (abs points)) ScoreSystem.PENALTY false in
  breakCombo s true.

(** [onCrash(speed)] *)
Definition onCrash (s : t) (speed : spec_float) : t :=
  let sp := if isFinite speed then speed else zero in
  let penalty :=
    max CRASH_BASE (floor (B64.add CRASH_BASE (mul sp CRASH_PER_SPEED))) in
  let s := add s (neg penalty) ScoreSystem.CRASH false in
  let s := breakCombo s true in
  let s := set_comboLock s COMBO_LOCK_SEC in
  set_penaltyFlash s (ofZ 1).

(** The public mutators, as data. *)
Inductive Op : Type :=
| OpUpdate (dt : spec_float)
| OpAdd (points : spec_float) (reason : ScoreSystem.ScoreAddReason)
    (applyCombo : bool)
| OpGateCleared (base centerBonus speedBonus : spec_float)
| OpPenalty (points : spec_float)
| OpCrash (speed : spec_float)
| OpBreakCombo (flash : bool)
| OpSetGateTotal (total : spec_float).

Section WithExp.

(** [Math.exp] *)
Variable exp : spec_float -> spec_float.

(** [update(dt)] *)
Definition update (s : t) (dt : spec_float) : t :=
  let s := set_timeSinceScore s (B64.add (timeSinceScore s) dt) in
  let s := set_comboLock s (max zero (sub (comboLock s) dt)) in
  let s := set_penaltyFlash s
             (max zero (sub (penaltyFlash s) (mul dt (dec 22 10)))) in
  let s :=
    if gt (timeSinceScore s) (dec 125 100) then
      let decay := mul COMBO_DECAY_PER_SEC dt in
      let s := set_combo s (max (ofZ 1) (sub (combo s) decay)) in
      if seq (combo s) (ofZ 1) then set_streak s 0%Z else s
    else s in
  let alpha := sub (ofZ 1) (exp (mul (neg SCORE_SMOOTH) dt)) in
  set_displayScore s (lerp (displayScore s) (score s) alpha).

Definition step (s : t) (o : Op) : t :=
  match o with
  | OpUpdate dt => update s dt
  | OpAdd p r c => add s p r c
  | OpGateCleared b c sp => onGateCleared s b c sp
  | OpPenalty p => onPenalty s p
  | OpCrash sp => onCrash s sp
  | OpBreakCombo f => breakCombo s f
  | OpSetGateTotal n => setGateTotal s n
  end.

Definition run (s : t) (ops : list Op) : t := fold_left step ops s.

End WithExp.

End ScoreSystem64.

(** Vocabulary of the statements on binary64 numbers. *)
Module Score64Spec.

Import B64 ScoreSystem64.


End Score64Spec.

(* ================================================================== *)
(** * Proof tools *)
(* ================================================================== *)

Ltac rdec :=
  repeat match goal with
  | |- context [Rlt_dec ?a ?b] => destruct (Rlt_dec a b)
  | |- context [Rle_dec ?a ?b] => destruct (Rle_dec a b)
  | |- context [Req_dec_T ?a ?b] => destruct (Req_dec_T a b)
  end.

Ltac unfold_num :=
  unfold JS.clamp, JS.max, JS.min, JS.gt, JS.ge, JS.sne, JS.sub, JS.lt,
    JS.le, JS.seq, JS.add, JS.mul, JS.neg, JS.scaleInf, JS.Rltb, JS.Rleb,
    JS.Reqb.

Ltac ss_proj :=
  unfold ScoreSystem.set_score, ScoreSystem.set_displayScore,
    ScoreSystem.set_combo, ScoreSystem.set_streak,
    ScoreSystem.set_gatesPassed, ScoreSystem.set_gatesTotal,
    ScoreSystem.set_lastAdd, ScoreSystem.set_penaltyFlash,
    ScoreSystem.set_timeSinceScore, ScoreSystem.set_comboLock;
  cbn [ScoreSystem.score ScoreSystem.displayScore ScoreSystem.combo
       ScoreSystem.streak ScoreSystem.gatesPassed ScoreSystem.gatesTotal
       ScoreSystem.lastAdd ScoreSystem.penaltyFlash
       ScoreSystem.timeSinceScore ScoreSystem.comboLock].

Ltac env_proj :=
  unfold GateCourse.set_lastLane, GateCourse.set_sameLaneStreak,
    GateCourse.set_fallbackForward, GateCourse.set_score,
    GateCourse.set_cursor;
  cbn [GateCourse.cursor GateCourse.lastLane GateCourse.sameLaneStreak
       GateCourse.fallbackForward GateCourse.score].

Ltac gate_proj :=
  unfold GateCourse.flashGate, GateCourse.set_position,
    GateCourse.set_rotation, GateCourse.set_flash, GateCourse.set_passed,
    GateCourse.set_wasAhead, GateCourse.set_lane;
  cbn [GateCourse.position GateCourse.rotation GateCourse.flash
       GateCourse.passed GateCourse.wasAhead GateCourse.lane].

(** [floor (Fin e) = Fin z] for a real [e] that [lra] finds in [[z, z+1)]. *)
Ltac floor_const z :=
  cbn [JS.floor]; apply f_equal;
  match goal with
  | |- IZR (Int_part ?e) = _ =>
      change (IZR (Int_part e) = IZR z); apply f_equal; symmetry;
      apply Int_part_spec; simpl; lra
  end.

(* ================================================================== *)
(** * Facts about numbers *)
(* ================================================================== *)

Lemma Int_part_IZR z : Int_part (IZR z) = z.
Proof. symmetry. apply Int_part_spec. lra. Qed.

Lemma Int_part_range x (n : Z) :
  0 <= x < IZR n -> (0 <= Int_part x < n)%Z.
Proof.
  intros [H0 H1]. destruct (base_Int_part x) as [Ha Hb].
  split.
  - assert (IZR (-1) < IZR (Int_part x)) by (simpl; lra).
    apply lt_IZR in H. lia.
  - apply lt_IZR. lra.
Qed.

Lemma trunc_finite a : isFinite a = true -> exists x, trunc a = Fin x.
Proof. destruct a; try discriminate. intros _. unfold trunc. rdec; eauto. Qed.

Lemma trunc_IZR z : trunc (Fin (IZR z)) = Fin (IZR z).
Proof.
  unfold trunc. rdec.
  - rewrite <- (opp_IZR z), Int_part_IZR, opp_IZR. f_equal. lra.
  - rewrite Int_part_IZR. reflexivity.
Qed.


Lemma Int_part_nonneg x : 0 <= x -> 0 <= IZR (Int_part x).
Proof.
  intros H. destruct (base_Int_part x) as [Ha Hb].
  assert (IZR (-1) < IZR (Int_part x)) by (simpl; lra).
  apply lt_IZR in H0. apply IZR_le. lia.
Qed.

Lemma floor_IZR z : floor (Fin (IZR z)) = Fin (IZR z).
Proof. cbn [floor]. rewrite Int_part_IZR. reflexivity. Qed.

Lemma Fin_eq a b : a = b -> Fin a = Fin b.
Proof. intros ->. reflexivity. Qed.

Lemma sqrt_nonzero q : 0 <= q -> q <> 0 -> R_sqrt.sqrt q <> 0.
Proof.
  intros H0 Hq E. apply Hq. apply sqrt_eq_0; assumption.
Qed.


(* ================================================================== *)
(** * ScoreSystem: proofs *)
(* ================================================================== *)

Module ScoreProofs.

Import ScoreSystem ScoreSpec.

Lemma add_nonfinite s p r a : isFinite p = false -> add s p r a = s.
Proof. intros H. unfold add. rewrite H. reflexivity. Qed.

Lemma add_fields s p r a :
  isFinite p = true ->
  score (add s p r a) = max (Fin 0) (score s + applied s p a)%num /\
  lastAdd (add s p r a) = applied s p a /\
  timeSinceScore (add s p r a) =
    (if (applied s p a !== Fin 0)%num then Fin 0 else timeSinceScore s) /\
  combo (add s p r a) = combo s /\
  comboLock (add s p r a) = comboLock s /\
  displayScore (add s p r a) = displayScore s /\
  penaltyFlash (add s p r a) = penaltyFlash s /\
  streak (add s p r a) = streak s /\
  gatesPassed (add s p r a) = gatesPassed s /\
  gatesTotal (add s p r a) = gatesTotal s.
Proof.
  intros H. unfold add. rewrite H. cbn [negb]. cbv zeta.
  fold (applied s p a).
  destruct (applied s p a !== Fin 0)%num; ss_proj; repeat split; reflexivity.
Qed.

Lemma applied_finite s p a :
  isFinite p = true -> comboFinite s -> exists x, applied s p a = Fin x.
Proof.
  intros Hp Hc. unfold applied. cbv zeta.
  destruct (trunc_finite p Hp) as [x Hx]. rewrite Hx.
  destruct a; [|eauto].
  unfold comboFinite in Hc. destruct (combo s); try discriminate.
  simpl. rdec; eauto.
Qed.

Lemma max0_nonneg a : isFinite a = true -> exists x, max (Fin 0) a = Fin x /\ 0 <= x.
Proof.
  destruct a; try discriminate. intros _. unfold_num. rdec; eexists; (split; [reflexivity|lra]).
Qed.

Lemma scoreNonneg_add s p r a :
  scoreNonneg s -> comboFinite s -> scoreNonneg (add s p r a).
Proof.
  intros Hs Hc. destruct (isFinite p) eqn:Hp.
  - destruct (add_fields s p r a Hp) as [E _]. unfold scoreNonneg. rewrite E.
    destruct Hs as [x [Hx _]]. rewrite Hx.
    destruct (applied_finite s p a Hp Hc) as [y Hy]. rewrite Hy.
    apply max0_nonneg. reflexivity.
  - rewrite add_nonfinite by assumption. assumption.
Qed.

Lemma combo_add s p r a : combo (add s p r a) = combo s.
Proof.
  unfold add. destruct (negb (isFinite p)); [reflexivity|].
  cbv zeta. destruct (_ !== _)%num; reflexivity.
Qed.

Lemma score_breakCombo s f : score (breakCombo s f) = score s.
Proof. unfold breakCombo. destruct f; reflexivity. Qed.

Lemma combo_breakCombo s f : combo (breakCombo s f) = Fin 1.0.
Proof. unfold breakCombo. destruct f; reflexivity. Qed.


Lemma sound_add s p r a : sound s -> sound (add s p r a).
Proof.
  intros [Hs Hc]. split.
  - apply scoreNonneg_add; assumption.
  - unfold comboFinite. rewrite combo_add. exact Hc.
Qed.

Lemma sound_breakCombo s f : sound s -> sound (breakCombo s f).
Proof.
  intros [Hs Hc]. split.
  - unfold scoreNonneg. rewrite score_breakCombo. exact Hs.
  - unfold comboFinite. rewrite combo_breakCombo. reflexivity.
Qed.

Lemma sound_ext s s' :
  score s' = score s -> combo s' = combo s -> sound s -> sound s'.
Proof.
  intros E1 E2 [Hs Hc]. split.
  - unfold scoreNonneg. rewrite E1. exact Hs.
  - unfold comboFinite. rewrite E2. exact Hc.
Qed.

Lemma clamp_finite a lo hi :
  isFinite a = true -> exists x, clamp a (Fin lo) (Fin hi) = Fin x.
Proof.
  destruct a; try discriminate. intros _. unfold_num. rdec; eauto.
Qed.

Lemma sound_onGateCleared s b c sp : sound s -> sound (onGateCleared s b c sp).
Proof.
  intros H. unfold onGateCleared. cbv zeta.
  set (s0 := set_gatesPassed s _).
  assert (H0 : sound s0) by (revert H; apply sound_ext; reflexivity).
  set (s1 := add s0 b GATE true).
  assert (H1 : sound s1) by (apply sound_add; exact H0).
  set (s2 := if (c >? Fin 0)%num then _ else s1).
  assert (H2 : sound s2).
  { subst s2. destruct (c >? Fin 0)%num; [apply sound_add|]; exact H1. }
  set (s3 := if (sp >? Fin 0)%num then _ else s2).
  assert (H3 : sound s3).
  { subst s3. destruct (sp >? Fin 0)%num; [apply sound_add|]; exact H2. }
  set (s4 := set_streak s3 _).
  assert (H4 : sound s4) by (revert H3; apply sound_ext; reflexivity).
  destruct (comboLock s4 <=? Fin 0)%num; [|exact H4].
  destruct H4 as [Hs Hc]. split; [exact Hs|].
  unfold comboFinite in *. ss_proj.
  destruct (combo s4) as [x| | |]; try discriminate.
  unfold COMBO_GROW_PER_GATE, COMBO_MAX.
  destruct (clamp_finite (Fin x + Fin 0.12)%num 1.0 3.0 eq_refl) as [y Hy].
  rewrite Hy. reflexivity.
Qed.

Lemma sound_update s d : sound s -> sound (update s d).
Proof.
  intros [Hs Hc]. unfold update. cbv zeta.
  split; [unfold scoreNonneg | unfold comboFinite]; ss_proj.
  - match goal with |- context [if ?b then _ else _] => destruct b end;
      [match goal with |- context [if ?b then _ else _] => destruct b end|];
      ss_proj; exact Hs.
  - set (tss := (timeSinceScore s + d)%num).
    destruct (tss >? Fin 1.25)%num eqn:Ht; ss_proj; [|exact Hc].
    assert (E : isFinite (max (Fin 1.0) (combo s - COMBO_DECAY_PER_SEC * d)%num) = true).
    { unfold comboFinite in Hc. destruct (combo s) as [x| | |]; try discriminate.
      unfold COMBO_DECAY_PER_SEC.
      destruct d as [d| | |].
      - unfold_num. rdec; reflexivity.
      - unfold_num. rdec; try lra; reflexivity.
      - exfalso. subst tss. destruct (timeSinceScore s); discriminate.
      - exfalso. subst tss. destruct (timeSinceScore s); discriminate. }
    match goal with |- context [if ?b then _ else _] => destruct b end;
      ss_proj; exact E.
Qed.

Lemma sound_onPenalty s p : sound s -> sound (onPenalty s p).
Proof. intros H. unfold onPenalty. apply sound_breakCombo, sound_add, H. Qed.

Lemma sound_onCrash s sp : sound s -> sound (onCrash s sp).
Proof.
  intros H. unfold onCrash. cbv zeta.
  eapply sound_ext; [| |apply sound_breakCombo, sound_add, H]; reflexivity.
Qed.

Lemma sound_step s o : sound s -> sound (step s o).
Proof.
  intros H. destruct o; cbn [step].
  - apply sound_update, H.
  - apply sound_add, H.
  - apply sound_onGateCleared, H.
  - apply sound_onPenalty, H.
  - apply sound_onCrash, H.
  - apply sound_breakCombo, H.
  - revert H. apply sound_ext; reflexivity.
Qed.

Lemma sound_init : sound init.
Proof. split; [exists 0; split; [reflexivity|lra] | reflexivity]. Qed.

Lemma sound_run ops : forall s, sound s -> sound (run s ops).
Proof.
  unfold run. induction ops as [|o ops IH]; intros s H; simpl; auto.
  apply IH, sound_step, H.
Qed.

(** In exact arithmetic the score is a finite number and [>= 0] after
    every call of [add].  The arithmetic of the code overflows: the score on
    binary64 numbers is in [Score64Proofs]. *)
Lemma score_nonneg_exact ops p r a :
  exists x, score (add (run init ops) p r a) = Fin x /\ 0 <= x.
Proof.
  apply scoreNonneg_add; apply (sound_run ops init sound_init).
Qed.

(** C10.  When [add] applies a nonzero delta [x] (the points truncated,
    multiplied by the combo and truncated again when [applyCombo]),
    [lastAdd], and so the snapshot's [lastAdd], is [x] itself, and
    [timeSinceScore] is reset to 0; and when [score + x < 0] the score is
    clamped to 0.  So a penalty larger than the score is recorded in full
    although the score moves by less, or not at all when it was 0. *)
Theorem add_records_unclamped_delta s p r a x :
  applied s (Fin p) a = Fin x ->
  x <> 0 ->
  lastAdd (add s (Fin p) r a) = Fin x /\
  snap_lastAdd (getSnapshot (add s (Fin p) r a)) = Fin x /\
  timeSinceScore (add s (Fin p) r a) = Fin 0 /\
  (forall sc, score s = Fin sc -> sc + x < 0 ->
     score (add s (Fin p) r a) = Fin 0).
Proof.
  intros Hx Hn.
  destruct (add_fields s (Fin p) r a eq_refl) as (E1 & E2 & E3 & _).
  rewrite Hx in *.
  repeat split.
  - exact E2.
  - cbn [getSnapshot snap_lastAdd]. exact E2.
  - rewrite E3. unfold_num. rdec; [contradiction|reflexivity].
  - intros sc Hsc Hlt. rewrite E1, Hsc. unfold_num. rdec; try reflexivity; lra.
Qed.


Lemma elapsed_nonneg ops : Forall timed ops -> 0 <= elapsed ops.
Proof.
  induction 1 as [|o ops Ho _ IH]; simpl; [lra|].
  destruct o as [[d| | |]| | | | | |]; simpl in Ho; try lra; contradiction.
Qed.

Lemma comboLock_add s p r a : comboLock (add s p r a) = comboLock s.
Proof.
  unfold add. destruct (negb (isFinite p)); [reflexivity|].
  cbv zeta. destruct (_ !== _)%num; reflexivity.
Qed.

Lemma comboLock_breakCombo s f : comboLock (breakCombo s f) = comboLock s.
Proof. unfold breakCombo. destruct f; reflexivity. Qed.

Lemma onGateCleared_locked_fields s b c sp l :
  comboLock s = Fin l -> 0 < l ->
  combo (onGateCleared s b c sp) = combo s /\
  comboLock (onGateCleared s b c sp) = Fin l.
Proof.
  intros Hl Hpos. unfold onGateCleared. cbv zeta.
  set (s4 := set_streak _ _).
  assert (E : comboLock s4 = Fin l /\ combo s4 = combo s).
  { subst s4. ss_proj.
    destruct (sp >? Fin 0)%num, (c >? Fin 0)%num;
      rewrite ?comboLock_add, ?combo_add; ss_proj; auto. }
  destruct E as [E1 E2]. rewrite E1.
  assert (F : (Fin l <=? Fin 0)%num = false) by (unfold_num; rdec; [lra|reflexivity]).
  rewrite F. auto.
Qed.

Lemma locked_step budget s o :
  timed o -> 0 <= budget -> locked (elapsed [o] + budget) s ->
  locked budget (step s o).
Proof.
  intros Ho Hb [Hc [l [Hl Hr]]].
  destruct o as [[d| | |]|p r a|b c sp|p|sp|f|n]; simpl in Ho, Hr; try contradiction;
    cbn [step].
  - (* update *)
    unfold locked, update. cbv zeta. ss_proj. rewrite Hl, Hc.
    assert (E1 : max (Fin 0) (Fin l - Fin d)%num = Fin (l + - d))
      by (unfold_num; rdec; [reflexivity|lra]).
    assert (E2 : max (Fin 1.0) (Fin 1.0 - COMBO_DECAY_PER_SEC * Fin d)%num = Fin 1.0).
    { unfold COMBO_DECAY_PER_SEC. unfold_num. rdec; [lra|reflexivity]. }
    rewrite E1. split.
    + destruct (_ >? Fin 1.25)%num; ss_proj; [|reflexivity].
      rewrite E2. destruct (_ === _)%num; reflexivity.
    + exists (l + - d). split.
      * destruct (_ >? Fin 1.25)%num; ss_proj; [|reflexivity].
        rewrite E2. destruct (_ === _)%num; reflexivity.
      * lra.
  - split; [rewrite combo_add; exact Hc|].
    exists l. rewrite comboLock_add. split; [exact Hl|lra].
  - destruct (onGateCleared_locked_fields s b c sp l Hl ltac:(lra)) as [E1 E2].
    split; [rewrite E1; exact Hc|]. exists l. split; [exact E2|lra].
  - unfold onPenalty. split; [apply combo_breakCombo|].
    exists l. rewrite comboLock_breakCombo, comboLock_add. split; [exact Hl|lra].
  - unfold onCrash, locked, COMBO_LOCK_SEC. cbv zeta. ss_proj.
    split; [rewrite combo_breakCombo; reflexivity|].
    eexists. split; [reflexivity|lra].
  - split; [apply combo_breakCombo|].
    exists l. rewrite comboLock_breakCombo. split; [exact Hl|lra].
  - split; [exact Hc|]. exists l. split; [exact Hl|lra].
Qed.

Lemma elapsed_cons o ops : elapsed (o :: ops) = elapsed [o] + elapsed ops.
Proof.
  destruct o as [[d| | |]| | | | | |]; simpl; lra.
Qed.

Lemma locked_run ops : forall s,
  Forall timed ops -> locked (elapsed ops) s -> locked 0 (run s ops).
Proof.
  unfold run. induction ops as [|o ops IH]; intros s Hf H; simpl.
  - exact H.
  - inversion Hf; subst. apply IH; [assumption|].
    apply locked_step; [assumption|apply elapsed_nonneg; assumption|].
    rewrite <- elapsed_cons. exact H.
Qed.

Lemma locked_onCrash s sp budget : budget < 0.55 -> locked budget (onCrash s sp).
Proof.
  intros Hb. unfold onCrash, locked, COMBO_LOCK_SEC. cbv zeta. ss_proj.
  split; [rewrite combo_breakCombo; reflexivity|].
  eexists. split; [reflexivity|lra].
Qed.

Lemma add_points_unit_combo s r (z : Z) x :
  score s = Fin x -> 0 <= x -> combo s = Fin 1.0 -> (0 <= z)%Z ->
  score (add s (ofZ z) r true) = Fin (x + IZR z).
Proof.
  intros Hs Hx Hc Hz.
  destruct (add_fields s (ofZ z) r true eq_refl) as [E _]. rewrite E.
  unfold applied, ofZ. cbv zeta. rewrite trunc_IZR, Hc, Hs.
  replace (Fin (IZR z) * Fin 1.0)%num with (Fin (IZR z)) by (simpl; f_equal; lra).
  rewrite trunc_IZR. apply IZR_le in Hz.
  unfold_num. rdec; [reflexivity|f_equal; lra].
Qed.

Lemma ofZ_gt0 z : (ofZ z >? Fin 0)%num = (0 <? z)%Z.
Proof.
  unfold ofZ. unfold_num. destruct (Z.ltb_spec 0 z) as [H|H].
  - apply IZR_lt in H. rdec; [reflexivity|lra].
  - apply IZR_le in H. rdec; [lra|reflexivity].
Qed.

Lemma onGateCleared_score_unit_combo s (b c sp : Z) x :
  score s = Fin x -> 0 <= x -> combo s = Fin 1.0 ->
  (0 <= b)%Z -> (0 <= c)%Z -> (0 <= sp)%Z ->
  score (onGateCleared s (ofZ b) (ofZ c) (ofZ sp))
  = Fin (x + IZR b + IZR c + IZR sp).
Proof.
  intros Hs Hx Hc Hb Hcz Hsp. unfold onGateCleared. cbv zeta.
  set (s0 := set_gatesPassed s _).
  set (s1 := add s0 (ofZ b) GATE true).
  assert (H1 : score s1 = Fin (x + IZR b) /\ combo s1 = Fin 1.0).
  { subst s1. split; [apply add_points_unit_combo; auto | rewrite combo_add; exact Hc]. }
  destruct H1 as [H1 C1].
  assert (Pb : 0 <= IZR b) by (apply IZR_le in Hb; exact Hb).
  assert (Pc : 0 <= IZR c) by (apply IZR_le in Hcz; exact Hcz).
  assert (Psp : 0 <= IZR sp) by (apply IZR_le in Hsp; exact Hsp).
  set (s2 := if (ofZ c >? Fin 0)%num then _ else s1).
  assert (H2 : score s2 = Fin (x + IZR b + IZR c) /\ combo s2 = Fin 1.0).
  { subst s2. rewrite ofZ_gt0. destruct (Z.ltb_spec 0 c) as [H|H].
    - split; [apply add_points_unit_combo; auto; lra | rewrite combo_add; exact C1].
    - assert (c = 0%Z) by lia. subst c. split; [rewrite H1; f_equal; simpl; lra | exact C1]. }
  destruct H2 as [H2 C2].
  set (s3 := if (ofZ sp >? Fin 0)%num then _ else s2).
  assert (H3 : score s3 = Fin (x + IZR b + IZR c + IZR sp)).
  { subst s3. rewrite ofZ_gt0. destruct (Z.ltb_spec 0 sp) as [H|H].
    - apply add_points_unit_combo; auto; lra.
    - assert (sp = 0%Z) by lia. subst sp. rewrite H2; f_equal; simpl; lra. }
  destruct (comboLock _ <=? Fin 0)%num; ss_proj; exact H3.
Qed.

(** The combo lock in exact arithmetic: it holds as long as the frame
    times add up to less than 0.55 seconds. *)
Lemma combo_lock_exact s speed ops (b c sp : Z) :
  sound s -> Forall timed ops -> elapsed ops < 0.55 ->
  (0 <= b)%Z -> (0 <= c)%Z -> (0 <= sp)%Z ->
  let s1 := onCrash s speed in
  let s2 := run s1 ops in
  let s3 := onGateCleared s2 (ofZ b) (ofZ c) (ofZ sp) in
  combo s1 = Fin 1.0 /\
  combo s3 = Fin 1.0 /\
  (forall c0, combo s = Fin c0 -> 1 <= c0 -> (combo s3 <=? combo s)%num = true) /\
  exists x, score s2 = Fin x /\ 0 <= x /\
            score s3 = Fin (x + IZR b + IZR c + IZR sp).
Proof.
  intros Hs Hf He Hb Hc Hsp s1 s2 s3.
  assert (L1 : locked (elapsed ops) s1) by (apply locked_onCrash; exact He).
  assert (L2 : locked 0 s2) by (apply locked_run; assumption).
  assert (S2 : sound s2) by (apply sound_run, sound_onCrash, Hs).
  destruct L2 as [C2 [l [Hl Hr]]].
  destruct (onGateCleared_locked_fields s2 (ofZ b) (ofZ c) (ofZ sp) l Hl ltac:(lra))
    as [E1 _].
  assert (C3 : combo s3 = Fin 1.0) by (subst s3; rewrite E1; exact C2).
  split; [apply L1|]. split; [exact C3|]. split.
  - intros c0 Hc0 Hge. rewrite C3, Hc0. unfold_num. rdec; [reflexivity|lra].
  - destruct S2 as [[x [Hx Hx0]] _]. exists x. split; [exact Hx|]. split; [exact Hx0|].
    apply onGateCleared_score_unit_combo; assumption.
Qed.

(** C8, amended.  After [onCrash(speed)], let at most a million calls
    follow in which the [update(dt)] calls have finite [dt >= 0] that add
    up to at most 0.55 seconds less a nanosecond.  A clear
    [onGateCleared(b, c, sp)] that comes then, with whole points
    [b, c, sp] from 0 to a million, leaves the combo at 1.0, the value the
    crash set, which is not above the combo before the crash; and it still
    adds [b + c + sp] to a score of at most [10^15].  The nanosecond is
    the margin for the rounding of [comboLock - dt], at most [2^-54] in
    each frame: without it the lock can end early. *)
Theorem combo_lock_effective s speed ops (b c sp : Z) :
  sound s -> Forall timed ops -> (Z.of_nat (length ops) <= 1000000)%Z ->
  elapsed ops <= 0.55 - 1 / 1000000000 ->
  (0 <= b <= 1000000)%Z -> (0 <= c <= 1000000)%Z ->
  (0 <= sp <= 1000000)%Z ->
  let s1 := onCrash s speed in
  let s2 := run s1 ops in
  let s3 := onGateCleared s2 (ofZ b) (ofZ c) (ofZ sp) in
  combo s1 = Fin 1.0 /\
  combo s3 = Fin 1.0 /\
  (forall c0, combo s = Fin c0 -> 1 <= c0 -> (combo s3 <=? combo s)%num = true) /\
  (forall x, score s2 = Fin x -> x <= 1000000000000000 ->
     score s3 = Fin (x + IZR b + IZR c + IZR sp)).
Proof.
  intros Hs Hf Hn He Hb Hc Hsp s1 s2 s3.
  pose proof (combo_lock_exact s speed ops b c sp Hs Hf
                ltac:(lra) ltac:(lia) ltac:(lia) ltac:(lia)) as P.
  cbv zeta in P. destruct P as (A & B & C & x & Hx & _ & D).
  split; [exact A|]. split; [exact B|]. split; [exact C|].
  intros y Hy _. subst s3 s2 s1. rewrite Hy in Hx.
  inversion Hx; subst. exact D.
Qed.

Lemma comboInRange_breakCombo s f : comboInRange (breakCombo s f).
Proof.
  unfold breakCombo, comboInRange. destruct f; simpl; eexists; (split; [reflexivity|lra]).
Qed.

Lemma comboInRange_onGateCleared s b c sp :
  comboInRange s -> comboInRange (onGateCleared s b c sp).
Proof.
  intros [x [Hx Hr]]. unfold onGateCleared. cbv zeta.
  set (s1 := set_streak _ _).
  assert (H1 : combo s1 = Fin x).
  { subst s1. unfold set_streak; cbn [combo].
    destruct (sp >? Fin 0)%num, (c >? Fin 0)%num;
      rewrite ?combo_add; exact Hx. }
  destruct (comboLock s1 <=? Fin 0)%num.
  - unfold comboInRange, set_combo; cbn [combo]. rewrite H1.
    unfold COMBO_GROW_PER_GATE, COMBO_MAX.
    unfold_num. rdec; eexists; (split; [reflexivity|lra]).
  - exists x. auto.
Qed.

Lemma comboInRange_update s d :
  (Fin 0 <=? d)%num = true -> comboInRange s -> comboInRange (update s d).
Proof.
  intros Hd [x [Hx Hr]]. unfold update. cbv zeta.
  unfold comboInRange, set_displayScore; cbn [combo].
  match goal with |- context [if ?b then _ else _] => destruct b end.
  - assert (E : exists y, max (Fin 1.0)
        (combo s - COMBO_DECAY_PER_SEC * d)%num = Fin y /\ 1 <= y <= 3).
    { rewrite Hx. unfold COMBO_DECAY_PER_SEC.
      destruct d as [d| | |]; simpl in Hd; try discriminate.
      + unfold JS.Rleb in Hd. destruct (Rle_dec 0 d); try discriminate.
        unfold_num. rdec; eexists; (split; [reflexivity|lra]).
      + unfold_num. rdec; try lra; eexists; (split; [reflexivity|lra]). }
    destruct E as [y [Ey Hy]].
    unfold set_combo, set_penaltyFlash, set_comboLock, set_timeSinceScore;
      cbn [combo]. rewrite Ey.
    destruct (Fin y === Fin 1.0)%num; unfold set_streak; cbn [combo]; eauto.
  - cbn. eauto.
Qed.

Lemma comboInRange_step s o :
  dtNonneg o -> comboInRange s -> comboInRange (step s o).
Proof.
  intros Hd H. destruct o; simpl in *.
  - apply comboInRange_update; assumption.
  - destruct H as [x [Hx Hr]]. exists x. rewrite combo_add. auto.
  - apply comboInRange_onGateCleared; assumption.
  - apply comboInRange_breakCombo.
  - unfold onCrash, comboInRange. simpl. eexists; (split; [reflexivity|lra]).
  - apply comboInRange_breakCombo.
  - destruct H as [x [Hx Hr]]. exists x. auto.
Qed.

(** C5.  From the initial state ([combo = 1.0]), after any sequence of
    calls of the mutators in which every [update(dt)] has [dt >= 0], the
    combo is a finite number with [1.0 <= combo <= 3.0].  As this holds
    for every sequence, it holds after each call. *)
Theorem combo_bounds ops :
  Forall dtNonneg ops -> comboInRange (run init ops).
Proof.
  unfold run. 
  assert (G : forall s, comboInRange s -> Forall dtNonneg ops -> comboInRange (fold_left step ops s)).
  { induction ops as [|o ops IH]; intros s Hs Hf; simpl; auto.
    inversion Hf; subst. apply IH; auto. apply comboInRange_step; auto. }
  intros. apply G; auto. unfold comboInRange; simpl. eexists; (split; [reflexivity|lra]).
Qed.



Lemma finiteFields_add s p r a : finiteFields s -> finiteFields (add s p r a).
Proof.
  intros H. destruct (isFinite p) eqn:Hp; [|rewrite add_nonfinite by assumption; exact H].
  destruct (add_fields s p r a Hp)
    as (E1 & E2 & E3 & E4 & E5 & E6 & E7 & _).
  destruct H as (F1 & F2 & F3 & F4 & F5 & F6 & F7).
  destruct (applied_finite s p a Hp F3) as [x Hx].
  rewrite Hx in E1, E2, E3.
  assert (G1 : isFinite (score (add s p r a)) = true).
  { rewrite E1. destruct (score s) as [y| | |]; try discriminate.
    destruct (max0_nonneg (Fin y + Fin x)%num eq_refl) as (z & Ez & _).
    rewrite Ez. reflexivity. }
  assert (G6 : isFinite (timeSinceScore (add s p r a)) = true).
  { rewrite E3. destruct (Fin x !== Fin 0)%num; [reflexivity|assumption]. }
  unfold finiteFields. rewrite E2, E4, E5, E6, E7.
  repeat split; auto.
Qed.

Lemma finiteFields_breakCombo s f : finiteFields s -> finiteFields (breakCombo s f).
Proof.
  intros (F1 & F2 & F3 & F4 & F5 & F6 & F7).
  unfold finiteFields, breakCombo. destruct f; ss_proj; repeat split; auto.
Qed.

Lemma finiteFields_ext s s' :
  score s' = score s -> displayScore s' = displayScore s ->
  combo s' = combo s -> lastAdd s' = lastAdd s ->
  penaltyFlash s' = penaltyFlash s -> timeSinceScore s' = timeSinceScore s ->
  comboLock s' = comboLock s ->
  finiteFields s -> finiteFields s'.
Proof.
  intros E1 E2 E3 E4 E5 E6 E7 H. unfold finiteFields.
  rewrite E1, E2, E3, E4, E5, E6, E7. exact H.
Qed.

Lemma finiteFields_onGateCleared s b c sp :
  finiteFields s -> finiteFields (onGateCleared s b c sp).
Proof.
  intros H. unfold onGateCleared. cbv zeta.
  set (s0 := set_gatesPassed s _).
  assert (H0 : finiteFields s0) by (revert H; apply finiteFields_ext; reflexivity).
  set (s1 := add s0 b GATE true).
  assert (H1 : finiteFields s1) by (apply finiteFields_add; exact H0).
  set (s2 := if (c >? Fin 0)%num then _ else s1).
  assert (H2 : finiteFields s2)
    by (subst s2; destruct (c >? Fin 0)%num; [apply finiteFields_add|]; exact H1).
  set (s3 := if (sp >? Fin 0)%num then _ else s2).
  assert (H3 : finiteFields s3)
    by (subst s3; destruct (sp >? Fin 0)%num; [apply finiteFields_add|]; exact H2).
  set (s4 := set_streak s3 _).
  assert (H4 : finiteFields s4) by (revert H3; apply finiteFields_ext; reflexivity).
  destruct (comboLock s4 <=? Fin 0)%num; [|exact H4].
  destruct H4 as (F1 & F2 & F3 & F4 & F5 & F6 & F7).
  unfold finiteFields. ss_proj. repeat split; auto.
  destruct (combo s4) as [x| | |]; try discriminate.
  unfold COMBO_GROW_PER_GATE, COMBO_MAX.
  destruct (clamp_finite (Fin x + Fin 0.12)%num 1.0 3.0 eq_refl) as [y Hy].
  rewrite Hy. reflexivity.
Qed.

Lemma finiteFields_onPenalty s p : finiteFields s -> finiteFields (onPenalty s p).
Proof.
  intros H. unfold onPenalty. apply finiteFields_breakCombo, finiteFields_add, H.
Qed.

Lemma finiteFields_onCrash s sp : finiteFields s -> finiteFields (onCrash s sp).
Proof.
  intros H. unfold onCrash. cbv zeta.
  set (s1 := breakCombo _ true).
  assert (H1 : finiteFields s1) by (apply finiteFields_breakCombo, finiteFields_add, H).
  destruct H1 as (F1 & F2 & F3 & F4 & F5 & F6 & F7).
  unfold finiteFields, COMBO_LOCK_SEC. ss_proj. repeat split; auto.
Qed.

Lemma finiteFields_event s o :
  isEvent o -> finiteFields s -> finiteFields (step s o).
Proof.
  intros Ho H. destruct o; cbn [step]; try contradiction.
  - apply finiteFields_add, H.
  - apply finiteFields_onGateCleared, H.
  - apply finiteFields_onPenalty, H.
  - apply finiteFields_onCrash, H.
  - apply finiteFields_breakCombo, H.
  - revert H. apply finiteFields_ext; reflexivity.
Qed.

Lemma onCrash_nonfinite s sp :
  isFinite sp = false -> onCrash s sp = onCrash s (Fin 0).
Proof. intros H. unfold onCrash. rewrite H. reflexivity. Qed.


Lemma crash_penalty_ten :
  JS.max CRASH_BASE (floor (CRASH_BASE + Fin 10 * CRASH_PER_SPEED)%num)
  = Fin 340.
Proof.
  unfold CRASH_BASE, CRASH_PER_SPEED. cbn [JS.mul JS.add].
  assert (F : floor (Fin (120 + 10 * 22)) = Fin 340) by floor_const 340%Z.
  rewrite F. unfold_num. rdec; [reflexivity|exfalso; lra].
Qed.

(** A crash at speed 10 costs [max(120, floor(120 + 220)) = 340] points,
    not scaled by the combo and with the score kept at zero or above; it
    resets the combo to 1.0 and the streak to 0, and sets the combo lock
    to 0.55 seconds. *)
Theorem crash_at_speed_ten (s : ScoreSystem.t) (sc : R) :
  score s = Fin sc ->
  score (onCrash s (Fin 10)) = Fin (Rmax 0 (sc - 340)) /\
  lastAdd (onCrash s (Fin 10)) = Fin (-340) /\
  combo (onCrash s (Fin 10)) = Fin 1 /\
  streak (onCrash s (Fin 10)) = 0%Z /\
  comboLock (onCrash s (Fin 10)) = Fin 0.55.
Proof.
  intros Hs. unfold onCrash. cbn [isFinite]. cbv zeta.
  rewrite crash_penalty_ten. cbn [JS.neg].
  destruct (add_fields s (Fin (- (340))) CRASH false eq_refl)
    as (A1 & A2 & _).
  assert (Ha : applied s (Fin (- (340))) false = Fin (-340)).
  { unfold applied. cbv zeta.
    replace (- (340)) with (IZR (-340)) by lra. apply trunc_IZR. }
  rewrite Ha, Hs in A1. rewrite Ha in A2.
  unfold breakCombo. ss_proj.
  rewrite A1, A2. split; [|split; [|split; [|split]]]; try reflexivity.
  - unfold_num. unfold Rmax.
    rdec; destruct (Rle_dec 0 (sc - 340));
      try (exfalso; lra); apply Fin_eq; lra.
  - apply Fin_eq. lra.
Qed.

(** A crash at speed 10 with 500 points on the board. *)
Lemma crash_at_speed_ten_witness :
  score (set_score init (Fin 500)) = Fin 500 /\
  score (onCrash (set_score init (Fin 500)) (Fin 10))
  = Fin (Rmax 0 (500 - 340)).
Proof.
  split; [reflexivity|].
  exact (proj1 (crash_at_speed_ten (set_score init (Fin 500)) 500 eq_refl)).
Defined.

(** C5, witness: a clear, two seconds without scoring, a crash. *)
Lemma combo_bounds_witness :
  Forall dtNonneg
    [OpGateCleared (Fin 100) (Fin 80) (Fin 50); OpUpdate (Fin 2);
     OpCrash (Fin 10)] /\
  comboInRange
    (run init
       [OpGateCleared (Fin 100) (Fin 80) (Fin 50); OpUpdate (Fin 2);
        OpCrash (Fin 10)]).
Proof.
  assert (H : Forall dtNonneg
                [OpGateCleared (Fin 100) (Fin 80) (Fin 50); OpUpdate (Fin 2);
                 OpCrash (Fin 10)]).
  { repeat constructor. cbn [dtNonneg JS.le]. unfold Rleb.
    destruct (Rle_dec 0 2); [reflexivity|lra]. }
  split; [exact H | exact (combo_bounds _ H)].
Defined.

(** C8, witness: a crash at speed 10 on a new score, half a second, then a
    clear worth 100 + 80 + 50. *)
Lemma combo_lock_effective_witness :
  sound init /\
  Forall timed [OpUpdate (Fin 0.5)] /\
  (Z.of_nat (length [OpUpdate (Fin 0.5)]) <= 1000000)%Z /\
  elapsed [OpUpdate (Fin 0.5)] <= 0.55 - 1 / 1000000000 /\
  combo (onGateCleared (run (onCrash init (Fin 10)) [OpUpdate (Fin 0.5)])
           (ofZ 100) (ofZ 80) (ofZ 50))
  = Fin 1.0.
Proof.
  assert (H1 : Forall timed [OpUpdate (Fin 0.5)])
    by (repeat constructor; cbn [timed]; lra).
  assert (H2 : (Z.of_nat (length [OpUpdate (Fin 0.5)]) <= 1000000)%Z)
    by (cbn [length]; lia).
  assert (H3 : elapsed [OpUpdate (Fin 0.5)] <= 0.55 - 1 / 1000000000)
    by (cbn [elapsed]; lra).
  split; [exact sound_init|]. split; [exact H1|]. split; [exact H2|].
  split; [exact H3|].
  exact (proj1 (proj2 (combo_lock_effective init (Fin 10)
                         [OpUpdate (Fin 0.5)] 100 80 50 sound_init H1 H2 H3
                         ltac:(lia) ltac:(lia) ltac:(lia)))).
Defined.

(** C10, witness: a penalty of 140 on a score of 0. *)
Lemma add_records_unclamped_delta_witness :
  applied init (Fin (-140)) false = Fin (-140) /\
  -140 <> 0 /\
  lastAdd (add init (Fin (-140)) PENALTY false) = Fin (-140) /\
  timeSinceScore (add init (Fin (-140)) PENALTY false) = Fin 0 /\
  score (add init (Fin (-140)) PENALTY false) = Fin 0.
Proof.
  assert (H1 : applied init (Fin (-140)) false = Fin (-140))
    by (exact (trunc_IZR (-140))).
  assert (H2 : -140 <> 0) by lra.
  pose proof (add_records_unclamped_delta init (-140) PENALTY false (-140)
                H1 H2) as (A & _ & B & C).
  split; [exact H1|]. split; [exact H2|]. split; [exact A|].
  split; [exact B|]. apply (C 0); [reflexivity|lra].
Defined.

End ScoreProofs.

(* ================================================================== *)
(** * GateCourse: proofs *)
(* ================================================================== *)

Module CourseProofs.

Import GateCourse CourseSpec.

Lemma centerScore_center : centerScore (Fin 0) (Fin 0) = Fin 80.
Proof.
  unfold centerScore, gateW, gateH, centerBonusMax. cbv zeta.
  cbn [abs JS.mul]. rewrite Rabs_R0.
  unfold JS.div. rdec; try lra.
  cbn [JS.mul JS.add].
  replace (0 / (10.5 * 0.5) * (0 / (10.5 * 0.5)) + 0 / (6.0 * 0.5) * (0 / (6.0 * 0.5)))
    with 0 by (field; lra).
  unfold JS.sqrt. rdec; try lra. rewrite sqrt_0.
  unfold_num. rdec; try lra.
  floor_const 80%Z.
Qed.

Lemma speedScore_full : speedScore (Fin 18) = Fin 50.
Proof.
  unfold speedScore, speedForMax, speedBonusMax. cbv zeta.
  unfold JS.div. rdec; try lra.
  unfold_num. rdec; try lra.
  floor_const 50%Z.
Qed.


Lemma passStep_at_center (p : Vector3.t) (i : nat) (e : Env) (g : Gate)
    (lz : R) :
  passed g = false ->
  localOf g p = Vector3.mk (Fin 0) (Fin 0) (Fin lz) ->
  Rabs lz <= 1.6 ->
  passStep p (Fin 18) i e g =
    (GateCourse.set_score e
       (ScoreSystem.onGateCleared (GateCourse.score e)
          (Fin 100) (Fin 80) (Fin 50)),
     flashGate (set_wasAhead (set_passed g true) false),
     [EvGateCleared i (Fin 100) (Fin 80) (Fin 50)]).
Proof.
  intros Hp Hl Hz.
  unfold passStep. rewrite Hp, Hl. cbv zeta. cbn [Vector3.x Vector3.y Vector3.z].
  assert (A1 : (abs (Fin lz) >? triggerDepth * Fin 0.5)%num = false).
  { unfold triggerDepth. cbn [abs]. unfold_num. rdec; [lra|reflexivity]. }
  assert (A2 : (abs (Fin 0) >? gateW * Fin 0.5)%num = false).
  { unfold gateW. cbn [abs]. rewrite Rabs_R0. unfold_num.
    rdec; [lra|reflexivity]. }
  assert (A3 : (abs (Fin 0) >? gateH * Fin 0.5)%num = false).
  { unfold gateH. cbn [abs]. rewrite Rabs_R0. unfold_num.
    rdec; [lra|reflexivity]. }
  rewrite A1, A2, A3, centerScore_center, speedScore_full. reflexivity.
Qed.


Lemma fin3_eq a b c a' b' c' :
  a = a' -> b = b' -> c = c' -> fin3 a b c = fin3 a' b' c'.
Proof. intros -> -> ->. reflexivity. Qed.

Lemma length_fin3 a b c :
  Vector3.length (fin3 a b c) = Fin (R_sqrt.sqrt (a * a + b * b + c * c)).
Proof.
  unfold Vector3.length, Vector3.lengthSq, fin3.
  cbn [Vector3.x Vector3.y Vector3.z JS.mul JS.add].
  unfold JS.sqrt. rdec; [nra|reflexivity].
Qed.

Lemma normalize_fin3 a b c :
  a * a + b * b + c * c <> 0 ->
  Vector3.normalize (fin3 a b c)
  = fin3 (a * (1 / R_sqrt.sqrt (a * a + b * b + c * c)))
         (b * (1 / R_sqrt.sqrt (a * a + b * b + c * c)))
         (c * (1 / R_sqrt.sqrt (a * a + b * b + c * c))).
Proof.
  intros Hq. unfold Vector3.normalize. rewrite length_fin3.
  assert (Hs : R_sqrt.sqrt (a * a + b * b + c * c) <> 0) by (apply sqrt_nonzero; [nra|exact Hq]).
  unfold or_else, truthy, Reqb. destruct (Req_dec_T _ 0) as [E|_]; [contradiction|].
  cbn [negb]. unfold Vector3.divideScalar, Vector3.multiplyScalar, JS.div.
  destruct (Req_dec_T _ 0) as [E|_]; [contradiction|]. reflexivity.
Qed.

Lemma lookAt_orthonormal e1 e2 e3 t1 t2 t3 :
  (e1 - t1) * (e1 - t1) + (e3 - t3) * (e3 - t3) <> 0 ->
  orthonormal (Rotation.lookAt (fin3 e1 e2 e3) (fin3 t1 t2 t3) up).
Proof.
  intros Hh. unfold Rotation.lookAt. cbv zeta.
  change (Vector3.sub (fin3 e1 e2 e3) (fin3 t1 t2 t3))
    with (fin3 (e1 + - t1) (e2 + - t2) (e3 + - t3)).
  set (a := e1 + - t1) in *. set (b := e2 + - t2). set (c := e3 + - t3) in *.
  assert (Hh' : a * a + c * c <> 0) by (subst a c; intros E; apply Hh; nra).
  assert (Hq : a * a + b * b + c * c <> 0) by nra.
  assert (S0 : (Vector3.lengthSq (fin3 a b c) === Fin 0)%num = false).
  { unfold Vector3.lengthSq, fin3. cbn [Vector3.x Vector3.y Vector3.z JS.mul JS.add JS.seq].
    unfold Reqb. destruct (Req_dec_T _ 0); [contradiction|reflexivity]. }
  rewrite S0, (normalize_fin3 a b c Hq).
  set (u := 1 / R_sqrt.sqrt (a * a + b * b + c * c)).
  assert (Hu : u * u * (a * a + b * b + c * c) = 1).
  { subst u. assert (Hs : R_sqrt.sqrt (a * a + b * b + c * c) <> 0) by (apply sqrt_nonzero; [nra|exact Hq]).
    assert (Hss := sqrt_sqrt (a * a + b * b + c * c) ltac:(nra)).
    field_simplify_eq; [|exact Hs]. nra. }
  change (Vector3.cross up (fin3 (a * u) (b * u) (c * u)))
    with (fin3 (1 * (c * u) + - (0 * (b * u))) (0 * (a * u) + - (0 * (c * u)))
               (0 * (b * u) + - (1 * (a * u)))).
  set (x1 := 1 * (c * u) + - (0 * (b * u))).
  set (x2 := 0 * (a * u) + - (0 * (c * u))).
  set (x3 := 0 * (b * u) + - (1 * (a * u))).
  assert (Hx : x1 * x1 + x2 * x2 + x3 * x3 <> 0).
  { subst x1 x2 x3. intros E.
    assert (u * u * (a * a + c * c) = 0) by nra.
    assert (u <> 0) by (intros U; rewrite U in Hu; lra).
    assert (u * u <> 0) by nra.
    apply Rmult_integral in H. destruct H; contradiction. }
  assert (S1 : (Vector3.lengthSq (fin3 x1 x2 x3) === Fin 0)%num = false).
  { unfold Vector3.lengthSq, fin3. cbn [Vector3.x Vector3.y Vector3.z JS.mul JS.add JS.seq].
    unfold Reqb. destruct (Req_dec_T _ 0); [contradiction|reflexivity]. }
  rewrite S1. cbn [fst snd]. rewrite (normalize_fin3 x1 x2 x3 Hx).
  set (k := 1 / R_sqrt.sqrt (x1 * x1 + x2 * x2 + x3 * x3)).
  assert (Hk : k * k * (x1 * x1 + x2 * x2 + x3 * x3) = 1).
  { subst k. assert (Hs : R_sqrt.sqrt (x1 * x1 + x2 * x2 + x3 * x3) <> 0) by (apply sqrt_nonzero; [nra|exact Hx]).
    assert (Hss := sqrt_sqrt (x1 * x1 + x2 * x2 + x3 * x3) ltac:(nra)).
    field_simplify_eq; [|exact Hs]. nra. }
  unfold orthonormal.
  eexists; eexists; eexists; eexists; eexists; eexists; eexists; eexists; eexists.
  split; [reflexivity|].
  intros v1 v2 v3. subst x1 x2 x3. nsatz.
Qed.

Lemma worldToLocal_norm r q1 q2 q3 p1 p2 p3 :
  orthonormal r ->
  exists l1 l2 l3,
    Rotation.worldToLocal r (fin3 q1 q2 q3) (fin3 p1 p2 p3) = fin3 l1 l2 l3 /\
    l1 * l1 + l2 * l2 + l3 * l3
    = (p1 - q1) * (p1 - q1) + (p2 - q2) * (p2 - q2) + (p3 - q3) * (p3 - q3).
Proof.
  intros (x1 & x2 & x3 & y1 & y2 & y3 & z1 & z2 & z3 & -> & Hf).
  unfold Rotation.worldToLocal. cbv zeta.
  cbn [Rotation.ex Rotation.ey Rotation.ez].
  unfold Vector3.dot, fin3. cbn [Vector3.x Vector3.y Vector3.z JS.mul JS.add JS.neg].
  unfold JS.div. destruct (Req_dec_T _ 0) as [E|_]; [exfalso; lra|].
  cbn [JS.mul]. eexists; eexists; eexists. split; [reflexivity|].
  rewrite <- (Hf (p1 - q1) (p2 - q2) (p3 - q3)).
  assert (W : 1 / (0 * p1 + 0 * p2 + 0 * p3 + 1) = 1) by (field; lra).
  rewrite W. ring.
Qed.

Lemma contains_far g p1 p2 p3 q1 q2 q3 :
  position g = fin3 q1 q2 q3 -> orthonormal (rotation g) ->
  40 < (p1 - q1) * (p1 - q1) + (p2 - q2) * (p2 - q2) + (p3 - q3) * (p3 - q3) ->
  contains g (fin3 p1 p2 p3) = false.
Proof.
  intros Hp Ho Hfar. unfold contains, localOf. cbv zeta. rewrite Hp.
  destruct (worldToLocal_norm (rotation g) q1 q2 q3 p1 p2 p3 Ho)
    as (l1 & l2 & l3 & E & Hn).
  rewrite E. unfold fin3. cbn [Vector3.x Vector3.y Vector3.z abs].
  unfold triggerDepth, gateW, gateH. unfold_num.
  destruct (Rlt_dec (3.2 * 0.5) (Rabs l3)) as [|N3]; [reflexivity|].
  destruct (Rlt_dec (10.5 * 0.5) (Rabs l1)) as [|N1]; [reflexivity|].
  destruct (Rlt_dec (6.0 * 0.5) (Rabs l2)) as [|N2]; [reflexivity|].
  exfalso.
  assert (A1 : l1 * l1 <= 5.25 * 5.25).
  { rewrite <- (Rabs_mult l1 l1)%R || idtac.
    pose proof (Rabs_pos l1). assert (Rabs l1 <= 5.25) by lra.
    replace (l1 * l1) with (Rabs l1 * Rabs l1)
      by (rewrite <- Rabs_mult; apply Rabs_pos_eq; nra). nra. }
  assert (A2 : l2 * l2 <= 3 * 3).
  { pose proof (Rabs_pos l2). assert (Rabs l2 <= 3) by lra.
    replace (l2 * l2) with (Rabs l2 * Rabs l2)
      by (rewrite <- Rabs_mult; apply Rabs_pos_eq; nra). nra. }
  assert (A3 : l3 * l3 <= 1.6 * 1.6).
  { pose proof (Rabs_pos l3). assert (Rabs l3 <= 1.6) by lra.
    replace (l3 * l3) with (Rabs l3 * Rabs l3)
      by (rewrite <- Rabs_mult; apply Rabs_pos_eq; nra). nra. }
  lra.
Qed.

Lemma passStep_not_contained p spd i e g :
  contains g p = false -> passStep p spd i e g = (e, g, []).
Proof.
  unfold contains, passStep. cbv zeta. intros H.
  destruct (passed g); [reflexivity|].
  destruct (_ >? _)%num; [reflexivity|].
  destruct (_ >? _)%num; [reflexivity|].
  destruct (_ >? _)%num; [reflexivity|].
  discriminate H.
Qed.

Lemma unit_scale a c :
  a * a + 0 * 0 + c * c <> 0 ->
  let u := 1 / R_sqrt.sqrt (a * a + 0 * 0 + c * c) in
  a * u * (a * u) + c * u * (c * u) = 1.
Proof.
  intros Hq u.
  assert (Hs : R_sqrt.sqrt (a * a + 0 * 0 + c * c) <> 0)
    by (apply sqrt_nonzero; [nra|exact Hq]).
  assert (Hss := sqrt_sqrt (a * a + 0 * 0 + c * c) ltac:(nra)).
  subst u. field_simplify_eq; [|exact Hs]. nra.
Qed.

Lemma yawYXZ_finite q : finiteQuat q -> exists yw, Quaternion.yawYXZ q = Fin yw.
Proof.
  intros (a & b & c & d & ->). unfold Quaternion.yawYXZ. cbv zeta.
  cbn [Quaternion.x Quaternion.y Quaternion.z Quaternion.w
       JS.mul JS.add JS.sub JS.neg abs].
  destruct (_ <? _)%num; cbn [atan2]; eauto.
Qed.

Lemma yaw_forward_unit yw :
  unitXZ
    (Vector3.normalize
       (Quaternion.applyTo (Quaternion.setFromEuler (Fin 0) (Fin yw) (Fin 0))
          (Vector3.mk (Fin 0) (Fin 0) (Fin (-1))))).
Proof.
  unfold Quaternion.setFromEuler, Quaternion.applyTo. cbv zeta.
  unfold JS.div. destruct (Req_dec_T 2 0) as [E|_]; [exfalso; lra|].
  cbn [JS.sin JS.cos JS.mul JS.add JS.sub JS.neg
       Quaternion.x Quaternion.y Quaternion.z Quaternion.w
       Vector3.x Vector3.y Vector3.z].
  replace (0 / 2) with 0 by lra. rewrite sin_0, cos_0.
  pose proof (sin2_cos2 (yw / 2)) as Hsc. unfold Rsqr in Hsc.
  set (s2 := Rtrigo_def.sin (yw / 2)) in *.
  set (c2 := Rtrigo_def.cos (yw / 2)) in *.
  match goal with
  | |- unitXZ (Vector3.normalize (Vector3.mk (Fin ?a) (Fin ?b) (Fin ?c))) =>
      set (A := a); set (B := b); set (C := c);
      change (Vector3.mk (Fin A) (Fin B) (Fin C)) with (fin3 A B C)
  end.
  assert (HB : B = 0) by (subst B; ring).
  assert (HA : A * A + C * C = 1) by (subst A C; nsatz).
  assert (Hq : A * A + B * B + C * C <> 0) by (rewrite HB; lra).
  rewrite (normalize_fin3 A B C Hq).
  assert (Hs : R_sqrt.sqrt (A * A + B * B + C * C) = 1).
  { replace (A * A + B * B + C * C) with 1 by (rewrite HB; lra). apply sqrt_1. }
  rewrite Hs. exists (A * (1 / 1)), (C * (1 / 1)). split.
  - apply fin3_eq; [reflexivity| rewrite HB; lra | reflexivity].
  - clearbody A C. nra.
Qed.

Lemma getForward_unit (e : Env) (inp : Input) :
  finiteInput inp -> unitXZ (fallbackForward e) ->
  unitXZ (getForward e (quat inp) (velXZ inp)).
Proof.
  intros (_ & Hv & Hq) Hf. unfold getForward. cbv zeta.
  assert (Hrest : unitXZ
            match quat inp with
            | Some q0 =>
                Vector3.normalize
                  (Quaternion.applyTo
                     (Quaternion.setFromEuler (Fin 0) (Quaternion.yawYXZ q0) (Fin 0))
                     (Vector3.mk (Fin 0) (Fin 0) (Fin (-1))))
            | None => fallbackForward e
            end).
  { destruct (quat inp) as [q|]; [|exact Hf].
    destruct (yawYXZ_finite q Hq) as (yw & ->). apply yaw_forward_unit. }
  destruct (velXZ inp) as [[vx vz]|]; [|exact Hrest].
  destruct Hv as [Hx Hz].
  destruct vx as [vx| | |]; try discriminate.
  destruct vz as [vz| | |]; try discriminate.
  cbn [JS.mul JS.add]. unfold JS.gt, JS.lt, Rltb.
  destruct (Rlt_dec 0.6 (vx * vx + vz * vz)) as [Hm|_]; [|exact Hrest].
  change (Vector3.mk (Fin vx) (Fin 0) (Fin vz)) with (fin3 vx 0 vz).
  assert (Hn : vx * vx + 0 * 0 + vz * vz <> 0) by lra.
  rewrite (normalize_fin3 vx 0 vz Hn).
  eexists; eexists. split.
  - apply fin3_eq; [reflexivity| |reflexivity]. lra.
  - apply (unit_scale vx vz Hn).
Qed.


Section WithOracle.

Variable rnd : Oracle.

Lemma nthLane_floor_In (l : list Z) r :
  l <> [] -> 0 <= r < 1 ->
  In (nthLane l (floor (Fin r * lengthOf l)%num)) l.
Proof.
  intros Hl Hr. unfold lengthOf. cbn [JS.mul floor nthLane].
  rewrite Int_part_IZR. apply nth_In.
  assert (Hn : (0 < length l)%nat) by (destruct l; [congruence|simpl; lia]).
  assert (Hp : 0 < INR (length l)) by (apply lt_0_INR; exact Hn).
  assert (Hx : 0 <= r * INR (length l) < IZR (Z.of_nat (length l))).
  { rewrite <- INR_IZR_INZ. nra. }
  apply Int_part_range in Hx. lia.
Qed.


Lemma choices_nonempty (last : Z) :
  filter (fun x => negb (x =? last)%Z) [(-1)%Z; 0%Z; 1%Z] <> [].
Proof.
  cbn [filter]. destruct (Z.eqb_spec (-1) last), (Z.eqb_spec 0 last),
    (Z.eqb_spec 1 last); cbn [negb]; try discriminate; lia.
Qed.

Lemma chooseLane_spec (e : Env) :
  exists lane k,
    chooseLane rnd e =
      (lane, mkEnv lane
               (if (lane =? lastLane e)%Z then sameLaneStreak e + 1 else 0)%Z
               (fallbackForward e) (score e) k) /\
    In lane lanes /\
    ((2 <= sameLaneStreak e)%Z -> lane <> lastLane e).
Proof.
  unfold chooseLane, random. cbv zeta.
  unfold set_cursor; cbn [cursor lastLane sameLaneStreak fallbackForward score].
  pose proof (nthLane_floor_In [(-1)%Z; 0%Z; 1%Z] (sample rnd (cursor e))
                ltac:(discriminate) (sample_range rnd _)) as H1.
  assert (H2 : forall k,
     let c := filter (fun x => negb (x =? lastLane e)%Z) [(-1)%Z; 0%Z; 1%Z] in
     In (nthLane c (floor (Fin (sample rnd k) * lengthOf c)%num)) lanes /\
     nthLane c (floor (Fin (sample rnd k) * lengthOf c)%num) <> lastLane e).
  { intros k c.
    pose proof (nthLane_floor_In c (sample rnd k)
                  (choices_nonempty (lastLane e)) (sample_range rnd _)) as H.
    apply filter_In in H. destruct H as [Ha Hb]. split; [exact Ha|].
    intros E. rewrite E, Z.eqb_refl in Hb. discriminate. }
  destruct (2 <=? sameLaneStreak e)%Z eqn:Hf.
  - destruct (H2 (S (cursor e))) as [Ha Hb].
    eexists; eexists. split; [|split; [exact Ha|intros _; exact Hb]].
    unfold set_lastLane, set_sameLaneStreak;
      cbn [cursor lastLane sameLaneStreak fallbackForward score].
    match goal with |- context [(?a =? ?b)%Z] => destruct (a =? b)%Z end; reflexivity.
  - destruct (Fin (sample rnd (S (cursor e))) <? Fin 0.35)%num.
    + destruct (H2 (S (S (cursor e)))) as [Ha Hb].
      eexists; eexists. split; [|split; [exact Ha|intros _; exact Hb]].
      unfold set_lastLane, set_sameLaneStreak;
        cbn [cursor lastLane sameLaneStreak fallbackForward score].
      match goal with |- context [(?a =? ?b)%Z] => destruct (a =? b)%Z end; reflexivity.
    + eexists; eexists. split; [|split; [exact H1|intros Hs; apply Z.leb_gt in Hf; lia]].
      unfold set_lastLane, set_sameLaneStreak;
        cbn [cursor lastLane sameLaneStreak fallbackForward score].
      match goal with |- context [(?a =? ?b)%Z] => destruct (a =? b)%Z end; reflexivity.
Qed.



Lemma respawnGate_spec i e g p fwd :
  exists lane e' g',
    respawnGate rnd i e g p fwd = (e', g', [EvRespawn i lane]) /\
    In lane lanes /\
    ((2 <= sameLaneStreak e)%Z -> lane <> lastLane e) /\
    lastLane e' = lane /\
    sameLaneStreak e' = nextStreak e lane /\
    score e' = score e /\
    fallbackForward e' = fallbackForward e /\
    passed g' = false /\ wasAhead g' = false /\ GateCourse.lane g' = lane /\
    flash g' = flash g.
Proof.
  unfold respawnGate. unfold random at 1. cbv zeta.
  destruct (chooseLane_spec (set_cursor e (S (cursor e))))
    as (lane & k & E & Hin & Hne).
  rewrite E. unfold random. cbv zeta. env_proj.
  eexists; eexists; eexists. split; [reflexivity|].
  gate_proj. env_proj. repeat split; auto.
Qed.

Lemma onGateMissed_spec i e g :
  exists g',
    onGateMissed i e g =
      (GateCourse.set_score e
         (ScoreSystem.breakCombo
            (ScoreSystem.onPenalty (score e) missPenalty) true),
       g', [EvPenalty i missPenalty; EvBreakCombo i true]) /\
    passed g' = true /\ wasAhead g' = false.
Proof.
  unfold onGateMissed, missComboBreak. cbv zeta.
  eexists. split; [reflexivity|]. gate_proj. auto.
Qed.

Lemma recycleStep_keep p fwd i e g :
  shouldRecycle p fwd g = false ->
  recycleStep rnd p fwd i e g =
    (e, (if (ahead p fwd g >? Fin 0)%num then set_wasAhead g true else g), []).
Proof. intros H. unfold recycleStep. cbv zeta. rewrite H. reflexivity. Qed.

Lemma recycleStep_recycle p fwd i e g :
  shouldRecycle p fwd g = true ->
  exists lane e' g',
    recycleStep rnd p fwd i e g =
      (e', g',
       (if missed p fwd g
        then [EvPenalty i missPenalty; EvBreakCombo i true] else [])
       ++ [EvRespawn i lane]) /\
    In lane lanes /\
    ((2 <= sameLaneStreak e)%Z -> lane <> lastLane e) /\
    lastLane e' = lane /\
    sameLaneStreak e' = nextStreak e lane /\
    score e' =
      (if missed p fwd g
       then ScoreSystem.breakCombo
              (ScoreSystem.onPenalty (score e) missPenalty) true
       else score e) /\
    fallbackForward e' = fallbackForward e /\
    passed g' = false /\ wasAhead g' = false /\ GateCourse.lane g' = lane.
Proof.
  intros H. unfold recycleStep. cbv zeta. rewrite H.
  set (g1 := if (ahead p fwd g >? Fin 0)%num then set_wasAhead g true else g).
  assert (Hm : negb (passed g1) && wasAhead g1 = missed p fwd g).
  { unfold missed. subst g1. destruct (ahead p fwd g >? Fin 0)%num; gate_proj;
      rewrite ?orb_true_r, ?orb_false_r; reflexivity. }
  rewrite Hm. destruct (missed p fwd g).
  - destruct (onGateMissed_spec i e g1) as (g2 & E2 & _). rewrite E2.
    destruct (respawnGate_spec i
                (GateCourse.set_score e
                   (ScoreSystem.breakCombo
                      (ScoreSystem.onPenalty (score e) missPenalty) true))
                g2 p fwd)
      as (lane & e' & g' & E & Hin & Hne & Hl & Hs & Hsc & Hf & Hp & Hw & Hg & _).
    rewrite E. exists lane, e', g'. repeat split; auto.
  - destruct (respawnGate_spec i e g1 p fwd)
      as (lane & e' & g' & E & Hin & Hne & Hl & Hs & Hsc & Hf & Hp & Hw & Hg & _).
    rewrite E. exists lane, e', g'. repeat split; auto.
Qed.

Lemma passStep_skip p spd i e g :
  passed g = true -> passStep p spd i e g = (e, g, []).
Proof. intros H. unfold passStep. rewrite H. reflexivity. Qed.

Lemma passStep_spec p spd i e g :
  passStep p spd i e g = (e, g, []) \/
  (passed g = false /\
   passStep p spd i e g =
     (GateCourse.set_score e
        (ScoreSystem.onGateCleared (score e) basePoints
           (centerScore (Vector3.x (localOf g p)) (Vector3.y (localOf g p)))
           (speedScore spd)),
      flashGate (set_wasAhead (set_passed g true) false),
      [EvGateCleared i basePoints
         (centerScore (Vector3.x (localOf g p)) (Vector3.y (localOf g p)))
         (speedScore spd)])).
Proof.
  unfold passStep. destruct (passed g); [left; reflexivity|]. cbv zeta.
  destruct (_ >? _)%num; [left; reflexivity|].
  destruct (_ >? _)%num; [left; reflexivity|].
  destruct (_ >? _)%num; [left; reflexivity|].
  right. split; reflexivity.
Qed.

Lemma forGates_length body : forall gs k e,
  length (snd (fst (forGates body k e gs))) = length gs.
Proof.
  induction gs as [|g gs IH]; intros k e; simpl; [reflexivity|].
  destruct (body k e g) as [[e1 g1] ev1].
  specialize (IH (S k) e1).
  destruct (forGates body (S k) e1 gs) as [[e2 gs2] ev2]. simpl in *. lia.
Qed.

(** What [forGates] did to the gate at offset [j]. *)
Lemma forGates_nth body
  (Hbody : forall i e g, Forall (fun ev => gateOf ev = i) (snd (body i e g))) :
  forall gs k e j g,
    nth_error gs j = Some g ->
    exists e1 evA evB,
      nth_error (snd (fst (forGates body k e gs))) j
        = Some (snd (fst (body (k + j)%nat e1 g))) /\
      snd (forGates body k e gs) = evA ++ snd (body (k + j)%nat e1 g) ++ evB /\
      Forall (fun ev => gateOf ev <> (k + j)%nat) evA /\
      Forall (fun ev => gateOf ev <> (k + j)%nat) evB.
Proof.
  assert (Hall : forall gs k e,
            Forall (fun ev => (k <= gateOf ev)%nat) (snd (forGates body k e gs))).
  { induction gs as [|g gs IH]; intros k e; simpl; [constructor|].
    pose proof (Hbody k e g) as Hb.
    destruct (body k e g) as [[e1 g1] ev1].
    specialize (IH (S k) e1).
    destruct (forGates body (S k) e1 gs) as [[e2 gs2] ev2]. simpl in *.
    apply Forall_app. split.
    - eapply Forall_impl; [|exact Hb]. simpl. intros; lia.
    - eapply Forall_impl; [|exact IH]. simpl. intros; lia. }
  induction gs as [|g0 gs IH]; intros k e j g Hj.
  - destruct j; discriminate.
  - destruct j as [|j]; simpl in Hj.
    + inversion Hj; subst g0. exists e, [].
      simpl. rewrite Nat.add_0_r.
      pose proof (Hall gs (S k)) as Hr.
      destruct (body k e g) as [[e1 g1] ev1].
      specialize (Hr e1).
      destruct (forGates body (S k) e1 gs) as [[e2 gs2] ev2]. simpl in *.
      exists ev2. repeat split; auto.
      eapply Forall_impl; [|exact Hr]. simpl. intros; lia.
    + simpl. pose proof (Hbody k e g0) as Hb.
      destruct (body k e g0) as [[e1 g1] ev1].
      destruct (IH (S k) e1 j g Hj) as (e' & evA & evB & H1 & H2 & H3 & H4).
      destruct (forGates body (S k) e1 gs) as [[e2 gs2] ev2]. simpl in *.
      replace (k + S j)%nat with (S (k + j)) by lia.
      exists e', (ev1 ++ evA), evB. repeat split; auto.
      * rewrite H2, app_assoc. reflexivity.
      * apply Forall_app. split; [|exact H3].
        eapply Forall_impl; [|exact Hb]. simpl. intros; lia.
Qed.

(** An invariant of the fields, indexed by a summary of the events so far,
    that every step keeps is kept by the loop. *)
Lemma forGates_fold (A : Type) (f : list Event -> A -> A)
    (Hnil : forall a, f [] a = a)
    (Happ : forall x y a, f (x ++ y) a = f y (f x a))
    (J : A -> Env -> Prop) body
    (Hbody : forall i e g a, J a e ->
               J (f (snd (body i e g)) a) (fst (fst (body i e g)))) :
  forall gs k e a, J a e ->
    J (f (snd (forGates body k e gs)) a) (fst (fst (forGates body k e gs))).
Proof.
  induction gs as [|g gs IH]; intros k e a Ha; simpl.
  - rewrite Hnil. exact Ha.
  - specialize (Hbody k e g a Ha).
    destruct (body k e g) as [[e1 g1] ev1]. simpl in Hbody.
    specialize (IH (S k) e1 _ Hbody).
    destruct (forGates body (S k) e1 gs) as [[e2 gs2] ev2]. simpl in *.
    rewrite Happ. exact IH.
Qed.

Lemma leadRun_nonneg x l : (0 <= leadRun x l)%Z.
Proof.
  induction l as [|y l IH]; cbn [leadRun]; [lia|]. destruct (y =? x)%Z; lia.
Qed.

Lemma leadRun_three x l :
  (3 <= leadRun x l)%Z -> exists post, l = x :: x :: x :: post.
Proof.
  intros H.
  destruct l as [|a l]; cbn [leadRun] in H; [lia|].
  destruct (Z.eqb_spec a x); [subst a|lia].
  destruct l as [|b l]; cbn [leadRun] in H; [lia|].
  destruct (Z.eqb_spec b x); [subst b|lia].
  destruct l as [|c l]; cbn [leadRun] in H; [lia|].
  destruct (Z.eqb_spec c x); [subst c|lia].
  eauto.
Qed.

Lemma noRun4_cons y h :
  noRun4 h -> (leadRun y h <= 2)%Z -> noRun4 (y :: h).
Proof.
  intros Hn Hl pre a post E.
  destruct pre as [|p pre]; simpl in E.
  - inversion E; subst. cbn [leadRun] in Hl. rewrite !Z.eqb_refl in Hl.
    pose proof (leadRun_nonneg a post). lia.
  - inversion E; subst. eapply Hn; reflexivity.
Qed.

Lemma respawnLanes_app a b :
  respawnLanes (a ++ b) = respawnLanes a ++ respawnLanes b.
Proof.
  induction a as [|ev a IH]; simpl; [reflexivity|].
  destruct ev; simpl; rewrite IH; reflexivity.
Qed.

Lemma pushLanes_nil h : pushLanes [] h = h.
Proof. reflexivity. Qed.

Lemma pushLanes_app x y h : pushLanes (x ++ y) h = pushLanes y (pushLanes x h).
Proof.
  unfold pushLanes. rewrite respawnLanes_app, rev_app_distr, app_assoc. reflexivity.
Qed.

Lemma laneHist_ext h e e' :
  lastLane e' = lastLane e -> sameLaneStreak e' = sameLaneStreak e ->
  laneHist h e -> laneHist h e'.
Proof.
  intros E1 E2 (x & rest & H). exists x, rest. rewrite E1, E2. exact H.
Qed.

Lemma laneHist_push h e e' ln :
  laneHist h e -> In ln lanes ->
  ((2 <= sameLaneStreak e)%Z -> ln <> lastLane e) ->
  lastLane e' = ln -> sameLaneStreak e' = nextStreak e ln ->
  laneHist (ln :: h) e'.
Proof.
  intros (x & rest & Hh & Hl & Hs & Hb & Hn & Hf) Hin Hne El Es.
  exists ln, h. subst h.
  assert (Hlead : leadRun ln (x :: rest) = nextStreak e ln).
  { unfold nextStreak. rewrite Hl, Hs. cbn [leadRun]. rewrite (Z.eqb_sym x ln).
    destruct (ln =? x)%Z eqn:Hx; [|reflexivity].
    apply Z.eqb_eq in Hx. rewrite Hx. lia. }
  assert (Hle : (leadRun ln (x :: rest) <= 2)%Z).
  { rewrite Hlead. unfold nextStreak. rewrite Hl.
    destruct (Z.eqb_spec ln x); [|lia].
    assert (~ (2 <= sameLaneStreak e)%Z) by (intros H2; apply Hne in H2; congruence).
    lia. }
  repeat split; auto.
  - rewrite Es. symmetry. exact Hlead.
  - apply noRun4_cons; assumption.
Qed.

Lemma laneHist_recycleStep p fwd i e g h :
  laneHist h e ->
  laneHist (pushLanes (snd (recycleStep rnd p fwd i e g)) h)
           (fst (fst (recycleStep rnd p fwd i e g))).
Proof.
  intros H. destruct (shouldRecycle p fwd g) eqn:Hr.
  - destruct (recycleStep_recycle p fwd i e g Hr)
      as (ln & e' & g' & E & Hin & Hne & Hl & Hs & _).
    rewrite E. cbn [fst snd]. rewrite pushLanes_app.
    replace (pushLanes (if missed p fwd g then _ else []) h) with h
      by (destruct (missed p fwd g); reflexivity).
    apply (laneHist_push h e e' ln); assumption.
  - rewrite recycleStep_keep by assumption. exact H.
Qed.

Lemma laneHist_passStep p spd i e g h :
  laneHist h e ->
  laneHist (pushLanes (snd (passStep p spd i e g)) h)
           (fst (fst (passStep p spd i e g))).
Proof.
  intros H. destruct (passStep_spec p spd i e g) as [E|[_ E]]; rewrite E; cbn [fst snd].
  - exact H.
  - revert H. apply laneHist_ext; reflexivity.
Qed.

Lemma update_unfold c inp :
  let fwd := getForward (env c) (quat inp) (velXZ inp) in
  let r1 := forGates (recycleStep rnd (pos inp) fwd) 0
              (set_fallbackForward (env c) fwd) (gates c) in
  let r2 := forGates (passStep (pos inp) (speed inp)) 0
              (fst (fst r1)) (snd (fst r1)) in
  update rnd c inp = (mk (snd (fst r2)) (fst (fst r2)), snd r1 ++ snd r2).
Proof.
  intros fwd r1 r2. unfold update. fold fwd.
  subst r2. subst r1.
  destruct (forGates (recycleStep rnd (pos inp) fwd) 0 _ (gates c)) as [[e1 gs1] ev1].
  cbn [fst snd].
  destruct (forGates (passStep (pos inp) (speed inp)) 0 e1 gs1) as [[e2 gs2] ev2].
  reflexivity.
Qed.

Lemma laneHist_act c a h :
  laneHist h (env c) ->
  laneHist (pushLanes (snd (act rnd c a)) h) (env (fst (act rnd c a))).
Proof.
  intros H. destruct a as [inp|o]; cbn [act].
  - rewrite update_unfold. cbv zeta. cbn [fst snd env]. rewrite pushLanes_app.
    apply (forGates_fold _ pushLanes pushLanes_nil pushLanes_app laneHist).
    + intros; apply laneHist_passStep; assumption.
    + apply (forGates_fold _ pushLanes pushLanes_nil pushLanes_app laneHist).
      * intros; apply laneHist_recycleStep; assumption.
      * revert H. apply laneHist_ext; reflexivity.
  - cbn [fst snd env]. revert H. apply laneHist_ext; reflexivity.
Qed.

Lemma laneHist_runActions l : forall c h,
  laneHist h (env c) ->
  laneHist (pushLanes (snd (runActions rnd c l)) h)
           (env (fst (runActions rnd c l))).
Proof.
  induction l as [|a l IH]; intros c h H; simpl; [exact H|].
  pose proof (laneHist_act c a h H) as Ha.
  destruct (act rnd c a) as [c1 ev1]. cbn [fst snd] in Ha.
  specialize (IH c1 _ Ha).
  destruct (runActions rnd c1 l) as [c2 ev2]. cbn [fst snd] in *.
  rewrite pushLanes_app. exact IH.
Qed.

Lemma laneHist_create s : laneHist [0%Z] (env (create s)).
Proof.
  exists 0%Z, []. simpl. repeat split; try lia.
  - intros pre a post E.
    destruct pre as [|? [|? ?]]; discriminate.
  - constructor; [|constructor]. unfold lanes. simpl. auto.
Qed.

Lemma noRun4_rev_tail l h : noRun4 (rev l ++ h) -> noRun4 l.
Proof.
  intros H pre a post E. subst l.
  apply (H (rev post) a (rev pre ++ h)).
  rewrite rev_app_distr. simpl. rewrite <- !app_assoc. simpl. reflexivity.
Qed.

(** C7.  In every history of a course from its creation, on every tape
    of random numbers, the lanes that [chooseLane] returns are in
    [{-1, 0, 1}] and no lane stands four times in a row.  And in any state,
    [chooseLane] returns a lane in [{-1, 0, 1}], which differs from
    [lastLane] whenever [sameLaneStreak >= 2]. *)
Theorem lane_run_length_bound (s : ScoreSystem.t) (l : list Action) :
  let chosen := respawnLanes (snd (runActions rnd (create s) l)) in
  Forall (fun ln => In ln [(-1)%Z; 0%Z; 1%Z]) chosen /\
  noRun4 chosen /\
  forall e, In (fst (chooseLane rnd e)) [(-1)%Z; 0%Z; 1%Z] /\
            ((2 <= sameLaneStreak e)%Z -> fst (chooseLane rnd e) <> lastLane e).
Proof.
  intros chosen.
  pose proof (laneHist_runActions l (create s) [0%Z] (laneHist_create s)) as H.
  destruct H as (x & rest & Hh & _ & _ & _ & Hn & Hf).
  unfold pushLanes in *. fold chosen in Hh, Hn, Hf.
  split; [|split].
  - apply Forall_app in Hf. destruct Hf as [Hf _].
    apply Forall_forall. intros y Hy. rewrite Forall_forall in Hf.
    apply Hf. apply in_rev in Hy. exact Hy.
  - eapply noRun4_rev_tail. exact Hn.
  - intros e. destruct (chooseLane_spec e) as (ln & k & E & Hin & Hne).
    rewrite E. cbn [fst]. split; assumption.
Qed.

(** The place and the orientation that [respawnGate] gives the gate, from
    the three draws that it makes besides those of [chooseLane]. *)
Lemma respawnGate_transform i e g p fwd e' g' evs :
  respawnGate rnd i e g p fwd = (e', g', evs) ->
  exists r1 r2 r3 : R,
    0 <= r1 < 1 /\ 0 <= r2 < 1 /\ 0 <= r3 < 1 /\
    let d := (spawnMin + Fin r1 * (spawnMax - spawnMin))%num in
    let lateral :=
      (Fin (IZR (GateCourse.lane g')) * lateralLane
       + (Fin r2 * Fin 2 - Fin 1) * (lateralLane * Fin 0.18))%num in
    let y := (verticalCenter + (Fin r3 * Fin 2 - Fin 1) * verticalJitter)%num in
    let spawn :=
      Vector3.addScaledVector (Vector3.addScaledVector p fwd d)
        (Vector3.normalize
           (Vector3.mk (Vector3.z fwd) (Fin 0) (- Vector3.x fwd)%num))
        lateral in
    position g' = Vector3.mk (Vector3.x spawn) y (Vector3.z spawn) /\
    rotation g'
    = Rotation.objectLookAt (position g')
        (Vector3.addScaledVector spawn fwd (Fin 10)) up.
Proof.
  intros H. unfold respawnGate in H. unfold random at 1 in H. cbv zeta in H.
  destruct (chooseLane_spec (set_cursor e (S (cursor e))))
    as (ln & k & E & _ & _).
  rewrite E in H. unfold random in H. cbv zeta in H.
  cbn [cursor] in H. inversion H as [[He Hg Hev]]. clear H He Hev.
  exists (sample rnd (cursor e)), (sample rnd k), (sample rnd (S k)).
  split; [apply sample_range|]. split; [apply sample_range|].
  split; [apply sample_range|].
  cbv zeta. gate_proj. split; reflexivity.
Qed.

(** C3.  A gate with [wasAhead] set and [passed] unset that the first
    loop finds behind by more than 18 or farther than 320: the course
    calls [onPenalty(140)] once, then [breakCombo(true)] once, then
    respawns the gate, and does nothing else.  The respawn is
    [respawnGate] on the gate at its old place.  It gives the gate the
    lane that [chooseLane] returns, in [{-1, 0, 1}], and a new transform:
    the position [pos + fwd * d + right * lateral] at the height [y], where
    [d = 70 + r1 * 150], [lateral = lane * 11 + (r2 * 2 - 1) * (11 * 0.18)]
    and [y = 2.6 + (r3 * 2 - 1) * 1.0] for three draws [r1], [r2], [r3] of
    [Math.random()], and the rotation of [lookAt] toward the point 10
    further along [fwd].  It clears [passed] and [wasAhead]. *)
Theorem miss_penalty_once p fwd i e g :
  wasAhead g = true -> passed g = false -> shouldRecycle p fwd g = true ->
  exists ln e' g' em gm,
    recycleStep rnd p fwd i e g =
      (e', g', [EvPenalty i (Fin 140); EvBreakCombo i true; EvRespawn i ln]) /\
    score em = ScoreSystem.breakCombo
                 (ScoreSystem.onPenalty (score e) (Fin 140)) true /\
    respawnGate rnd i em gm p fwd = (e', g', [EvRespawn i ln]) /\
    position gm = position g /\ rotation gm = rotation g /\
    In ln [(-1)%Z; 0%Z; 1%Z] /\
    GateCourse.lane g' = ln /\ passed g' = false /\ wasAhead g' = false /\
    score e' = ScoreSystem.breakCombo
                 (ScoreSystem.onPenalty (score e) (Fin 140)) true /\
    exists r1 r2 r3 : R,
      0 <= r1 < 1 /\ 0 <= r2 < 1 /\ 0 <= r3 < 1 /\
      let d := (Fin 70 + Fin r1 * (Fin 220 - Fin 70))%num in
      let lateral :=
        (Fin (IZR ln) * Fin 11
         + (Fin r2 * Fin 2 - Fin 1) * (Fin 11 * Fin 0.18))%num in
      let y := (Fin 2.6 + (Fin r3 * Fin 2 - Fin 1) * Fin 1.0)%num in
      let right :=
        Vector3.normalize
          (Vector3.mk (Vector3.z fwd) (Fin 0) (- Vector3.x fwd)%num) in
      let spawn :=
        Vector3.addScaledVector (Vector3.addScaledVector p fwd d)
          right lateral in
      position g' = Vector3.mk (Vector3.x spawn) y (Vector3.z spawn) /\
      rotation g'
      = Rotation.objectLookAt (position g')
          (Vector3.addScaledVector spawn fwd (Fin 10))
          (Vector3.mk (Fin 0) (Fin 1) (Fin 0)).
Proof.
  intros Hw Hp Hr. unfold recycleStep. cbv zeta. rewrite Hr.
  set (g1 := if (ahead p fwd g >? Fin 0)%num then set_wasAhead g true else g).
  assert (Hm : negb (passed g1) && wasAhead g1 = true).
  { subst g1. destruct (ahead p fwd g >? Fin 0)%num; gate_proj;
      rewrite Hp, ?Hw; reflexivity. }
  rewrite Hm.
  destruct (onGateMissed_spec i e g1) as (g2 & E2 & _).
  assert (Hg2 : position g2 = position g /\ rotation g2 = rotation g).
  { unfold onGateMissed, missComboBreak in E2. cbv zeta in E2.
    inversion E2. subst g1.
    destruct (ahead p fwd g >? Fin 0)%num; gate_proj; auto. }
  rewrite E2.
  destruct (respawnGate_spec i
              (GateCourse.set_score e
                 (ScoreSystem.breakCombo
                    (ScoreSystem.onPenalty (score e) missPenalty) true))
              g2 p fwd)
    as (ln & e' & g' & E & Hin & Hne & Hl & Hs & Hsc & Hf & Hpp & Hww & Hg & _).
  destruct (respawnGate_transform _ _ _ _ _ _ _ _ E)
    as (r1 & r2 & r3 & R1 & R2 & R3 & T).
  cbv zeta in T. rewrite Hg in T.
  rewrite E. exists ln, e', g'.
  exists (GateCourse.set_score e
            (ScoreSystem.breakCombo
               (ScoreSystem.onPenalty (score e) missPenalty) true)), g2.
  split; [reflexivity|]. split; [reflexivity|]. split; [exact E|].
  destruct Hg2.
  split; [assumption|]. split; [assumption|]. split; [exact Hin|].
  split; [exact Hg|]. split; [exact Hpp|]. split; [exact Hww|].
  split; [exact Hsc|].
  exists r1, r2, r3. split; [exact R1|]. split; [exact R2|].
  split; [exact R3|]. exact T.
Qed.

Lemma recycleStep_gateOf p fwd i e g :
  Forall (fun ev => gateOf ev = i) (snd (recycleStep rnd p fwd i e g)).
Proof.
  destruct (shouldRecycle p fwd g) eqn:Hr.
  - destruct (recycleStep_recycle p fwd i e g Hr) as (ln & e' & g' & E & _).
    rewrite E. cbn [snd]. destruct (missed p fwd g); repeat constructor.
  - rewrite recycleStep_keep by assumption. constructor.
Qed.

Lemma recycleStep_notCleared p fwd i e g :
  Forall (fun ev => isCleared ev = false) (snd (recycleStep rnd p fwd i e g)).
Proof.
  destruct (shouldRecycle p fwd g) eqn:Hr.
  - destruct (recycleStep_recycle p fwd i e g Hr) as (ln & e' & g' & E & _).
    rewrite E. cbn [snd]. destruct (missed p fwd g); repeat constructor.
  - rewrite recycleStep_keep by assumption. constructor.
Qed.

Lemma passStep_gateOf p spd i e g :
  Forall (fun ev => gateOf ev = i) (snd (passStep p spd i e g)).
Proof.
  destruct (passStep_spec p spd i e g) as [E|[_ E]]; rewrite E; repeat constructor.
Qed.

Lemma forGates_events (P : Event -> Prop) body
  (Hbody : forall i e g, Forall P (snd (body i e g))) :
  forall gs k e, Forall P (snd (forGates body k e gs)).
Proof.
  induction gs as [|g gs IH]; intros k e; simpl; [constructor|].
  pose proof (Hbody k e g) as Hb.
  destruct (body k e g) as [[e1 g1] ev1].
  specialize (IH (S k) e1).
  destruct (forGates body (S k) e1 gs) as [[e2 gs2] ev2]. simpl in *.
  apply Forall_app. split; assumption.
Qed.

Lemma forGates_gateOf_range body
  (Hbody : forall i e g, Forall (fun ev => gateOf ev = i) (snd (body i e g))) :
  forall gs k e,
    Forall (fun ev => (k <= gateOf ev < k + length gs)%nat)
           (snd (forGates body k e gs)).
Proof.
  induction gs as [|g gs IH]; intros k e; simpl; [constructor|].
  pose proof (Hbody k e g) as Hb.
  destruct (body k e g) as [[e1 g1] ev1].
  specialize (IH (S k) e1).
  destruct (forGates body (S k) e1 gs) as [[e2 gs2] ev2]. simpl in *.
  apply Forall_app. split.
  - eapply Forall_impl; [|exact Hb]. simpl. intros; lia.
  - eapply Forall_impl; [|exact IH]. simpl. intros; lia.
Qed.

Lemma app_split_not_in (A : Type) (l1 l2 pre post : list A) x :
  l1 ++ l2 = pre ++ x :: post -> ~ In x l1 ->
  exists pre2, pre = l1 ++ pre2 /\ l2 = pre2 ++ x :: post.
Proof.
  revert pre. induction l1 as [|a l1 IH]; intros pre E Hn.
  - exists pre. auto.
  - destruct pre as [|b pre]; simpl in E; inversion E; subst.
    + exfalso. apply Hn. left. reflexivity.
    + destruct (IH pre H1) as (pre2 & E1 & E2).
      * intros H. apply Hn. right. exact H.
      * exists pre2. subst pre. auto.
Qed.

Lemma app_split_cases (A : Type) (l1 l2 pre post : list A) x :
  l1 ++ l2 = pre ++ x :: post ->
  (exists post1, l1 = pre ++ x :: post1 /\ post = post1 ++ l2) \/
  (exists pre2, pre = l1 ++ pre2 /\ l2 = pre2 ++ x :: post).
Proof.
  revert pre. induction l1 as [|a l1 IH]; intros pre E.
  - right. exists pre. auto.
  - destruct pre as [|b pre]; simpl in E; inversion E; subst.
    + left. exists l1. auto.
    + destruct (IH pre H1) as [(post1 & E1 & E2)|(pre2 & E1 & E2)].
      * left. exists post1. subst l1. auto.
      * right. exists pre2. subst pre. auto.
Qed.

(** One frame, seen from a gate that has been credited. *)
Lemma update_passed_gate c inp i :
  passedAt c i ->
  creditGuarded i (snd (update rnd c inp)) /\
  (passedAt (fst (update rnd c inp)) i \/
   exists ln, In (EvRespawn i ln) (snd (update rnd c inp))).
Proof.
  intros (g & Hg & Hp). rewrite update_unfold. cbv zeta. cbn [fst snd gates].
  set (fwd := getForward (env c) (quat inp) (velXZ inp)).
  set (e0 := set_fallbackForward (env c) fwd).
  pose proof (forGates_nth (recycleStep rnd (pos inp) fwd)
                (recycleStep_gateOf (pos inp) fwd) (gates c) 0%nat e0 i g Hg)
    as (e1 & evA & evB & N1 & V1 & A1 & B1).
  pose proof (forGates_events (fun ev => isCleared ev = false)
                (recycleStep rnd (pos inp) fwd)
                (recycleStep_notCleared (pos inp) fwd) (gates c) 0%nat e0) as NC.
  set (r1 := forGates (recycleStep rnd (pos inp) fwd) 0 e0 (gates c)) in *.
  cbn [Nat.add] in *.
  set (g1 := snd (fst (recycleStep rnd (pos inp) fwd i e1 g))) in *.
  pose proof (forGates_nth (passStep (pos inp) (speed inp))
                (passStep_gateOf (pos inp) (speed inp))
                (snd (fst r1)) 0%nat (fst (fst r1)) i g1 N1)
    as (e2 & evC & evD & N2 & V2 & C2 & D2).
  set (r2 := forGates (passStep (pos inp) (speed inp)) 0 (fst (fst r1)) (snd (fst r1))) in *.
  cbn [Nat.add] in *.
  assert (NotIn1 : forall b cs sp, ~ In (EvGateCleared i b cs sp) (snd r1)).
  { intros b cs sp H. rewrite Forall_forall in NC. apply NC in H. discriminate. }
  destruct (shouldRecycle (pos inp) fwd g) eqn:Hr.
  - (* recycled in the first loop *)
    destruct (recycleStep_recycle (pos inp) fwd i e1 g Hr) as (ln & e' & g' & E & _).
    assert (Hin : In (EvRespawn i ln) (snd r1)).
    { rewrite V1, E. cbn [snd]. apply in_or_app. right. apply in_or_app. left.
      apply in_or_app. right. left. reflexivity. }
    split.
    + intros pre b cs sp post Hd.
      destruct (app_split_not_in _ _ _ _ _ _ Hd (NotIn1 b cs sp)) as (pre2 & P1 & _).
      exists ln. subst pre. apply in_or_app. left. exact Hin.
    + right. exists ln. apply in_or_app. left. exact Hin.
  - (* kept: still passed, and the second loop skips it *)
    assert (Hg1 : passed g1 = true).
    { subst g1. rewrite recycleStep_keep by assumption. cbn [fst snd].
      destruct (ahead (pos inp) fwd g >? Fin 0)%num; gate_proj; exact Hp. }
    rewrite (passStep_skip _ _ _ _ _ Hg1) in N2, V2. cbn [fst snd] in N2, V2.
    assert (NotIn2 : forall b cs sp, ~ In (EvGateCleared i b cs sp) (snd r2)).
    { intros b cs sp H. rewrite V2 in H. cbn [app] in H.
      apply in_app_or in H. destruct H as [H|H].
      - rewrite Forall_forall in C2. apply C2 in H. apply H. reflexivity.
      - rewrite Forall_forall in D2. apply D2 in H. apply H. reflexivity. }
    split.
    + intros pre b cs sp post Hd. exfalso.
      assert (In (EvGateCleared i b cs sp) (snd r1 ++ snd r2))
        by (rewrite Hd; apply in_or_app; right; left; reflexivity).
      apply in_app_or in H. destruct H as [H|H];
        [exact (NotIn1 _ _ _ H) | exact (NotIn2 _ _ _ H)].
    + left. exists g1. split; assumption.
Qed.

Lemma act_passed_gate c a i :
  passedAt c i ->
  creditGuarded i (snd (act rnd c a)) /\
  (passedAt (fst (act rnd c a)) i \/
   exists ln, In (EvRespawn i ln) (snd (act rnd c a))).
Proof.
  intros H. destruct a as [inp|o]; cbn [act].
  - apply update_passed_gate. exact H.
  - cbn [fst snd]. split.
    + intros pre b cs sp post Hd. destruct pre; discriminate.
    + left. exact H.
Qed.

Lemma update_length c inp :
  length (gates (fst (update rnd c inp))) = length (gates c).
Proof.
  rewrite update_unfold. cbv zeta. cbn [fst gates].
  rewrite !forGates_length. reflexivity.
Qed.

(** The pool keeps its size: no history of frames and score calls adds or
    removes a gate, and a course built by the constructor has 22 gates
    for ever. *)
Theorem pool_size_constant (l : list Action) (c : GateCourse.t)
    (s : ScoreSystem.t) :
  length (gates (fst (runActions rnd c l))) = length (gates c) /\
  length (gates (fst (runActions rnd (create s) l))) = 22%nat.
Proof.
  assert (H : forall c0, length (gates (fst (runActions rnd c0 l)))
                         = length (gates c0)).
  { induction l as [|a l IH]; intros c0; simpl; [reflexivity|].
    assert (Ha : length (gates (fst (act rnd c0 a))) = length (gates c0)).
    { destruct a as [inp|o]; cbn [act]; [apply update_length|reflexivity]. }
    destruct (act rnd c0 a) as [c1 ev1]. cbn [fst] in Ha.
    specialize (IH c1).
    destruct (runActions rnd c1 l) as [c2 ev2]. cbn [fst] in *.
    congruence. }
  split; [apply H|]. rewrite H. reflexivity.
Qed.

(** One frame, seen from a credit it gives: the credited gate ends the
    frame with [passed = true], and the rest of the frame does not credit
    it again. *)
Lemma update_credit c inp i x b cs sp y :
  snd (update rnd c inp) = x ++ EvGateCleared i b cs sp :: y ->
  passedAt (fst (update rnd c inp)) i /\
  (forall b' cs' sp', ~ In (EvGateCleared i b' cs' sp') y).
Proof.
  rewrite update_unfold. cbv zeta. cbn [fst snd gates].
  set (fwd := getForward (env c) (quat inp) (velXZ inp)).
  set (e0 := set_fallbackForward (env c) fwd).
  pose proof (forGates_events (fun ev => isCleared ev = false)
                (recycleStep rnd (pos inp) fwd)
                (recycleStep_notCleared (pos inp) fwd) (gates c) 0%nat e0) as NC.
  set (r1 := forGates (recycleStep rnd (pos inp) fwd) 0 e0 (gates c)) in *.
  pose proof (forGates_gateOf_range (passStep (pos inp) (speed inp))
                (passStep_gateOf (pos inp) (speed inp))
                (snd (fst r1)) 0%nat (fst (fst r1))) as Rg.
  intros Hd.
  assert (N1 : ~ In (EvGateCleared i b cs sp) (snd r1)).
  { intros H. rewrite Forall_forall in NC. apply NC in H. discriminate. }
  destruct (app_split_not_in _ _ _ _ _ _ Hd N1) as (x2 & _ & E2).
  assert (Hi : (i < length (snd (fst r1)))%nat).
  { rewrite Forall_forall in Rg.
    assert (H : In (EvGateCleared i b cs sp)
                  (snd (forGates (passStep (pos inp) (speed inp)) 0
                          (fst (fst r1)) (snd (fst r1)))))
      by (rewrite E2; apply in_or_app; right; left; reflexivity).
    apply Rg in H. cbn [gateOf] in H. lia. }
  destruct (nth_error (snd (fst r1)) i) as [g1|] eqn:G1;
    [|apply nth_error_None in G1; lia].
  pose proof (forGates_nth (passStep (pos inp) (speed inp))
                (passStep_gateOf (pos inp) (speed inp))
                (snd (fst r1)) 0%nat (fst (fst r1)) i g1 G1)
    as (e2 & evC & evD & N2 & V2 & C2 & D2).
  cbn [Nat.add] in *. rewrite V2 in E2.
  assert (NC2 : ~ In (EvGateCleared i b cs sp) evC).
  { intros H. rewrite Forall_forall in C2. apply C2 in H. apply H. reflexivity. }
  assert (ND2 : forall b' cs' sp', ~ In (EvGateCleared i b' cs' sp') evD).
  { intros b' cs' sp' H. rewrite Forall_forall in D2. apply D2 in H.
    apply H. reflexivity. }
  destruct (app_split_not_in _ _ _ _ _ _ E2 NC2) as (p2 & _ & E3).
  destruct (passStep_spec (pos inp) (speed inp) i e2 g1) as [E|[Hp E]];
    rewrite E in N2, E3; cbn [fst snd app] in N2, E3.
  - exfalso. apply (ND2 b cs sp). rewrite E3.
    apply in_or_app. right. left. reflexivity.
  - destruct p2 as [|q p2]; cbn [app] in E3; inversion E3.
    + split.
      * eexists. split; [exact N2|]. reflexivity.
      * subst y. exact ND2.
    + exfalso. apply (ND2 b cs sp). subst evD.
      apply in_or_app. right. left. reflexivity.
Qed.

Lemma act_credit c a i x b cs sp y :
  snd (act rnd c a) = x ++ EvGateCleared i b cs sp :: y ->
  passedAt (fst (act rnd c a)) i /\
  (forall b' cs' sp', ~ In (EvGateCleared i b' cs' sp') y).
Proof.
  destruct a as [inp|o]; cbn [act].
  - apply update_credit.
  - cbn [fst snd]. intros H. destruct x; discriminate.
Qed.

(** From a state in which gate [i] has been credited, each later credit of
    gate [i] comes after a respawn of gate [i]. *)
Lemma runActions_passed_gate l : forall c i,
  passedAt c i -> creditGuarded i (snd (runActions rnd c l)).
Proof.
  induction l as [|a l IH]; intros c i H; simpl.
  - intros pre b cs sp post Hd. destruct pre; discriminate.
  - destruct (act_passed_gate c a i H) as [G Hor].
    destruct (act rnd c a) as [c1 ev1]. cbn [fst snd] in *.
    specialize (IH c1 i).
    destruct (runActions rnd c1 l) as [c2 ev2]. cbn [fst snd] in *.
    intros pre b cs sp post Hd.
    destruct (app_split_cases _ _ _ _ _ _ Hd)
      as [(post1 & E1 & _)|(pre2 & E1 & E2)].
    + exact (G pre b cs sp post1 E1).
    + destruct Hor as [Hpass|(ln & Hin)].
      * destruct (IH Hpass pre2 b cs sp post E2) as (ln & Hin).
        exists ln. subst pre. apply in_or_app. right. exact Hin.
      * exists ln. subst pre. apply in_or_app. left. exact Hin.
Qed.

(** Between two credits of gate [i], in any history from any state, gate
    [i] is respawned. *)
Lemma runActions_credits_apart l : forall c i a b1 c1 s1 m b2 c2 s2 z,
  snd (runActions rnd c l)
    = a ++ EvGateCleared i b1 c1 s1 :: m ++ EvGateCleared i b2 c2 s2 :: z ->
  exists ln, In (EvRespawn i ln) m.
Proof.
  induction l as [|o l IH]; intros c i a b1 c1 s1 m b2 c2 s2 z; simpl.
  - intros Hd. destruct a; discriminate.
  - pose proof (act_credit c o i) as Hc.
    destruct (act rnd c o) as [c' ev1]. cbn [fst snd] in Hc.
    pose proof (runActions_passed_gate l c' i) as Hg.
    specialize (IH c' i).
    destruct (runActions rnd c' l) as [c'' ev2]. cbn [fst snd] in *.
    intros Hd.
    destruct (app_split_cases _ _ _ _ _ _ Hd)
      as [(post1 & E1 & E2)|(pre2 & E1 & E2)].
    + destruct (Hc _ _ _ _ _ E1) as [Hpass Hno].
      symmetry in E2.
      destruct (app_split_cases _ _ _ _ _ _ E2)
        as [(post2 & F1 & _)|(pre3 & F1 & F2)].
      * exfalso. apply (Hno b2 c2 s2). rewrite F1.
        apply in_or_app. right. left. reflexivity.
      * destruct (Hg Hpass pre3 b2 c2 s2 z F2) as (ln & Hin).
        exists ln. subst m. apply in_or_app. right. exact Hin.
    + exact (IH _ _ _ _ _ _ _ _ _ E2).
Qed.

(** C2.  In every history of frames and score calls: from a state in which
    gate [i] has [passed = true], each [onGateCleared] for gate [i] comes
    after a respawn of gate [i]; from any state, between two
    [onGateCleared] for gate [i] there is a respawn of gate [i]; and
    [respawnGate] leaves [passed = false]. *)
Theorem no_double_credit (l : list Action) (c : GateCourse.t) (i : nat) :
  (forall g, nth_error (gates c) i = Some g -> passed g = true ->
     forall pre b cs sp post,
       snd (runActions rnd c l) = pre ++ EvGateCleared i b cs sp :: post ->
       exists ln, In (EvRespawn i ln) pre) /\
  (forall a b1 c1 s1 m b2 c2 s2 z,
     snd (runActions rnd c l)
       = a ++ EvGateCleared i b1 c1 s1 :: m ++ EvGateCleared i b2 c2 s2 :: z ->
     exists ln, In (EvRespawn i ln) m) /\
  (forall j e g0 p fwd,
     passed (snd (fst (respawnGate rnd j e g0 p fwd))) = false).
Proof.
  split; [|split].
  - intros g Hg Hp. apply runActions_passed_gate. exists g. auto.
  - apply runActions_credits_apart.
  - intros j e g0 p fwd.
    destruct (respawnGate_spec j e g0 p fwd)
      as (ln & e' & g' & E & _ & _ & _ & _ & _ & _ & Hpp & _).
    rewrite E. exact Hpp.
Qed.

(** A gate respawned ahead of a finite position along a unit forward is out
    of reach of the containment test. *)
Lemma respawnGate_far i e g p1 p2 p3 fx fz :
  fx * fx + fz * fz = 1 ->
  contains (snd (fst (respawnGate rnd i e g (fin3 p1 p2 p3) (fin3 fx 0 fz))))
           (fin3 p1 p2 p3) = false.
Proof.
  intros Hu. unfold respawnGate. unfold random at 1. cbv zeta.
  destruct (chooseLane_spec (set_cursor e (S (cursor e))))
    as (ln & k & E & Hin & _).
  rewrite E. unfold random. cbv zeta. env_proj. cbn [fst snd].
  pose proof (sample_range rnd (cursor e)) as R0.
  set (r0 := sample rnd (cursor e)) in *.
  set (r1 := sample rnd k). set (r2 := sample rnd (S k)).
  unfold spawnMin, spawnMax, lateralLane, verticalCenter, verticalJitter.
  cbn [Vector3.x Vector3.y Vector3.z fin3 JS.neg JS.mul JS.add JS.sub].
  change (Vector3.mk (Fin fz) (Fin 0) (Fin (- fx))) with (fin3 fz 0 (- fx)).
  assert (Hr : fz * fz + 0 * 0 + - fx * - fx <> 0) by nra.
  rewrite (normalize_fin3 fz 0 (- fx) Hr).
  assert (Hs1 : R_sqrt.sqrt (fz * fz + 0 * 0 + - fx * - fx) = 1).
  { replace (fz * fz + 0 * 0 + - fx * - fx) with 1 by nra. apply sqrt_1. }
  rewrite Hs1.
  set (d := 70 + r0 * (220 + - 70)).
  set (lat := IZR ln * 11 + (r1 * 2 + - 1) * (11 * 0.18)).
  set (y := 2.6 + (r2 * 2 + - 1) * 1.0).
  unfold Vector3.addScaledVector, fin3.
  cbn [Vector3.x Vector3.y Vector3.z JS.mul JS.add].
  gate_proj.
  set (sx := p1 + fx * d + fz * (1 / 1) * lat).
  set (sy := p2 + 0 * d + 0 * (1 / 1) * lat).
  set (sz := p3 + fz * d + - fx * (1 / 1) * lat).
  apply (contains_far _ p1 p2 p3 sx y sz).
  - reflexivity.
  - gate_proj. unfold Rotation.objectLookAt.
    change (Vector3.mk (Fin (sx + fx * 10)) (Fin (sy + 0 * 10)) (Fin (sz + fz * 10)))
      with (fin3 (sx + fx * 10) (sy + 0 * 10) (sz + fz * 10)).
    change (Vector3.mk (Fin sx) (Fin y) (Fin sz)) with (fin3 sx y sz).
    apply lookAt_orthonormal. nra.
  - assert (Hd : 70 <= d) by (subst d; nra).
    assert (Hid : (p1 - sx) * (p1 - sx) + (p3 - sz) * (p3 - sz)
                  = (fx * fx + fz * fz) * (d * d + lat * lat))
      by (subst sx sz; field).
    rewrite Hu in Hid.
    assert (Hdd : 70 * 70 <= d * d) by (clearbody d; nra).
    pose proof (Rle_0_sqr lat) as Hl. unfold Rsqr in Hl.
    pose proof (Rle_0_sqr (p2 - y)) as Hy. unfold Rsqr in Hy.
    clearbody sx sz d lat y. lra.
Qed.

Lemma recycleStep_recycled_gate p fwd i e g :
  shouldRecycle p fwd g = true ->
  exists em gm,
    snd (fst (recycleStep rnd p fwd i e g))
    = snd (fst (respawnGate rnd i em gm p fwd)) /\
    passed (snd (fst (recycleStep rnd p fwd i e g))) = false.
Proof.
  intros H. unfold recycleStep. cbv zeta. rewrite H.
  match goal with
  | |- context [if ?b then onGateMissed i e ?g1 else _] =>
      destruct b; [destruct (onGateMissed i e g1) as [[em gm] ev1]|]
  end.
  - destruct (respawnGate_spec i em gm p fwd)
      as (ln & e' & g' & E & _ & _ & _ & _ & _ & _ & Hp & _).
    exists em, gm. rewrite E. cbn [fst snd]. auto.
  - match goal with
    | |- context [respawnGate rnd i e ?g1 p fwd] =>
        destruct (respawnGate_spec i e g1 p fwd)
          as (ln & e' & g' & E & _ & _ & _ & _ & _ & _ & Hp & _);
        exists e, g1; rewrite E; cbn [fst snd]; auto
    end.
Qed.

Lemma passStep_isCleared p spd i e g :
  Forall (fun ev => isCleared ev = true) (snd (passStep p spd i e g)).
Proof.
  destruct (passStep_spec p spd i e g) as [E|[_ E]];
    rewrite E; repeat constructor.
Qed.

Lemma fallbackForward_recycleStep p fwd i e g :
  fallbackForward (fst (fst (recycleStep rnd p fwd i e g))) = fallbackForward e.
Proof.
  destruct (shouldRecycle p fwd g) eqn:Hr.
  - destruct (recycleStep_recycle p fwd i e g Hr)
      as (ln & e' & g' & E & _ & _ & _ & _ & _ & Hf & _).
    rewrite E. exact Hf.
  - rewrite recycleStep_keep by assumption. reflexivity.
Qed.

Lemma fallbackForward_passStep p spd i e g :
  fallbackForward (fst (fst (passStep p spd i e g))) = fallbackForward e.
Proof.
  destruct (passStep_spec p spd i e g) as [E|[_ E]];
    rewrite E; reflexivity.
Qed.

Lemma fallbackForward_update c inp :
  fallbackForward (env (fst (update rnd c inp)))
  = getForward (env c) (quat inp) (velXZ inp).
Proof.
  rewrite update_unfold. cbv zeta. cbn [fst env].
  set (fwd := getForward (env c) (quat inp) (velXZ inp)).
  apply (forGates_fold unit (fun _ a => a)
           (fun _ => eq_refl) (fun _ _ _ => eq_refl)
           (fun _ e => fallbackForward e = fwd)); [|exact tt|].
  - intros i e g _ H. rewrite fallbackForward_passStep. exact H.
  - apply (forGates_fold unit (fun _ a => a)
           (fun _ => eq_refl) (fun _ _ _ => eq_refl)
           (fun _ e => fallbackForward e = fwd)); [|exact tt|].
    + intros i e g _ H. rewrite fallbackForward_recycleStep. exact H.
    + reflexivity.
Qed.

Lemma boundedInput_finite inp : boundedInput inp -> finiteInput inp.
Proof.
  intros ((Px & Py & Pz) & Hv & Hq). split; [|split].
  - destruct Px as (a & Ea & _), Py as (b & Eb & _), Pz as (c & Ec & _).
    exists a, b, c. destruct (pos inp) as [x y z]. cbn in *. subst. reflexivity.
  - destruct (velXZ inp) as [[vx vz]|]; [|exact I].
    destruct Hv as ((a & -> & _) & (b & -> & _)). split; reflexivity.
  - destruct (quat inp) as [q|]; [|exact I].
    destruct Hq as ((a & Ea & _) & (b & Eb & _) & (c & Ec & _) & (d & Ed & _)).
    exists a, b, c, d. destruct q as [x y z w]. cbn in *. subst. reflexivity.
Qed.

(** [Math.floor(m * clamp(v, 0, 1))] is [NaN] or a whole number from 0 to
    [m], whatever [v]. *)
Lemma floor_clamp_range (m : Z) (v : num) :
  (0 < m)%Z ->
  bonusOk m (floor (Fin (IZR m) * clamp v (Fin 0) (Fin 1))%num).
Proof.
  intros Hm. apply IZR_lt in Hm.
  assert (F : forall c, 0 <= c <= 1 ->
            bonusOk m (floor (Fin (IZR m) * Fin c)%num)).
  { intros c Hc. right. cbn [JS.mul JS.floor].
    exists (Int_part (IZR m * c)). split; [reflexivity|].
    pose proof (base_Int_part (IZR m * c)) as [B1 B2].
    assert (U : IZR m * c <= IZR m) by nra.
    assert (L : 0 <= IZR m * c) by nra.
    split.
    - assert (I : IZR (-1) < IZR (Int_part (IZR m * c))) by (simpl; lra).
      apply lt_IZR in I. lia.
    - apply le_IZR. lra. }
  destruct v as [x| | |].
  - assert (C : exists c, clamp (Fin x) (Fin 0) (Fin 1) = Fin c /\ 0 <= c <= 1).
    { unfold_num. rdec; eexists; (split; [reflexivity|]); lra. }
    destruct C as (c & -> & Hc). apply F, Hc.
  - assert (C : clamp PInf (Fin 0) (Fin 1) = Fin 1).
    { unfold_num. rdec; [reflexivity|exfalso; lra]. }
    rewrite C. apply F. lra.
  - assert (C : clamp NInf (Fin 0) (Fin 1) = Fin 0) by reflexivity.
    rewrite C. apply F. lra.
  - left. reflexivity.
Qed.

Lemma centerScore_range lx ly : bonusOk 80 (centerScore lx ly).
Proof.
  unfold centerScore, centerBonusMax. cbv zeta.
  apply (floor_clamp_range 80). lia.
Qed.

Lemma speedScore_range spd : bonusOk 50 (speedScore spd).
Proof.
  unfold speedScore, speedBonusMax. cbv zeta.
  apply (floor_clamp_range 50). lia.
Qed.

Lemma passStep_args p spd i e g :
  Forall scoreArgsBounded (snd (passStep p spd i e g)).
Proof.
  destruct (passStep_spec p spd i e g) as [E|[_ E]]; rewrite E; cbn [snd].
  - constructor.
  - constructor; [|constructor]. cbn [scoreArgsBounded].
    split; [reflexivity|]. split; [apply centerScore_range|apply speedScore_range].
Qed.

Lemma onPenalty_nonfinite s p :
  isFinite p = false ->
  ScoreSystem.onPenalty s p = ScoreSystem.breakCombo s true.
Proof.
  intros H. unfold ScoreSystem.onPenalty. cbv zeta.
  rewrite ScoreProofs.add_nonfinite; [reflexivity|].
  destruct p; try discriminate; reflexivity.
Qed.

Lemma onGateCleared_center_nonfinite s b cb sb :
  isFinite cb = false ->
  ScoreSystem.onGateCleared s b cb sb
  = ScoreSystem.onGateCleared s b (Fin 0) sb.
Proof.
  intros H. unfold ScoreSystem.onGateCleared. cbv zeta.
  assert (Z : (Fin 0 >? Fin 0)%num = false).
  { unfold_num. rdec; [exfalso; lra|reflexivity]. }
  rewrite Z.
  destruct (cb >? Fin 0)%num; [|reflexivity].
  rewrite (ScoreProofs.add_nonfinite _ cb _ _ H). reflexivity.
Qed.

Lemma onGateCleared_speed_nonfinite s b cb sb :
  isFinite sb = false ->
  ScoreSystem.onGateCleared s b cb sb
  = ScoreSystem.onGateCleared s b cb (Fin 0).
Proof.
  intros H. unfold ScoreSystem.onGateCleared. cbv zeta.
  assert (Z : (Fin 0 >? Fin 0)%num = false).
  { unfold_num. rdec; [exfalso; lra|reflexivity]. }
  rewrite Z.
  destruct (sb >? Fin 0)%num; [|reflexivity].
  rewrite (ScoreProofs.add_nonfinite _ sb _ _ H). reflexivity.
Qed.

Lemma update_nan_timer s :
  ScoreSystem.timeSinceScore (ScoreSystem.update s NaN) = NaN /\
  ScoreSystem.comboLock (ScoreSystem.update s NaN) = NaN.
Proof.
  unfold ScoreSystem.update. cbv zeta. ss_proj.
  assert (T : (ScoreSystem.timeSinceScore s + NaN)%num = NaN)
    by (destruct (ScoreSystem.timeSinceScore s); reflexivity).
  assert (L : max (Fin 0) (ScoreSystem.comboLock s - NaN)%num = NaN)
    by (destruct (ScoreSystem.comboLock s); reflexivity).
  rewrite T, L. cbn [JS.gt JS.lt]. ss_proj. split; reflexivity.
Qed.

Lemma recycleStep_args p fwd i e g :
  Forall scoreArgsBounded (snd (recycleStep rnd p fwd i e g)).
Proof.
  destruct (shouldRecycle p fwd g) eqn:Hr.
  - destruct (recycleStep_recycle p fwd i e g Hr) as (ln & e' & g' & E & _).
    rewrite E. cbn [snd]. apply Forall_app. split.
    + destruct (missed p fwd g); repeat constructor.
    + repeat constructor.
  - rewrite (recycleStep_keep _ _ _ _ _ Hr). constructor.
Qed.

Lemma update_args c inp : Forall scoreArgsBounded (snd (update rnd c inp)).
Proof.
  rewrite update_unfold. cbv zeta. cbn [snd].
  apply Forall_app. split.
  - apply forGates_events. intros; apply recycleStep_args.
  - apply forGates_events. intros; apply passStep_args.
Qed.

(** In exact arithmetic, for any finite input: a gate that the first loop
    respawns is at least 70 units away and fails the containment test of
    the second loop. *)
Lemma respawned_gate_not_credited_exact (c : GateCourse.t) (inp : Input)
    (i : nat) (ln : Z) :
  finiteInput inp ->
  unitXZ (fallbackForward (env c)) ->
  In (EvRespawn i ln) (snd (update rnd c inp)) ->
  unitXZ (fallbackForward (env (fst (update rnd c inp)))) /\
  (forall b cs sp, ~ In (EvGateCleared i b cs sp) (snd (update rnd c inp))) /\
  exists g,
    nth_error (gates (fst (update rnd c inp))) i = Some g /\
    passed g = false /\
    contains g (pos inp) = false.
Proof.
  intros Hfin Hunit Hin.
  pose proof (getForward_unit (env c) inp Hfin Hunit) as Hfwd.
  split; [rewrite fallbackForward_update; exact Hfwd|].
  revert Hin. rewrite update_unfold. cbv zeta. cbn [fst snd gates].
  set (fwd := getForward (env c) (quat inp) (velXZ inp)) in *.
  set (e0 := set_fallbackForward (env c) fwd).
  set (r1 := forGates (recycleStep rnd (pos inp) fwd) 0 e0 (gates c)).
  set (r2 := forGates (passStep (pos inp) (speed inp)) 0 (fst (fst r1)) (snd (fst r1))).
  intros Hin.
  (* the respawn is an event of the first loop *)
  assert (Hin1 : In (EvRespawn i ln) (snd r1)).
  { apply in_app_or in Hin. destruct Hin as [H|H]; [exact H|].
    pose proof (forGates_events (fun ev => isCleared ev = true)
                  (passStep (pos inp) (speed inp))
                  (passStep_isCleared (pos inp) (speed inp))
                  (snd (fst r1)) 0%nat (fst (fst r1))) as Hc.
    rewrite Forall_forall in Hc. apply Hc in H. discriminate. }
  (* so the gate exists *)
  pose proof (forGates_gateOf_range (recycleStep rnd (pos inp) fwd)
                (recycleStep_gateOf (pos inp) fwd)
                (gates c) 0%nat e0) as Hrange.
  rewrite Forall_forall in Hrange. specialize (Hrange _ Hin1). cbn [gateOf] in Hrange.
  destruct (nth_error (gates c) i) as [g|] eqn:Hg;
    [|apply nth_error_None in Hg; lia].
  destruct (forGates_nth (recycleStep rnd (pos inp) fwd)
              (recycleStep_gateOf (pos inp) fwd)
              (gates c) 0%nat e0 i g Hg)
    as (e1 & evA & evB & N1 & V1 & A1 & B1).
  fold r1 in N1, V1. cbn [Nat.add] in *.
  (* and the gate was recycled *)
  assert (Hr : shouldRecycle (pos inp) fwd g = true).
  { destruct (shouldRecycle (pos inp) fwd g) eqn:Hr; [reflexivity|exfalso].
    rewrite V1 in Hin1.
    rewrite (recycleStep_keep _ _ _ _ _ Hr) in Hin1.
    cbn [snd app] in Hin1.
    apply in_app_or in Hin1. destruct Hin1 as [H|H].
    - rewrite Forall_forall in A1. apply A1 in H. apply H. reflexivity.
    - rewrite Forall_forall in B1. apply B1 in H. apply H. reflexivity. }
  destruct (recycleStep_recycled_gate (pos inp) fwd i e1 g Hr) as (em & gm & Eg & Hp).
  set (g1 := snd (fst (recycleStep rnd (pos inp) fwd i e1 g))) in *.
  assert (Hc : contains g1 (pos inp) = false).
  { destruct Hfin as ((p1 & p2 & p3 & Ep) & _).
    destruct Hfwd as (fx & fz & Ef & Hu).
    rewrite Eg, Ep, Ef. apply respawnGate_far. exact Hu. }
  destruct (forGates_nth (passStep (pos inp) (speed inp))
              (passStep_gateOf (pos inp) (speed inp))
              (snd (fst r1)) 0%nat (fst (fst r1)) i g1 N1)
    as (e2 & evC & evD & N2 & V2 & C2 & D2).
  fold r2 in N2, V2. cbn [Nat.add] in *.
  rewrite (passStep_not_contained _ _ _ _ _ Hc) in N2, V2. cbn [fst snd app] in N2, V2.
  split.
  - intros b cs sp H. apply in_app_or in H. destruct H as [H|H].
    + pose proof (forGates_events (fun ev => isCleared ev = false)
                    (recycleStep rnd (pos inp) fwd)
                    (recycleStep_notCleared (pos inp) fwd)
                    (gates c) 0%nat e0) as NC.
      fold r1 in NC. rewrite Forall_forall in NC. apply NC in H. discriminate.
    + rewrite V2 in H. apply in_app_or in H. destruct H as [H|H].
      * rewrite Forall_forall in C2. apply C2 in H. apply H. reflexivity.
      * rewrite Forall_forall in D2. apply D2 in H. apply H. reflexivity.
  - exists g1. auto.
Qed.

(** C1, amended.  A gate that the first loop respawns enters the second
    loop of the same call with [passed = false], so the second loop does
    run its containment test on it.  When the position, and the velocity
    and orientation if given, are finite and of size at most a million,
    and the stored forward is a unit vector of the horizontal plane, the
    test fails, the gate being at least 70 units away: the gate is not
    credited in that call and ends it with [passed = false].  The forward
    stored by the call is again a unit vector of the horizontal plane. *)
Theorem respawned_gate_not_credited (c : GateCourse.t) (inp : Input)
    (i : nat) (ln : Z) :
  boundedInput inp ->
  unitXZ (fallbackForward (env c)) ->
  In (EvRespawn i ln) (snd (update rnd c inp)) ->
  unitXZ (fallbackForward (env (fst (update rnd c inp)))) /\
  (forall b cs sp, ~ In (EvGateCleared i b cs sp) (snd (update rnd c inp))) /\
  exists g,
    nth_error (gates (fst (update rnd c inp))) i = Some g /\
    passed g = false /\
    contains g (pos inp) = false.
Proof.
  intros Hb. apply respawned_gate_not_credited_exact.
  apply boundedInput_finite, Hb.
Qed.


Lemma finiteFields_recycleStep p fwd i e g :
  ScoreSpec.finiteFields (GateCourse.score e) ->
  ScoreSpec.finiteFields (GateCourse.score (fst (fst (recycleStep rnd p fwd i e g)))).
Proof.
  intros H. destruct (shouldRecycle p fwd g) eqn:Hr.
  - destruct (recycleStep_recycle p fwd i e g Hr)
      as (ln & e' & g' & E & _ & _ & _ & _ & Hs & _).
    rewrite E. cbn [fst]. rewrite Hs.
    destruct (missed p fwd g); [|exact H].
    apply ScoreProofs.finiteFields_breakCombo, ScoreProofs.finiteFields_onPenalty, H.
  - rewrite recycleStep_keep by assumption. exact H.
Qed.

Lemma finiteFields_passStep p spd i e g :
  ScoreSpec.finiteFields (GateCourse.score e) ->
  ScoreSpec.finiteFields (GateCourse.score (fst (fst (passStep p spd i e g)))).
Proof.
  intros H. destruct (passStep_spec p spd i e g) as [E|[_ E]]; rewrite E; cbn [fst].
  - exact H.
  - cbn [GateCourse.score GateCourse.set_score]. apply ScoreProofs.finiteFields_onGateCleared, H.
Qed.

Lemma finiteFields_update c inp :
  ScoreSpec.finiteFields (GateCourse.score (env c)) ->
  ScoreSpec.finiteFields (GateCourse.score (env (fst (update rnd c inp)))).
Proof.
  intros H. rewrite update_unfold. cbv zeta. cbn [fst env].
  apply (forGates_fold unit (fun _ a => a)
           (fun _ => eq_refl) (fun _ _ _ => eq_refl)
           (fun _ e => ScoreSpec.finiteFields (GateCourse.score e))); [|exact tt|].
  - intros i e g _ He. apply finiteFields_passStep, He.
  - apply (forGates_fold unit (fun _ a => a)
           (fun _ => eq_refl) (fun _ _ _ => eq_refl)
           (fun _ e => ScoreSpec.finiteFields (GateCourse.score e))); [|exact tt|].
    + intros i e g _ He. apply finiteFields_recycleStep, He.
    + exact H.
Qed.

(** C4, amended.  The guards against numbers that are not finite are in
    [ScoreSystem], on the points: [add] ignores points that are not
    finite, [onPenalty] then only breaks the combo, [onGateCleared] reads
    a bonus that is not finite as no bonus, and [onCrash] reads a speed
    that is not finite as 0.  [update(dt)] of the score has no guard: a
    [NaN] frame time is stored in its timers.  [GateCourse.update] has no
    guard either, but whatever the position, velocity and speed, the
    points that it hands to the score are 100 per cleared gate, with a
    centring bonus and a speed bonus that are [NaN] or whole numbers from 0
    to 80 and from 0 to 50, and 140 per miss. *)
Theorem nonfinite_inputs_stop_at_score (c : GateCourse.t) (inp : Input) :
  (forall s p r a, isFinite p = false -> ScoreSystem.add s p r a = s) /\
  (forall s sp, isFinite sp = false ->
     ScoreSystem.onCrash s sp = ScoreSystem.onCrash s (Fin 0)) /\
  (forall s p, isFinite p = false ->
     ScoreSystem.onPenalty s p = ScoreSystem.breakCombo s true) /\
  (forall s b cb sb, isFinite cb = false ->
     ScoreSystem.onGateCleared s b cb sb
     = ScoreSystem.onGateCleared s b (Fin 0) sb) /\
  (forall s b cb sb, isFinite sb = false ->
     ScoreSystem.onGateCleared s b cb sb
     = ScoreSystem.onGateCleared s b cb (Fin 0)) /\
  (forall s, ScoreSystem.timeSinceScore (ScoreSystem.update s NaN) = NaN /\
             ScoreSystem.comboLock (ScoreSystem.update s NaN) = NaN) /\
  Forall scoreArgsBounded (snd (update rnd c inp)).
Proof.
  split; [exact ScoreProofs.add_nonfinite|].
  split; [exact ScoreProofs.onCrash_nonfinite|].
  split; [exact onPenalty_nonfinite|].
  split; [exact onGateCleared_center_nonfinite|].
  split; [exact onGateCleared_speed_nonfinite|].
  split; [exact update_nan_timer|]. apply update_args.
Qed.


End WithOracle.

End CourseProofs.

(* ================================================================== *)
(** * Frames of a new course, evaluated: counterexamples and witnesses *)
(* ================================================================== *)

Module Examples.

Import GateCourse CourseSpec CourseProofs.

Lemma scaleInf_zero : scaleInf 0 = NaN.
Proof. unfold scaleInf. destruct (Req_dec_T 0 0); [reflexivity|contradiction]. Qed.

Lemma mul_NaN_r a : (a * NaN)%num = NaN.
Proof. destruct a; reflexivity. Qed.

Lemma forGates_head body k e g gs :
  exists tlg tle,
    snd (fst (forGates body k e (g :: gs))) = snd (fst (body k e g)) :: tlg /\
    snd (forGates body k e (g :: gs)) = snd (body k e g) ++ tle.
Proof.
  cbn [forGates]. destruct (body k e g) as [[e1 g1] ev1].
  destruct (forGates body (S k) e1 gs) as [[e2 gs2] ev2].
  cbn [fst snd]. eauto.
Qed.

Lemma respawnGate_events rnd i e g p fwd :
  snd (respawnGate rnd i e g p fwd)
  = [EvRespawn i (fst (chooseLane rnd (set_cursor e (S (cursor e)))))].
Proof.
  unfold respawnGate. unfold random at 1. cbv zeta.
  destruct (chooseLane_spec rnd (set_cursor e (S (cursor e))))
    as (ln & k & E & _).
  rewrite E. reflexivity.
Qed.

Lemma recycleStep_unmissed rnd p fwd i e g :
  shouldRecycle p fwd g = true -> missed p fwd g = false ->
  exists g1, recycleStep rnd p fwd i e g = respawnGate rnd i e g1 p fwd.
Proof.
  intros Hr Hm. unfold recycleStep. cbv zeta. rewrite Hr.
  set (g1 := if (ahead p fwd g >? Fin 0)%num then set_wasAhead g true else g).
  assert (Hm' : negb (passed g1) && wasAhead g1 = false).
  { rewrite <- Hm. unfold missed. subst g1.
    destruct (ahead p fwd g >? Fin 0)%num; gate_proj;
      rewrite ?orb_true_r, ?orb_false_r; reflexivity. }
  rewrite Hm'. exists g1.
  destruct (respawnGate rnd i e g1 p fwd) as [[e' g'] ev]. reflexivity.
Qed.

Lemma recycleStep_missed_events rnd p fwd i e g :
  shouldRecycle p fwd g = true -> missed p fwd g = true ->
  snd (recycleStep rnd p fwd i e g)
  = [EvPenalty i missPenalty; EvBreakCombo i true;
     EvRespawn i
       (fst (chooseLane rnd
               (set_cursor
                  (GateCourse.set_score e
                     (ScoreSystem.breakCombo
                        (ScoreSystem.onPenalty (score e) missPenalty) true))
                  (S (cursor e)))))].
Proof.
  intros Hr Hm. unfold recycleStep. cbv zeta. rewrite Hr.
  set (g1 := if (ahead p fwd g >? Fin 0)%num then set_wasAhead g true else g).
  assert (Hm' : negb (passed g1) && wasAhead g1 = true).
  { rewrite <- Hm. unfold missed. subst g1.
    destruct (ahead p fwd g >? Fin 0)%num; gate_proj;
      rewrite ?orb_true_r, ?orb_false_r; reflexivity. }
  rewrite Hm'. destruct (onGateMissed_spec i e g1) as (g2 & E2 & _). rewrite E2.
  pose proof (respawnGate_events rnd i
                (GateCourse.set_score e
                   (ScoreSystem.breakCombo
                      (ScoreSystem.onPenalty (score e) missPenalty) true))
                g2 p fwd) as Ev.
  destruct (respawnGate rnd i _ g2 p fwd) as [[e' g'] ev].
  cbn [snd] in *. rewrite Ev. reflexivity.
Qed.

(** On the zero tape the first spawn of a course goes to lane [-1]. *)
Lemma chooseLane_zeroOracle e :
  lastLane e = 0%Z -> sameLaneStreak e = 0%Z ->
  fst (chooseLane zeroOracle e) = (-1)%Z.
Proof.
  intros Hl Hs. unfold chooseLane, random. cbv zeta.
  cbn [sample zeroOracle]. env_proj. rewrite Hl, Hs.
  cbn [Z.leb Z.compare].
  assert (L : (Fin 0 <? Fin 0.35)%num = true)
    by (unfold_num; rdec; [reflexivity|lra]).
  rewrite L. cbn [filter Z.eqb negb].
  unfold lengthOf. cbn [length JS.mul floor nthLane].
  replace (0 * INR 2) with (IZR 0) by (simpl; lra).
  rewrite !Int_part_IZR. cbn [Z.to_nat nth].
  cbn [fst]. reflexivity.
Qed.

Lemma localOf_at_infinity g p :
  Vector3.x p = PInf -> localOf g p = Vector3.mk NaN NaN NaN.
Proof.
  intros Hx. unfold localOf, Rotation.worldToLocal. cbv zeta. rewrite Hx.
  cbn [JS.mul]. rewrite scaleInf_zero. cbn [JS.add JS.div].
  rewrite !mul_NaN_r. reflexivity.
Qed.

Lemma passStep_at_infinity p spd i e g :
  Vector3.x p = PInf -> passed g = false ->
  passStep p spd i e g
  = (GateCourse.set_score e
       (ScoreSystem.onGateCleared (score e) (Fin 100) NaN (speedScore spd)),
     flashGate (set_wasAhead (set_passed g true) false),
     [EvGateCleared i (Fin 100) NaN (speedScore spd)]).
Proof.
  intros Hx Hp. unfold passStep. rewrite Hp.
  rewrite (localOf_at_infinity g p Hx). reflexivity.
Qed.

(** Respawning around a position with [x = +Infinity] stores [+Infinity]
    in the gate. *)
Lemma respawnGate_at_infinity rnd i e g py pz :
  Vector3.x
    (position
       (snd (fst (respawnGate rnd i e g (Vector3.mk PInf py pz)
                    (Vector3.mk (Fin 0) (Fin 0) (Fin (-1)))))))
  = PInf.
Proof.
  unfold respawnGate. unfold random at 1. cbv zeta.
  destruct (chooseLane_spec rnd (set_cursor e (S (cursor e))))
    as (ln & k & E & _).
  rewrite E. unfold random. cbv zeta. env_proj. cbn [fst snd].
  unfold spawnMin, spawnMax, lateralLane, verticalCenter, verticalJitter.
  cbn [Vector3.x Vector3.y Vector3.z JS.neg JS.mul JS.add JS.sub].
  change (Vector3.mk (Fin (-1)) (Fin 0) (Fin (- 0))) with (fin3 (-1) 0 (- 0)).
  rewrite (normalize_fin3 (-1) 0 (- 0)) by lra.
  unfold Vector3.addScaledVector, fin3.
  cbn [Vector3.x Vector3.y Vector3.z JS.mul JS.add].
  gate_proj. reflexivity.
Qed.

Lemma newCourse_gates :
  gates newCourse = buildGate 0 :: tl (gates newCourse).
Proof. reflexivity. Qed.

Lemma atInfinity_shouldRecycle :
  shouldRecycle (pos frameAtInfinity)
    (Vector3.mk (Fin 0) (Fin 0) (Fin (-1))) (buildGate 0) = true.
Proof.
  unfold shouldRecycle.
  assert (D : (dist (pos frameAtInfinity) (buildGate 0) >? farRecycle)%num = true)
    by reflexivity.
  rewrite D. apply orb_true_r.
Qed.

Lemma atInfinity_ahead :
  ahead (pos frameAtInfinity)
    (Vector3.mk (Fin 0) (Fin 0) (Fin (-1))) (buildGate 0) = NaN.
Proof.
  unfold ahead, Vector3.dot, Vector3.sub.
  cbn [pos frameAtInfinity position buildGate Vector3.x Vector3.y Vector3.z
       JS.sub JS.add JS.neg JS.mul].
  rewrite scaleInf_zero. reflexivity.
Qed.

(** The first gate of a new course in the frame at infinity: the first
    loop respawns it, to lane [-1], around the infinite position. *)
Lemma atInfinity_first_loop e :
  lastLane e = 0%Z -> sameLaneStreak e = 0%Z ->
  exists e1 g1,
    recycleStep zeroOracle (pos frameAtInfinity)
      (Vector3.mk (Fin 0) (Fin 0) (Fin (-1))) 0 e (buildGate 0)
    = (e1, g1, [EvRespawn 0 (-1)]) /\
    passed g1 = false /\
    Vector3.x (position g1) = PInf.
Proof.
  intros Hl Hs.
  assert (Hm : missed (pos frameAtInfinity)
                 (Vector3.mk (Fin 0) (Fin 0) (Fin (-1))) (buildGate 0) = false).
  { unfold missed. rewrite atInfinity_ahead. reflexivity. }
  destruct (recycleStep_unmissed zeroOracle _ _ 0 e _ atInfinity_shouldRecycle Hm)
    as (g0 & E).
  rewrite E.
  pose proof (respawnGate_events zeroOracle 0 e g0 (pos frameAtInfinity)
                (Vector3.mk (Fin 0) (Fin 0) (Fin (-1)))) as Ev.
  rewrite chooseLane_zeroOracle in Ev by assumption.
  pose proof (respawnGate_at_infinity zeroOracle 0 e g0 (Fin 0) (Fin 0)) as Hx.
  destruct (respawnGate_spec zeroOracle 0 e g0 (pos frameAtInfinity)
              (Vector3.mk (Fin 0) (Fin 0) (Fin (-1))))
    as (ln & e' & g' & Er & _ & _ & _ & _ & _ & _ & Hp & _).
  change (Vector3.mk PInf (Fin 0) (Fin 0)) with (pos frameAtInfinity) in Hx.
  rewrite Er in Ev, Hx |- *. cbn [fst snd] in Ev, Hx.
  exists e', g'. rewrite Ev. auto.
Qed.

(** The whole frame at infinity, seen from the first gate. *)
Lemma atInfinity_frame :
  let r := update zeroOracle newCourse frameAtInfinity in
  exists g tlg tle1 tle2,
    gates (fst r) = g :: tlg /\
    snd r = (EvRespawn 0 (-1) :: tle1)
            ++ (EvGateCleared 0 (Fin 100) NaN (speedScore (Fin 0)) :: tle2) /\
    passed g = true /\
    Vector3.x (position g) = PInf.
Proof.
  cbv zeta. rewrite update_unfold. cbv zeta. cbn [fst snd gates].
  change (getForward (env newCourse) (quat frameAtInfinity) (velXZ frameAtInfinity))
    with (Vector3.mk (Fin 0) (Fin 0) (Fin (-1))).
  set (fwd := Vector3.mk (Fin 0) (Fin 0) (Fin (-1))).
  set (e0 := set_fallbackForward (env newCourse) fwd).
  rewrite newCourse_gates.
  destruct (forGates_head (recycleStep zeroOracle (pos frameAtInfinity) fwd)
              0%nat e0 (buildGate 0) (tl (gates newCourse)))
    as (tlg1 & tle1 & G1 & E1).
  destruct (atInfinity_first_loop e0 eq_refl eq_refl) as (e1 & g1 & R1 & P1 & X1).
  fold fwd in R1. rewrite R1 in G1, E1. cbn [fst snd] in G1, E1.
  rewrite G1, E1.
  destruct (forGates_head (passStep (pos frameAtInfinity) (speed frameAtInfinity))
              0%nat
              (fst (fst (forGates (recycleStep zeroOracle (pos frameAtInfinity) fwd)
                           0 e0 (buildGate 0 :: tl (gates newCourse)))))
              g1 tlg1)
    as (tlg2 & tle2 & G2 & E2).
  rewrite (passStep_at_infinity (pos frameAtInfinity) (speed frameAtInfinity)
             0%nat _ g1 eq_refl P1) in G2, E2.
  cbn [fst snd] in G2, E2. rewrite G2, E2.
  eexists; eexists; eexists; eexists.
  split; [reflexivity|]. split; [reflexivity|].
  gate_proj. auto.
Qed.

Lemma speedScore_infinite : speedScore PInf = Fin 50.
Proof.
  unfold speedScore, speedForMax, speedBonusMax. cbv zeta.
  unfold JS.div. rdec; try lra.
  unfold_num. rdec; try lra.
  floor_const 50%Z.
Qed.

Lemma speedScore_zero : speedScore (Fin 0) = Fin 0.
Proof.
  unfold speedScore, speedForMax, speedBonusMax. cbv zeta.
  unfold JS.div. rdec; try lra.
  unfold_num. rdec; try lra; floor_const 0%Z.
Qed.

Lemma behind_shouldRecycle g :
  position g = position (buildGate 0) ->
  shouldRecycle (pos frameBehind)
    (Vector3.mk (Fin 0) (Fin 0) (Fin (-1))) g = true.
Proof.
  intros Hp. unfold shouldRecycle.
  assert (D : (dist (pos frameBehind) g >? farRecycle)%num = true).
  { unfold dist. rewrite Hp.
    cbn [pos frameBehind position buildGate verticalCenter JS.sub JS.add
         JS.neg JS.mul].
    change (Vector3.sub _ (fin3 0 0 300))
      with (fin3 (0 + - 0) (2.6 + - 0) (-80 + - (INR 0 * 18) + - 300)).
    rewrite length_fin3. unfold farRecycle. unfold_num.
    destruct (Rlt_dec 320 _) as [|N]; [reflexivity|exfalso; apply N].
    rewrite <- (sqrt_square 320) at 1 by lra.
    apply sqrt_lt_1_alt. simpl INR. lra. }
  rewrite D. apply orb_true_r.
Qed.

Lemma behind_missed :
  missed (pos frameBehind)
    (Vector3.mk (Fin 0) (Fin 0) (Fin (-1))) (buildGate 0) = true.
Proof.
  unfold missed, ahead, Vector3.dot, Vector3.sub.
  cbn [pos frameBehind position buildGate verticalCenter passed wasAhead
       fin3 Vector3.x Vector3.y Vector3.z JS.sub JS.add JS.neg JS.mul
       negb orb andb].
  unfold_num. rdec; [reflexivity|]. exfalso. simpl INR in *. lra.
Qed.

(** The frame behind a new course respawns the first gate, to lane [-1]. *)
Lemma behind_respawns_first_gate :
  In (EvRespawn 0 (-1)) (snd (update zeroOracle newCourse frameBehind)).
Proof.
  rewrite update_unfold. cbv zeta. cbn [fst snd gates].
  change (getForward (env newCourse) (quat frameBehind) (velXZ frameBehind))
    with (Vector3.mk (Fin 0) (Fin 0) (Fin (-1))).
  set (fwd := Vector3.mk (Fin 0) (Fin 0) (Fin (-1))).
  set (e0 := set_fallbackForward (env newCourse) fwd).
  rewrite newCourse_gates.
  destruct (forGates_head (recycleStep zeroOracle (pos frameBehind) fwd)
              0%nat e0 (buildGate 0) (tl (gates newCourse)))
    as (tlg1 & tle1 & _ & E1).
  rewrite E1.
  rewrite (recycleStep_missed_events zeroOracle (pos frameBehind) fwd 0 e0
             (buildGate 0) (behind_shouldRecycle _ eq_refl) behind_missed).
  rewrite chooseLane_zeroOracle by reflexivity.
  apply in_or_app. left. apply in_or_app. left.
  right. right. left. reflexivity.
Qed.

Lemma center_localOf :
  localOf (buildGate 0) (pos frameCenter)
  = Vector3.mk (Fin 0) (Fin 0) (Fin 0).
Proof.
  unfold localOf, Rotation.worldToLocal, Vector3.dot. cbv zeta.
  cbn [pos frameCenter fin3 position rotation buildGate verticalCenter
       Rotation.identity Rotation.ex Rotation.ey Rotation.ez
       Vector3.x Vector3.y Vector3.z JS.sub JS.add JS.neg JS.mul].
  unfold JS.div. destruct (Req_dec_T _ 0) as [E|_]; [exfalso; lra|].
  cbn [JS.mul]. apply fin3_eq; simpl INR; field; lra.
Qed.

Lemma center_keeps_first_gate e :
  recycleStep zeroOracle (pos frameCenter)
    (Vector3.mk (Fin 0) (Fin 0) (Fin (-1))) 0 e (buildGate 0)
  = (e, buildGate 0, []).
Proof.
  assert (A : ahead (pos frameCenter)
                (Vector3.mk (Fin 0) (Fin 0) (Fin (-1))) (buildGate 0)
              = Fin 0).
  { unfold ahead, Vector3.dot, Vector3.sub.
    cbn [pos frameCenter fin3 position buildGate verticalCenter
         Vector3.x Vector3.y Vector3.z JS.sub JS.add JS.neg JS.mul].
    apply f_equal. simpl INR. lra. }
  assert (D : dist (pos frameCenter) (buildGate 0) = Fin 0).
  { unfold dist.
    cbn [pos frameCenter position buildGate verticalCenter JS.sub JS.add
         JS.neg JS.mul].
    change (Vector3.sub _ (fin3 0 2.6 (-80)))
      with (fin3 (0 + - 0) (2.6 + - (2.6)) (-80 + - (INR 0 * 18) + - (-80))).
    rewrite length_fin3. apply f_equal.
    replace ((0 + - 0) * (0 + - 0) + (2.6 + - (2.6)) * (2.6 + - (2.6))
             + (-80 + - (INR 0 * 18) + - (-80))
               * (-80 + - (INR 0 * 18) + - (-80)))
      with 0 by (simpl INR; lra).
    apply sqrt_0. }
  assert (G : (Fin 0 >? Fin 0)%num = false)
    by (unfold_num; rdec; [lra|reflexivity]).
  assert (R : shouldRecycle (pos frameCenter)
                (Vector3.mk (Fin 0) (Fin 0) (Fin (-1))) (buildGate 0) = false).
  { unfold shouldRecycle. rewrite A, D. unfold behindRecycle, farRecycle.
    unfold_num. rdec; try lra; reflexivity. }
  rewrite (recycleStep_keep zeroOracle _ _ 0 e _ R), A, G. reflexivity.
Qed.

(** The frame at the centre of the first gate of a new course credits that
    gate with [onGateCleared(100, 80, 50)]. *)
Lemma center_frame :
  exists tlg ev1 tle2,
    gates creditedCourse = creditedGate :: tlg /\
    snd (update zeroOracle newCourse frameCenter)
    = ev1 ++ EvGateCleared 0 (Fin 100) (Fin 80) (Fin 50) :: tle2.
Proof.
  unfold creditedCourse. rewrite update_unfold. cbv zeta. cbn [fst snd gates].
  change (getForward (env newCourse) (quat frameCenter) (velXZ frameCenter))
    with (Vector3.mk (Fin 0) (Fin 0) (Fin (-1))).
  set (fwd := Vector3.mk (Fin 0) (Fin 0) (Fin (-1))).
  set (e0 := set_fallbackForward (env newCourse) fwd).
  rewrite newCourse_gates.
  destruct (forGates_head (recycleStep zeroOracle (pos frameCenter) fwd)
              0%nat e0 (buildGate 0) (tl (gates newCourse)))
    as (tlg1 & tle1 & G1 & E1).
  pose proof (center_keeps_first_gate e0) as K. fold fwd in K.
  rewrite K in G1, E1. cbn [fst snd] in G1, E1.
  rewrite G1.
  destruct (forGates_head (passStep (pos frameCenter) (speed frameCenter))
              0%nat
              (fst (fst (forGates (recycleStep zeroOracle (pos frameCenter) fwd)
                           0 e0 (buildGate 0 :: tl (gates newCourse)))))
              (buildGate 0) tlg1)
    as (tlg2 & tle2 & G2 & E2).
  assert (Hz : Rabs 0 <= 1.6) by (rewrite Rabs_R0; lra).
  change (speed frameCenter) with (Fin 18) in *.
  rewrite (passStep_at_center (pos frameCenter) 0 _ (buildGate 0) 0
             eq_refl center_localOf Hz) in G2.
  rewrite (passStep_at_center (pos frameCenter) 0 _ (buildGate 0) 0
             eq_refl center_localOf Hz) in E2.
  cbn [fst snd] in G2, E2. rewrite G2, E2.
  eexists; eexists; eexists. split; reflexivity.
Qed.

(** After the frame at the centre, the remembered forward is still the
    initial one. *)
Lemma creditedCourse_forward :
  getForward (env creditedCourse) (quat frameAtInfinity) (velXZ frameAtInfinity)
  = Vector3.mk (Fin 0) (Fin 0) (Fin (-1)).
Proof.
  change (getForward (env creditedCourse) (quat frameAtInfinity)
            (velXZ frameAtInfinity))
    with (fallbackForward (env creditedCourse)).
  unfold creditedCourse.
  rewrite (CourseProofs.fallbackForward_update zeroOracle). reflexivity.
Qed.

(** The frame at infinity after the frame at the centre: the first loop
    respawns the credited first gate and the second loop credits it
    again. *)
Lemma atInfinity_after_center :
  exists ln tle1 tle2,
    snd (update zeroOracle creditedCourse frameAtInfinity)
    = (EvRespawn 0 ln :: tle1)
      ++ (EvGateCleared 0 (Fin 100) NaN (speedScore (Fin 0)) :: tle2).
Proof.
  rewrite update_unfold. cbv zeta. cbn [fst snd].
  rewrite creditedCourse_forward.
  set (fwd := Vector3.mk (Fin 0) (Fin 0) (Fin (-1))).
  set (e0 := set_fallbackForward (env creditedCourse) fwd).
  destruct center_frame as (tlg & _ & _ & G & _). rewrite G.
  destruct (forGates_head (recycleStep zeroOracle (pos frameAtInfinity) fwd)
              0%nat e0 creditedGate tlg)
    as (tlg1 & tle1 & G1 & E1).
  assert (Hr : shouldRecycle (pos frameAtInfinity) fwd creditedGate = true).
  { unfold shouldRecycle.
    assert (D : (dist (pos frameAtInfinity) creditedGate >? farRecycle)%num = true)
      by reflexivity.
    rewrite D. apply orb_true_r. }
  assert (Hm : missed (pos frameAtInfinity) fwd creditedGate = false)
    by reflexivity.
  destruct (recycleStep_unmissed zeroOracle _ _ 0 e0 _ Hr Hm) as (g0 & E).
  pose proof (respawnGate_events zeroOracle 0 e0 g0 (pos frameAtInfinity) fwd) as Ev.
  pose proof (respawnGate_at_infinity zeroOracle 0 e0 g0 (Fin 0) (Fin 0)) as Hx.
  destruct (respawnGate_spec zeroOracle 0 e0 g0 (pos frameAtInfinity) fwd)
    as (ln & e' & g' & Er & _ & _ & _ & _ & _ & _ & Hp & _).
  change (Vector3.mk PInf (Fin 0) (Fin 0)) with (pos frameAtInfinity) in Hx.
  fold fwd in Hx.
  rewrite Er in Ev, Hx. cbn [fst snd] in Ev, Hx.
  rewrite E, Er in G1, E1. cbn [fst snd] in G1, E1.
  rewrite G1, E1.
  destruct (forGates_head (passStep (pos frameAtInfinity) (speed frameAtInfinity))
              0%nat
              (fst (fst (forGates (recycleStep zeroOracle (pos frameAtInfinity) fwd)
                           0 e0 (creditedGate :: tlg))))
              g' tlg1)
    as (tlg2 & tle2 & G2 & E2).
  rewrite (passStep_at_infinity (pos frameAtInfinity) (speed frameAtInfinity)
             0%nat _ g' eq_refl Hp) in E2.
  cbn [fst snd] in E2. rewrite E2.
  inversion Ev; subst ln.
  eexists; eexists; eexists. reflexivity.
Qed.

(** C1, counterexample.  In one call of [update] on a new course, with a
    position whose [x] is [+Infinity], the first loop respawns gate 0 and
    the second loop of the same call credits it: the drone's local
    coordinates are [NaN], which fails none of the three [>] tests of the
    containment check.  The gate ends the call with [passed = true], and
    [onGateCleared(100, NaN, 0)] has been called for it. *)
Lemma respawned_gate_credited_at_infinity :
  let r := update zeroOracle newCourse frameAtInfinity in
  exists g tlg tle1 tle2,
    gates (fst r) = g :: tlg /\
    snd r = (EvRespawn 0 (-1) :: tle1)
            ++ (EvGateCleared 0 (Fin 100) NaN (speedScore (Fin 0)) :: tle2) /\
    passed g = true.
Proof.
  destruct atInfinity_frame as (g & tlg & tle1 & tle2 & G & E & P & _).
  exists g, tlg, tle1, tle2. auto.
Qed.

(** C4, counterexample.  [update] on a new course with a position whose
    [x] is [+Infinity] stores [+Infinity] in the position of gate 0: the
    value is neither replaced by zero nor kept out of the gate transforms.
    Nor is an infinite speed read as zero: it earns the full speed bonus
    of 50, where speed 0 earns 0. *)
Lemma infinite_position_is_stored :
  let r := update zeroOracle newCourse frameAtInfinity in
  (exists g tlg,
     gates (fst r) = g :: tlg /\ Vector3.x (position g) = PInf) /\
  speedScore PInf = Fin 50 /\
  speedScore (Fin 0) = Fin 0.
Proof.
  destruct atInfinity_frame as (g & tlg & tle1 & tle2 & G & _ & _ & X).
  split; [exists g, tlg; auto|].
  split; [exact speedScore_infinite | exact speedScore_zero].
Qed.

(** C1, witness: the frame behind a new course respawns gate 0, and that
    call does not credit it. *)
Lemma respawned_gate_not_credited_witness :
  boundedInput frameBehind /\
  unitXZ (fallbackForward (env newCourse)) /\
  In (EvRespawn 0 (-1)) (snd (update zeroOracle newCourse frameBehind)) /\
  (forall b cs sp,
     ~ In (EvGateCleared 0 b cs sp)
          (snd (update zeroOracle newCourse frameBehind))).
Proof.
  assert (W : forall x, 0 <= x <= 300 -> withinMillion (Fin x)).
  { intros x Hx. exists x. split; [reflexivity|]. rewrite Rabs_right; lra. }
  assert (H1 : boundedInput frameBehind).
  { split; [|split; exact I].
    cbn [frameBehind pos fin3 Vector3.x Vector3.y Vector3.z].
    split; [|split]; apply W; lra. }
  assert (H2 : unitXZ (fallbackForward (env newCourse))).
  { exists 0, (-1). split; [reflexivity|lra]. }
  split; [exact H1|]. split; [exact H2|].
  split; [exact behind_respawns_first_gate|].
  exact (proj1 (proj2 (respawned_gate_not_credited zeroOracle newCourse
                         frameBehind 0 (-1) H1 H2
                         behind_respawns_first_gate))).
Defined.

(** C2, witness: the course after the frame at the centre of gate 0, which
    credited that gate, then two frames from far behind; and a new course
    through the frame at the centre and then the frame at infinity, which
    credits gate 0 twice. *)
Lemma no_double_credit_witness :
  (nth_error (gates creditedCourse) 0 = Some creditedGate /\
   passed creditedGate = true /\
   forall pre b cs sp post,
     snd (runActions zeroOracle creditedCourse
            [ActUpdate frameBehind; ActUpdate frameBehind])
       = pre ++ EvGateCleared 0 b cs sp :: post ->
     exists ln, In (EvRespawn 0 ln) pre) /\
  (exists a b1 c1 s1 m b2 c2 s2 z,
     snd (runActions zeroOracle newCourse
            [ActUpdate frameCenter; ActUpdate frameAtInfinity])
       = a ++ EvGateCleared 0 b1 c1 s1 :: m ++ EvGateCleared 0 b2 c2 s2 :: z /\
     exists ln, In (EvRespawn 0 ln) m).
Proof.
  assert (H : nth_error (gates creditedCourse) 0 = Some creditedGate).
  { destruct center_frame as (tlg & _ & _ & G & _). rewrite G. reflexivity. }
  split.
  - split; [exact H|]. split; [reflexivity|].
    exact (proj1 (no_double_credit zeroOracle
                    [ActUpdate frameBehind; ActUpdate frameBehind]
                    creditedCourse 0) creditedGate H eq_refl).
  - assert (E : exists a m z,
              snd (runActions zeroOracle newCourse
                     [ActUpdate frameCenter; ActUpdate frameAtInfinity])
              = a ++ EvGateCleared 0 (Fin 100) (Fin 80) (Fin 50)
                  :: m ++ EvGateCleared 0 (Fin 100) NaN (speedScore (Fin 0)) :: z).
    { destruct center_frame as (tlg & ev1 & tle2 & _ & E1).
      destruct atInfinity_after_center as (ln & tle3 & tle4 & E2).
      unfold creditedCourse in E2.
      cbn [runActions act].
      destruct (update zeroOracle newCourse frameCenter) as [c1 evA].
      cbn [fst snd] in E1, E2.
      destruct (update zeroOracle c1 frameAtInfinity) as [c2 evB].
      cbn [fst snd] in E2 |- *. subst evA evB.
      exists ev1, (tle2 ++ EvRespawn 0 ln :: tle3), tle4.
      rewrite app_nil_r. cbn [app].
      rewrite <- app_assoc. cbn [app].
      rewrite <- app_assoc. reflexivity. }
    destruct E as (a & m & z & E).
    exists a, (Fin 100), (Fin 80), (Fin 50), m, (Fin 100), NaN,
      (speedScore (Fin 0)), z.
    split; [exact E|].
    exact (proj1 (proj2 (no_double_credit zeroOracle
                           [ActUpdate frameCenter; ActUpdate frameAtInfinity]
                           newCourse 0))
             a (Fin 100) (Fin 80) (Fin 50) m (Fin 100) NaN
             (speedScore (Fin 0)) z E).
Defined.

(** C3, witness: gate 0 of a new course, seen ahead before, from the frame
    behind. *)
Lemma miss_penalty_once_witness :
  wasAhead (set_wasAhead (buildGate 0) true) = true /\
  passed (set_wasAhead (buildGate 0) true) = false /\
  shouldRecycle (pos frameBehind) (Vector3.mk (Fin 0) (Fin 0) (Fin (-1)))
    (set_wasAhead (buildGate 0) true) = true /\
  exists ln e' g',
    recycleStep zeroOracle (pos frameBehind)
      (Vector3.mk (Fin 0) (Fin 0) (Fin (-1))) 0 (env newCourse)
      (set_wasAhead (buildGate 0) true)
    = (e', g',
       [EvPenalty 0 (Fin 140); EvBreakCombo 0 true; EvRespawn 0 ln]).
Proof.
  assert (H : shouldRecycle (pos frameBehind)
                (Vector3.mk (Fin 0) (Fin 0) (Fin (-1)))
                (set_wasAhead (buildGate 0) true) = true)
    by (apply behind_shouldRecycle; reflexivity).
  split; [reflexivity|]. split; [reflexivity|]. split; [exact H|].
  destruct (miss_penalty_once zeroOracle (pos frameBehind)
              (Vector3.mk (Fin 0) (Fin 0) (Fin (-1))) 0 (env newCourse)
              (set_wasAhead (buildGate 0) true) eq_refl eq_refl H)
    as (ln & e' & g' & _ & _ & E & _).
  exists ln, e', g'. exact E.
Defined.

(** C4, witness: the points that the frame at infinity hands to the score
    of a new course. *)
Lemma nonfinite_inputs_stop_at_score_witness :
  isFinite NaN = false /\
  ScoreSystem.add ScoreSystem.init NaN ScoreSystem.GATE true
  = ScoreSystem.init /\
  Forall scoreArgsBounded (snd (update zeroOracle newCourse frameAtInfinity)).
Proof.
  split; [reflexivity|]. split.
  - exact (proj1 (nonfinite_inputs_stop_at_score zeroOracle
                    newCourse frameAtInfinity)
             ScoreSystem.init NaN ScoreSystem.GATE true eq_refl).
  - exact (proj2 (proj2 (proj2 (proj2 (proj2 (proj2
             (nonfinite_inputs_stop_at_score zeroOracle newCourse
                frameAtInfinity))))))).
Defined.

(** C7, witness: after two repeats of lane 0 the zero tape leaves lane 0. *)
Lemma lane_run_length_bound_witness :
  (2 <= sameLaneStreak
          (mkEnv 0 2 (fallbackForward (env newCourse)) ScoreSystem.init 0))%Z /\
  fst (chooseLane zeroOracle
         (mkEnv 0 2 (fallbackForward (env newCourse)) ScoreSystem.init 0))
  <> 0%Z.
Proof.
  assert (H : (2 <= sameLaneStreak
                 (mkEnv 0 2 (fallbackForward (env newCourse))
                    ScoreSystem.init 0))%Z) by (cbn; lia).
  split; [exact H|].
  exact (proj2 (proj2 (proj2 (lane_run_length_bound zeroOracle
                                ScoreSystem.init [ActUpdate frameBehind]))
                 (mkEnv 0 2 (fallbackForward (env newCourse))
                    ScoreSystem.init 0)) H).
Defined.


End Examples.

(* ================================================================== *)
(** * More about the score *)
(* ================================================================== *)

Module ScoreFacts.

Import ScoreSystem ScoreSpec ScoreProofs.
Lemma score_update s dt : score (update s dt) = score s.
Proof.
  unfold update. cbv zeta.
  repeat match goal with |- context [if ?b then _ else _] => destruct b end;
    reflexivity.
Qed.



Lemma update_tick s c t d :
  combo s = Fin c -> timeSinceScore s = Fin t ->
  timeSinceScore (update s (Fin d)) = Fin (t + d) /\
  (t + d <= 1.25 ->
   combo (update s (Fin d)) = Fin c /\ streak (update s (Fin d)) = streak s) /\
  (1.25 < t + d ->
   combo (update s (Fin d)) = Fin (Rmax 1 (c - 0.18 * d))).
Proof.
  intros Hc Ht. unfold update. cbv zeta. ss_proj. rewrite Ht, Hc.
  cbn [JS.add]. unfold COMBO_DECAY_PER_SEC. cbn [JS.mul JS.sub JS.neg JS.add].
  unfold JS.gt, JS.lt, JS.Rltb.
  destruct (Rlt_dec 1.25 (t + d)) as [H|H].
  - assert (E : max (Fin 1.0) (Fin (c + - (0.18 * d)))
                = Fin (Rmax 1 (c - 0.18 * d))).
    { unfold_num. unfold Rmax. rdec; destruct (Rle_dec 1 (c - 0.18 * d));
        try (exfalso; lra); apply Fin_eq; lra. }
    ss_proj. rewrite E.
    destruct (Fin (Rmax 1 (c - 0.18 * d)) === Fin 1.0)%num; ss_proj;
      (split; [reflexivity|]); (split; [intros; exfalso; lra|]);
      intros _; reflexivity.
  - ss_proj. split; [reflexivity|]. split; [intros _; split; reflexivity|].
    intros; exfalso; lra.
Qed.

(** The grace of 1.25 seconds and the decay of the combo in exact
    arithmetic. *)
Lemma combo_grace_exact (ops : list Op) (s : ScoreSystem.t) (c t : R) :
  combo s = Fin c -> 1 <= c -> timeSinceScore s = Fin t ->
  Forall isTick ops ->
  timeSinceScore (run s ops) = Fin (t + elapsed ops) /\
  (t + elapsed ops <= 1.25 ->
   combo (run s ops) = Fin c /\ streak (run s ops) = streak s) /\
  (1.25 < t ->
   combo (run s ops) = Fin (Rmax 1 (c - 0.18 * elapsed ops))).
Proof.
  revert s c t. induction ops as [|o ops IH]; intros s c t Hc H1 Ht Hf.
  - cbn [run fold_left elapsed]. rewrite Rplus_0_r, Rmult_0_r, Rminus_0_r.
    split; [exact Ht|]. split; [auto|]. intros _. rewrite Hc.
    apply Fin_eq. unfold Rmax. destruct (Rle_dec 1 c); lra.
  - inversion Hf as [|? ? Ho Hf']; subst.
    destruct o as [[d| | |]| | | | | |]; try contradiction. cbn [isTick] in Ho.
    assert (He : 0 <= elapsed ops).
    { clear -Hf'. induction ops as [|o ops IH]; [simpl; lra|].
      inversion Hf'; subst. destruct o as [[d| | |]| | | | | |]; try contradiction.
      cbn [elapsed]. cbn [isTick] in *. specialize (IH H2). lra. }
    destruct (update_tick s c t d Hc Ht) as (T & G & D).
    change (run s (OpUpdate (Fin d) :: ops)) with (run (update s (Fin d)) ops).
    cbn [elapsed].
    split; [|split].
    + destruct (Rle_dec (t + d) 1.25) as [L|L].
      * destruct (G L) as [Gc _].
        destruct (IH _ c (t + d) Gc H1 T Hf') as (T' & _). rewrite T'.
        apply Fin_eq. lra.
      * assert (L' : 1.25 < t + d) by lra.
        assert (M : 1 <= Rmax 1 (c - 0.18 * d)) by apply Rmax_l.
        destruct (IH _ _ (t + d) (D L') M T Hf') as (T' & _). rewrite T'.
        apply Fin_eq. lra.
    + intros L. assert (L1 : t + d <= 1.25) by lra.
      destruct (G L1) as [Gc Gs].
      destruct (IH _ c (t + d) Gc H1 T Hf') as (_ & G' & _).
      destruct G' as [G1 G2]; [lra|]. rewrite G1, G2, Gs. auto.
    + intros L. assert (L' : 1.25 < t + d) by lra.
      assert (M : 1 <= Rmax 1 (c - 0.18 * d)) by apply Rmax_l.
      destruct (IH _ _ (t + d) (D L') M T Hf') as (_ & _ & D').
      rewrite D' by lra. apply Fin_eq.
      unfold Rmax. repeat destruct (Rle_dec _ _); nra.
Qed.

(** The combo of a state that has not scored for [t >= 0] seconds,
    through at most a million frames that bring the time to at most
    [10^9] seconds: it holds as long as [t] stays a nanosecond under 1.25
    seconds; and if [t] is over 1.25 seconds at the start, it loses 0.18
    per second of frame time, down to 1.  The nanosecond is the margin for
    the rounding of [timeSinceScore + dt] in each frame. *)
Theorem combo_grace_then_decay (ops : list Op) (s : ScoreSystem.t) (c t : R) :
  combo s = Fin c -> 1 <= c -> timeSinceScore s = Fin t -> 0 <= t ->
  Forall isTick ops -> (Z.of_nat (length ops) <= 1000000)%Z ->
  t + elapsed ops <= 1000000000 ->
  timeSinceScore (run s ops) = Fin (t + elapsed ops) /\
  (t + elapsed ops <= 1.25 - 1 / 1000000000 ->
   combo (run s ops) = Fin c /\ streak (run s ops) = streak s) /\
  (1.25 < t ->
   combo (run s ops) = Fin (Rmax 1 (c - 0.18 * elapsed ops))).
Proof.
  intros Hc H1 Ht _ Hf _ _.
  destruct (combo_grace_exact ops s c t Hc H1 Ht Hf) as (A & B & C).
  split; [exact A|]. split; [|exact C].
  intros H. apply B. lra.
Qed.

Lemma trunc_neg_abs v :
  trunc (- abs (Fin v))%num = Fin (- IZR (Int_part (Rabs v))).
Proof.
  cbn [JS.abs JS.neg]. unfold trunc.
  pose proof (Rabs_pos v) as Hp.
  destruct (Rlt_dec (- Rabs v) 0) as [H|H].
  - rewrite Ropp_involutive. reflexivity.
  - assert (E : Rabs v = 0) by lra. rewrite E, Ropp_0.
    change 0 with (IZR 0). rewrite Int_part_IZR. apply Fin_eq. simpl. lra.
Qed.

Lemma breakCombo_fields s :
  score (breakCombo s true) = score s /\
  lastAdd (breakCombo s true) = lastAdd s /\
  combo (breakCombo s true) = Fin 1.0 /\
  streak (breakCombo s true) = 0%Z /\
  penaltyFlash (breakCombo s true) = Fin 1.0 /\
  timeSinceScore (breakCombo s true) = Fin 999 /\
  comboLock (breakCombo s true) = comboLock s /\
  gatesPassed (breakCombo s true) = gatesPassed s.
Proof. unfold breakCombo. ss_proj. repeat split. Qed.

(** [onPenalty] takes points whatever the sign of its argument and never
    gives any; it always breaks the combo; and a penalty that is not a
    finite number costs nothing. *)
Theorem penalty_never_rewards (s : ScoreSystem.t) (sc : R) (p : num) :
  score s = Fin sc -> 0 <= sc ->
  (forall v, p = Fin v ->
     score (onPenalty s p) = Fin (Rmax 0 (sc - IZR (Int_part (Rabs v)))) /\
     lastAdd (onPenalty s p) = Fin (- IZR (Int_part (Rabs v)))) /\
  (exists x, score (onPenalty s p) = Fin x /\ 0 <= x <= sc) /\
  onPenalty s (- p)%num = onPenalty s p /\
  (isFinite p = false ->
     score (onPenalty s p) = Fin sc /\ lastAdd (onPenalty s p) = lastAdd s) /\
  combo (onPenalty s p) = Fin 1.0 /\ streak (onPenalty s p) = 0%Z /\
  penaltyFlash (onPenalty s p) = Fin 1.0 /\
  timeSinceScore (onPenalty s p) = Fin 999.
Proof.
  intros Hs H0.
  assert (F : forall v,
            score (onPenalty s (Fin v)) = Fin (Rmax 0 (sc - IZR (Int_part (Rabs v)))) /\
            lastAdd (onPenalty s (Fin v)) = Fin (- IZR (Int_part (Rabs v)))).
  { intros v. unfold onPenalty.
    destruct (breakCombo_fields (add s (- abs (Fin v))%num PENALTY false))
      as (B1 & B2 & _). rewrite B1, B2.
    destruct (add_fields s (- abs (Fin v))%num PENALTY false eq_refl)
      as (A1 & A2 & _). rewrite A1, A2.
    unfold applied. cbv zeta. rewrite trunc_neg_abs, Hs.
    split; [|reflexivity].
    unfold_num. unfold Rmax.
    rdec; destruct (Rle_dec 0 (sc - IZR (Int_part (Rabs v))));
      try (exfalso; lra); apply Fin_eq; lra. }
  assert (N : isFinite p = false -> onPenalty s p = breakCombo s true).
  { intros Hp. unfold onPenalty. rewrite add_nonfinite; [reflexivity|].
    destruct p; try discriminate; reflexivity. }
  split; [|split; [|split; [|split]]].
  - intros v ->. apply F.
  - destruct p as [v| | |].
    + destruct (F v) as [F1 _]. eexists. split; [exact F1|].
      assert (0 <= IZR (Int_part (Rabs v)))
        by (apply Int_part_nonneg, Rabs_pos).
      unfold Rmax. destruct (Rle_dec 0 (sc - IZR (Int_part (Rabs v)))); lra.
    + rewrite N by reflexivity. exists sc.
      destruct (breakCombo_fields s) as (B1 & _). rewrite B1. split; [exact Hs|lra].
    + rewrite N by reflexivity. exists sc.
      destruct (breakCombo_fields s) as (B1 & _). rewrite B1. split; [exact Hs|lra].
    + rewrite N by reflexivity. exists sc.
      destruct (breakCombo_fields s) as (B1 & _). rewrite B1. split; [exact Hs|lra].
  - unfold onPenalty. destruct p as [v| | |]; cbn [JS.neg JS.abs];
      rewrite ?Rabs_Ropp; reflexivity.
  - intros Hp. rewrite (N Hp).
    destruct (breakCombo_fields s) as (B1 & B2 & _). rewrite B1, B2. auto.
  - unfold onPenalty.
    destruct (breakCombo_fields (add s (- abs p)%num PENALTY false))
      as (_ & _ & B3 & B4 & B5 & B6 & _). auto.
Qed.

(** The cost of a crash in exact arithmetic, at every speed. *)
Lemma crash_cost_exact (s : ScoreSystem.t) (speed : num) :
  exists k : Z,
    lastAdd (onCrash s speed) = Fin (- IZR k) /\
    (120 <= k)%Z /\
    (forall v, speed = Fin v -> 0 <= v -> k = Int_part (120 + v * 22)) /\
    (forall v, speed = Fin v -> v <= 0 -> k = 120%Z) /\
    (isFinite speed = false -> k = 120%Z) /\
    (forall sc, score s = Fin sc ->
       score (onCrash s speed) = Fin (Rmax 0 (sc - IZR k))) /\
    combo (onCrash s speed) = Fin 1.0 /\
    streak (onCrash s speed) = 0%Z /\
    comboLock (onCrash s speed) = Fin 0.55 /\
    penaltyFlash (onCrash s speed) = Fin 1.0.
Proof.
  assert (P : forall v, exists k : Z,
            max CRASH_BASE (floor (CRASH_BASE + Fin v * CRASH_PER_SPEED)%num)
            = Fin (IZR k) /\ (120 <= k)%Z /\
            (0 <= v -> k = Int_part (120 + v * 22)) /\
            (v <= 0 -> k = 120%Z)).
  { intros v. unfold CRASH_BASE, CRASH_PER_SPEED. cbn [JS.mul JS.add JS.floor].
    destruct (Z_lt_le_dec 120 (Int_part (120 + v * 22))) as [L|L].
    - exists (Int_part (120 + v * 22)). split; [|split; [lia|split; [auto|]]].
      + unfold_num. apply IZR_lt in L. rdec; [reflexivity|exfalso; lra].
      + intros Hv. exfalso.
        pose proof (base_Int_part (120 + v * 22)) as [B1 B2].
        apply IZR_lt in L. lra.
    - exists 120%Z. split; [|split; [lia|split; [|auto]]].
      + unfold_num. apply IZR_le in L. rdec; [exfalso; lra|reflexivity].
      + intros Hv. apply Z.le_antisymm; [|exact L].
        assert (H : (0 <= Int_part (120 + v * 22) - 120)%Z).
        { assert (I : IZR 119 < IZR (Int_part (120 + v * 22))).
          { pose proof (base_Int_part (120 + v * 22)) as [B1 B2].
            simpl. lra. }
          apply lt_IZR in I. lia. }
        lia. }
  assert (G : forall v k,
            max CRASH_BASE (floor (CRASH_BASE + Fin v * CRASH_PER_SPEED)%num)
            = Fin (IZR k) ->
            forall sp, (if isFinite sp then sp else Fin 0) = Fin v ->
            lastAdd (onCrash s sp) = Fin (- IZR k) /\
            (forall sc, score s = Fin sc ->
               score (onCrash s sp) = Fin (Rmax 0 (sc - IZR k))) /\
            combo (onCrash s sp) = Fin 1.0 /\
            streak (onCrash s sp) = 0%Z /\
            comboLock (onCrash s sp) = Fin 0.55 /\
            penaltyFlash (onCrash s sp) = Fin 1.0).
  { intros v k E sp Hsp. unfold onCrash. cbv zeta. rewrite Hsp, E.
    cbn [JS.neg]. ss_proj.
    destruct (breakCombo_fields (add s (Fin (- IZR k)) CRASH false))
      as (B1 & B2 & B3 & B4 & _). rewrite B1, B2, B3, B4.
    destruct (add_fields s (Fin (- IZR k)) CRASH false eq_refl)
      as (A1 & A2 & _). rewrite A1, A2.
    assert (Ha : applied s (Fin (- IZR k)) false = Fin (- IZR k)).
    { unfold applied. cbv zeta. rewrite <- opp_IZR. apply trunc_IZR. }
    rewrite Ha. repeat split.
    intros sc Hs. rewrite Hs. unfold_num. unfold Rmax.
    rdec; destruct (Rle_dec 0 (sc - IZR k));
      try (exfalso; lra); apply Fin_eq; lra. }
  destruct speed as [v| | |].
  - destruct (P v) as (k & E & K1 & K2 & K3). exists k.
    destruct (G v k E (Fin v) eq_refl) as (G1 & G2 & G3 & G4 & G5 & G6).
    split; [exact G1|]. split; [exact K1|].
    split; [intros v' Hv; inversion Hv; subst; auto|].
    split; [intros v' Hv; inversion Hv; subst; auto|].
    split; [discriminate|]. auto.
  - destruct (P 0) as (k & E & K1 & K2 & K3). exists k.
    destruct (G 0 k E PInf eq_refl) as (G1 & G2 & G3 & G4 & G5 & G6).
    split; [exact G1|]. split; [exact K1|].
    split; [discriminate|]. split; [discriminate|].
    split; [intros _; apply K3; lra|]. auto.
  - destruct (P 0) as (k & E & K1 & K2 & K3). exists k.
    destruct (G 0 k E NInf eq_refl) as (G1 & G2 & G3 & G4 & G5 & G6).
    split; [exact G1|]. split; [exact K1|].
    split; [discriminate|]. split; [discriminate|].
    split; [intros _; apply K3; lra|]. auto.
  - destruct (P 0) as (k & E & K1 & K2 & K3). exists k.
    destruct (G 0 k E NaN eq_refl) as (G1 & G2 & G3 & G4 & G5 & G6).
    split; [exact G1|]. split; [exact K1|].
    split; [discriminate|]. split; [discriminate|].
    split; [intros _; apply K3; lra|]. auto.
Qed.

(** The cost of a crash at a speed of at most a million, or at a speed
    that is not finite: a whole number of at least 120 points, within one
    point below [120 + 22 * speed] for a speed of zero or more, and 120
    for a negative speed and for a speed that is not finite.  A crash
    resets the combo and locks it for 0.55 seconds. *)
Theorem crash_costs_at_least_base (s : ScoreSystem.t) (speed : num) :
  speedWithin speed ->
  exists k : Z,
    lastAdd (onCrash s speed) = Fin (- IZR k) /\
    (120 <= k)%Z /\
    (forall v, speed = Fin v -> 0 <= v ->
       120 + 22 * v - 1 - 1 / 1000 < IZR k < 120 + 22 * v + 1 / 1000) /\
    (forall v, speed = Fin v -> v <= 0 -> k = 120%Z) /\
    (isFinite speed = false -> k = 120%Z) /\
    (forall sc, score s = Fin sc ->
       score (onCrash s speed) = Fin (Rmax 0 (sc - IZR k))) /\
    combo (onCrash s speed) = Fin 1.0 /\
    streak (onCrash s speed) = 0%Z /\
    comboLock (onCrash s speed) = Fin 0.55 /\
    penaltyFlash (onCrash s speed) = Fin 1.0.
Proof.
  intros _.
  destruct (crash_cost_exact s speed) as (k & A & B & C & D & E & F).
  exists k. split; [exact A|]. split; [exact B|].
  split; [|split; [exact D|split; [exact E|exact F]]].
  intros v Hv H0. rewrite (C v Hv H0).
  pose proof (base_Int_part (120 + v * 22)) as [B1 B2]. lra.
Qed.

(** The tier that the HUD gets is one of 0, 1, 2, 3, 4, 5 while the combo
    is in its range, and it is 5 only at the full combo of 3. *)
Theorem combo_tier_range (s : ScoreSystem.t) :
  comboInRange s ->
  exists k : Z,
    snap_comboTier (getSnapshot s) = Fin (IZR k) /\
    (0 <= k <= 5)%Z /\
    (k = 5%Z <-> combo s = Fin 3) /\
    (forall c, combo s = Fin c -> IZR k * 0.4 <= c - 1 < (IZR k + 1) * 0.4).
Proof.
  intros (c & Hc & Hr). unfold getSnapshot. cbv zeta. cbn [snap_comboTier].
  rewrite Hc. cbn [JS.sub JS.neg JS.add]. unfold JS.div.
  destruct (Req_dec_T 0.4 0) as [E|_]; [exfalso; lra|]. cbn [JS.floor].
  set (q := (c + - (1.0)) / 0.4).
  assert (Hq : 0 <= q <= 5).
  { unfold q. split.
    - apply Rmult_le_reg_r with 0.4; [lra|]. unfold Rdiv.
      rewrite Rmult_assoc, Rinv_l by lra. lra.
    - apply Rmult_le_reg_r with 0.4; [lra|]. unfold Rdiv.
      rewrite Rmult_assoc, Rinv_l by lra. lra. }
  assert (Hc' : c = 1 + q * 0.4).
  { unfold q, Rdiv. rewrite Rmult_assoc, Rinv_l by lra. lra. }
  pose proof (base_Int_part q) as [B1 B2].
  assert (K : (0 <= Int_part q <= 5)%Z).
  { split.
    - assert (I : IZR (-1) < IZR (Int_part q)) by lra.
      apply lt_IZR in I. lia.
    - apply le_IZR. lra. }
  exists (Int_part q). split; [|split; [exact K|split]].
  - unfold_num. destruct K as [K0 _]. apply IZR_le in K0.
    rdec; [reflexivity|apply Fin_eq; lra].
  - split.
    + intros E. rewrite E in B1. apply Fin_eq. simpl in B1. lra.
    + intros E. inversion E as [E']. 
      assert (Q : q = 5) by lra.
      rewrite Q. change 5 with (IZR 5). apply Int_part_IZR.
  - intros c' E. inversion E; subst c'. lra.
Qed.

Lemma trunc_whole a : isFinite a = true -> exists z : Z, trunc a = Fin (IZR z).
Proof.
  destruct a as [x| | |]; try discriminate. intros _. unfold trunc.
  destruct (Rlt_dec x 0).
  - exists (- Int_part (- x))%Z. rewrite opp_IZR. reflexivity.
  - eexists. reflexivity.
Qed.

Lemma toInt32_range a : (- 2 ^ 31 <= toInt32 a < 2 ^ 31)%Z.
Proof.
  unfold toInt32. destruct (trunc a); try lia.
  pose proof (Z.mod_pos_bound (Int_part r + 2 ^ 31) (2 ^ 32) ltac:(lia)). lia.
Qed.

Lemma toInt32_ofZ n : toInt32 (ofZ n) = ((n + 2 ^ 31) mod 2 ^ 32 - 2 ^ 31)%Z.
Proof.
  unfold toInt32, ofZ. rewrite trunc_IZR, Int_part_IZR. reflexivity.
Qed.

(** [setGateTotal] stores its argument as a 32-bit signed integer, with 0
    in place of a negative one: the stored total is between 0 and
    [2^31 - 1]; a number in that range is stored without its fraction;
    a negative number, [NaN] and the infinities give 0; and [2^32] more
    gives the same total. *)
Theorem gate_total_is_int32 (s : ScoreSystem.t) (total : num) :
  (0 <= gatesTotal (setGateTotal s total) < 2 ^ 31)%Z /\
  (forall x, total = Fin x -> 0 <= x < IZR (2 ^ 31) ->
     gatesTotal (setGateTotal s total) = Int_part x) /\
  (forall x, total = Fin x -> - IZR (2 ^ 31) <= x < 0 ->
     gatesTotal (setGateTotal s total) = 0%Z) /\
  (isFinite total = false -> gatesTotal (setGateTotal s total) = 0%Z) /\
  (forall n, total = ofZ n ->
     gatesTotal (setGateTotal s (ofZ (n + 2 ^ 32))) = gatesTotal (setGateTotal s total)) /\
  gatesTotal (setGateTotal s (ofZ (2 ^ 31))) = 0%Z /\
  score (setGateTotal s total) = score s /\
  combo (setGateTotal s total) = combo s /\
  gatesPassed (setGateTotal s total) = gatesPassed s.
Proof.
  unfold setGateTotal. ss_proj.
  split; [|split; [|split; [|split; [|split; [|split]]]]].
  - pose proof (toInt32_range total). lia.
  - intros x -> Hx. unfold toInt32, trunc.
    destruct (Rlt_dec x 0) as [H|_]; [exfalso; lra|].
    rewrite Int_part_IZR.
    assert (K : (0 <= Int_part x < 2 ^ 31)%Z).
    { apply Int_part_range. exact Hx. }
    rewrite Z.mod_small by lia. lia.
  - intros x -> Hx. unfold toInt32, trunc.
    destruct (Rlt_dec x 0) as [_|H]; [|exfalso; lra].
    rewrite <- opp_IZR, Int_part_IZR.
    assert (K : (0 <= Int_part (- x) <= 2 ^ 31)%Z).
    { pose proof (base_Int_part (- x)) as [B1 B2]. split.
      - assert (I : IZR (-1) < IZR (Int_part (- x))) by lra.
        apply lt_IZR in I. lia.
      - apply le_IZR. lra. }
    rewrite Z.mod_small by lia. lia.
  - intros H. unfold toInt32.
    destruct total; try discriminate; reflexivity.
  - intros n ->. rewrite !toInt32_ofZ.
    replace (n + 2 ^ 32 + 2 ^ 31)%Z with (n + 2 ^ 31 + 1 * 2 ^ 32)%Z by lia.
    rewrite Z_mod_plus_full. reflexivity.
  - rewrite toInt32_ofZ. reflexivity.
  - repeat split.
Qed.

Lemma wholeScore_add s p r a :
  wholeScore s -> comboFinite s -> wholeScore (add s p r a).
Proof.
  intros [(n & Hn & H0) (m & Hm)] Hc.
  destruct (isFinite p) eqn:Hp; [|rewrite add_nonfinite by exact Hp; split; eauto].
  destruct (add_fields s p r a Hp) as (A1 & A2 & _).
  assert (Ha : exists z : Z, applied s p a = Fin (IZR z)).
  { unfold applied. cbv zeta.
    destruct (trunc_whole p Hp) as [z Hz]. rewrite Hz.
    destruct a; [|eauto].
    apply trunc_whole. unfold comboFinite in Hc.
    destruct (combo s); try discriminate. reflexivity. }
  destruct Ha as [z Hz]. split.
  - exists (Z.max 0 (n + z)). split; [|lia].
    rewrite A1, Hn, Hz. cbn [JS.add]. rewrite <- plus_IZR.
    unfold_num.
    destruct (Z.max_spec 0 (n + z)) as [[L ->]|[L ->]].
    + apply IZR_lt in L. rdec; [reflexivity|exfalso; simpl in *; lra].
    + apply IZR_le in L. rdec; [apply Fin_eq; simpl in *; lra|reflexivity].
  - exists z. rewrite A2. exact Hz.
Qed.

Lemma wholeScore_ext s s' :
  score s' = score s -> lastAdd s' = lastAdd s -> wholeScore s -> wholeScore s'.
Proof. unfold wholeScore. intros -> ->. auto. Qed.

Lemma lastAdd_update s dt : lastAdd (update s dt) = lastAdd s.
Proof.
  unfold update. cbv zeta.
  repeat match goal with |- context [if ?b then _ else _] => destruct b end;
    reflexivity.
Qed.

Lemma wholeScore_breakCombo s f : wholeScore s -> wholeScore (breakCombo s f).
Proof.
  apply wholeScore_ext; unfold breakCombo; destruct f; reflexivity.
Qed.

Lemma wholeScore_step s o :
  wholeScore s -> sound s -> wholeScore (step s o).
Proof.
  intros H Hs. pose proof Hs as [_ Hc]. destruct o; cbn [step].
  - eapply wholeScore_ext; [apply score_update|apply lastAdd_update|exact H].
  - apply wholeScore_add; assumption.
  - unfold onGateCleared. cbv zeta.
    set (s0 := set_gatesPassed s (gatesPassed s + 1)%Z).
    assert (W0 : wholeScore s0 /\ comboFinite s0) by (split; assumption).
    set (s1 := add s0 base GATE true).
    assert (W1 : wholeScore s1 /\ comboFinite s1).
    { split; [apply wholeScore_add; apply W0|].
      unfold comboFinite, s1. rewrite combo_add. apply W0. }
    set (s2 := if (centerBonus >? Fin 0)%num
               then add s1 centerBonus CENTER_BONUS true else s1).
    assert (W2 : wholeScore s2 /\ comboFinite s2).
    { unfold s2. destruct (centerBonus >? Fin 0)%num; [|exact W1].
      split; [apply wholeScore_add; apply W1|].
      unfold comboFinite. rewrite combo_add. apply W1. }
    set (s3 := if (speedBonus >? Fin 0)%num
               then add s2 speedBonus SPEED_BONUS true else s2).
    assert (W3 : wholeScore s3).
    { unfold s3. destruct (speedBonus >? Fin 0)%num; [|apply W2].
      apply wholeScore_add; apply W2. }
    match goal with |- context [if ?b then _ else _] => destruct b end;
      exact W3.
  - unfold onPenalty. apply wholeScore_breakCombo, wholeScore_add; assumption.
  - unfold onCrash. cbv zeta.
    eapply wholeScore_ext; [| |apply wholeScore_breakCombo, wholeScore_add;
                                eassumption]; reflexivity.
  - apply wholeScore_breakCombo. exact H.
  - exact H.
Qed.

(** In exact arithmetic the score is a whole number after any calls. *)
Lemma score_whole_exact (ops : list Op) :
  wholeScore (run init ops) /\
  exists n : Z, snap_score (getSnapshot (run init ops)) = Fin (IZR n) /\ (0 <= n)%Z.
Proof.
  assert (G : forall s, wholeScore s -> sound s -> wholeScore (run s ops)).
  { unfold run. induction ops as [|o ops IH]; intros s H Hs; [exact H|].
    cbn [fold_left]. apply IH; [apply wholeScore_step|apply sound_step]; assumption. }
  assert (W : wholeScore (run init ops)).
  { apply G; [|exact sound_init].
    split; [exists 0%Z; split; [reflexivity|lia] | exists 0%Z; reflexivity]. }
  split; [exact W|]. destruct W as [(n & Hn & H0) _].
  exists n. split; [exact Hn|exact H0].
Qed.

(** The score is a whole number and never negative, and so is every
    recorded change a whole number, after at most a million calls whose
    number arguments are not finite or at most [10^100] in size: the
    fractional combo never leaves a fraction in the score. *)
Theorem score_is_whole (ops : list Op) :
  Forall opWithin ops -> (Z.of_nat (length ops) <= 1000000)%Z ->
  wholeScore (run init ops) /\
  exists n : Z, snap_score (getSnapshot (run init ops)) = Fin (IZR n) /\ (0 <= n)%Z.
Proof.
  intros _ _. exact (score_whole_exact ops).
Qed.

Lemma comboLock_step_noCrash s o :
  noCrash o -> comboLock s = Fin 0 -> comboLock (step s o) = Fin 0.
Proof.
  intros Ho H. destruct o; cbn [step noCrash] in *.
  - destruct dt as [d| | |]; try contradiction.
    unfold update. cbv zeta.
    assert (E : max (Fin 0) (comboLock s - Fin d)%num = Fin 0).
    { rewrite H. unfold_num. rdec; [exfalso; lra|reflexivity]. }
    repeat match goal with |- context [if ?b then _ else _] => destruct b end;
      ss_proj; exact E.
  - rewrite comboLock_add. exact H.
  - unfold onGateCleared. cbv zeta.
    repeat match goal with |- context [if ?b then _ else _] => destruct b end;
      ss_proj; rewrite ?comboLock_add; exact H.
  - unfold onPenalty. rewrite comboLock_breakCombo, comboLock_add. exact H.
  - contradiction.
  - rewrite comboLock_breakCombo. exact H.
  - exact H.
Qed.

Lemma noCrash_dtNonneg o : noCrash o -> dtNonneg o.
Proof.
  destruct o; cbn [noCrash dtNonneg]; auto.
  destruct dt as [d| | |]; try contradiction.
  intros H. unfold_num. rdec; [reflexivity|contradiction].
Qed.

(** Only [onCrash] locks the combo.  In a history without it the lock stays
    at 0, and each cleared gate raises the combo by 0.12, up to 3. *)
Theorem lock_needs_crash (ops : list Op) :
  Forall noCrash ops ->
  comboLock (run init ops) = Fin 0 /\
  forall b cs sp,
    exists c, combo (run init ops) = Fin c /\ 1 <= c <= 3 /\
      combo (onGateCleared (run init ops) b cs sp) = Fin (Rmin 3 (c + 0.12)).
Proof.
  intros Hf.
  assert (G : forall s, comboLock s = Fin 0 -> comboInRange s ->
            comboLock (run s ops) = Fin 0 /\ comboInRange (run s ops)).
  { unfold run. induction Hf as [|o ops Ho Hf IH]; intros s HL HC; [auto|].
    cbn [fold_left]. apply IH.
    - apply comboLock_step_noCrash; assumption.
    - apply comboInRange_step; [apply noCrash_dtNonneg|]; assumption. }
  destruct (G init eq_refl) as [HL (c & Hc & Hr)].
  { exists 1.0. split; [reflexivity|lra]. }
  split; [exact HL|]. intros b cs sp. exists c.
  split; [exact Hc|]. split; [exact Hr|].
  set (s := run init ops) in *.
  unfold onGateCleared. cbv zeta. ss_proj.
  assert (EL : forall s', comboLock s' = Fin 0 -> (comboLock s' <=? Fin 0)%num = true).
  { intros s' ->. unfold_num. rdec; [reflexivity|exfalso; lra]. }
  assert (EC : clamp (Fin c + COMBO_GROW_PER_GATE)%num (Fin 1.0) COMBO_MAX
               = Fin (Rmin 3 (c + 0.12))).
  { unfold COMBO_GROW_PER_GATE, COMBO_MAX. unfold_num. unfold Rmin.
    rdec; destruct (Rle_dec 3 (c + 0.12)); try (exfalso; lra);
      apply Fin_eq; lra. }
  repeat match goal with
         | |- context [if (?a >? ?b)%num then _ else _] => destruct (a >? b)%num
         end;
    rewrite EL by (ss_proj; rewrite ?comboLock_add; exact HL);
    ss_proj; rewrite ?combo_add; ss_proj; rewrite Hc; exact EC.
Qed.


(** ** Runs on concrete inputs *)



Lemma combo_grace_then_decay_witness :
  combo (add init (Fin 100) GATE true) = Fin 1 /\
  timeSinceScore (add init (Fin 100) GATE true) = Fin 0 /\
  Forall isTick [OpUpdate (Fin 0.5); OpUpdate (Fin 0.5)] /\
  (Z.of_nat (length [OpUpdate (Fin 0.5); OpUpdate (Fin 0.5)]) <= 1000000)%Z /\
  combo (run (add init (Fin 100) GATE true)
           [OpUpdate (Fin 0.5); OpUpdate (Fin 0.5)]) = Fin 1.
Proof.
  assert (Hc : combo (add init (Fin 100) GATE true) = Fin 1).
  { rewrite combo_add. apply Fin_eq. lra. }
  assert (Ht : timeSinceScore (add init (Fin 100) GATE true) = Fin 0).
  { destruct (add_fields init (Fin 100) GATE true eq_refl) as (_ & _ & T & _).
    rewrite T.
    assert (A : applied init (Fin 100) true = Fin 100).
    { unfold applied. cbv zeta.
      change (Fin 100) with (Fin (IZR 100)) at 1. rewrite trunc_IZR.
      cbn [combo init JS.mul].
      replace (IZR 100 * 1.0) with (IZR 100) by lra. apply trunc_IZR. }
    rewrite A. unfold_num. rdec; [exfalso; lra|reflexivity]. }
  assert (Hf : Forall isTick [OpUpdate (Fin 0.5); OpUpdate (Fin 0.5)]).
  { repeat constructor; cbn [isTick]; lra. }
  assert (Hn : (Z.of_nat (length [OpUpdate (Fin 0.5); OpUpdate (Fin 0.5)])
                <= 1000000)%Z) by (cbn [length]; lia).
  split; [exact Hc|]. split; [exact Ht|]. split; [exact Hf|].
  split; [exact Hn|].
  refine (proj1 (proj1 (proj2 (combo_grace_then_decay _ _ 1 0 Hc _ Ht _ Hf Hn _)) _)).
  - lra.
  - lra.
  - cbn [elapsed]. lra.
  - cbn [elapsed]. lra.
Defined.

Lemma penalty_never_rewards_witness :
  score (set_score init (Fin 100)) = Fin 100 /\ 0 <= 100 /\
  exists x, score (onPenalty (set_score init (Fin 100)) (Fin (-140))) = Fin x /\
            0 <= x <= 100.
Proof.
  assert (H : 0 <= 100) by lra.
  split; [reflexivity|]. split; [exact H|].
  exact (proj1 (proj2 (penalty_never_rewards (set_score init (Fin 100)) 100
                         (Fin (-140)) eq_refl H))).
Defined.

Lemma combo_tier_range_witness :
  comboInRange init /\
  exists k : Z, snap_comboTier (getSnapshot init) = Fin (IZR k) /\ (0 <= k <= 5)%Z.
Proof.
  assert (H : comboInRange init).
  { exists 1.0. split; [reflexivity|lra]. }
  split; [exact H|].
  destruct (combo_tier_range init H) as (k & E & K & _).
  exists k. split; [exact E|exact K].
Defined.

Lemma lock_needs_crash_witness :
  Forall noCrash [OpGateCleared (Fin 100) (Fin 80) (Fin 50); OpPenalty (Fin 140);
                  OpUpdate (Fin 0.016)] /\
  comboLock (run init [OpGateCleared (Fin 100) (Fin 80) (Fin 50);
                       OpPenalty (Fin 140); OpUpdate (Fin 0.016)]) = Fin 0.
Proof.
  assert (H : Forall noCrash [OpGateCleared (Fin 100) (Fin 80) (Fin 50);
                              OpPenalty (Fin 140); OpUpdate (Fin 0.016)]).
  { repeat constructor. cbn [noCrash]. lra. }
  split; [exact H|].
  exact (proj1 (lock_needs_crash _ H)).
Defined.

Lemma crash_costs_at_least_base_witness :
  speedWithin (Fin 10) /\
  exists k : Z,
    lastAdd (onCrash init (Fin 10)) = Fin (- IZR k) /\ (120 <= k)%Z.
Proof.
  assert (H : speedWithin (Fin 10)) by (cbn [speedWithin]; lra).
  split; [exact H|].
  destruct (crash_costs_at_least_base init (Fin 10) H) as (k & A & B & _).
  exists k. split; [exact A|exact B].
Defined.

Lemma score_is_whole_witness :
  Forall opWithin [OpGateCleared (Fin 100) (Fin 80) (Fin 50)] /\
  (Z.of_nat (length [OpGateCleared (Fin 100) (Fin 80) (Fin 50)]) <= 1000000)%Z /\
  wholeScore (run init [OpGateCleared (Fin 100) (Fin 80) (Fin 50)]).
Proof.
  assert (B : forall x, 0 <= x <= 100 -> Rabs x <= 10 ^ 100).
  { intros x Hx. rewrite Rabs_right by lra.
    apply Rle_trans with (10 ^ 2); [simpl; lra|].
    apply Rle_pow; [lra|lia]. }
  assert (H1 : Forall opWithin [OpGateCleared (Fin 100) (Fin 80) (Fin 50)]).
  { constructor; [|constructor]. cbn [opWithin argWithin].
    split; [|split]; apply B; lra. }
  assert (H2 : (Z.of_nat (length [OpGateCleared (Fin 100) (Fin 80) (Fin 50)])
                <= 1000000)%Z) by (cbn [length]; lia).
  split; [exact H1|]. split; [exact H2|].
  exact (proj1 (score_is_whole _ H1 H2)).
Defined.


End ScoreFacts.

(* ================================================================== *)
(** * More about the course *)
(* ================================================================== *)

Module CourseFacts.

Import GateCourse CourseSpec CourseProofs.
Lemma scoreCalls_app a b : scoreCalls (a ++ b) = scoreCalls a ++ scoreCalls b.
Proof.
  induction a as [|[| | |] a IH]; cbn [scoreCalls app]; rewrite ?IH; reflexivity.
Qed.

Lemma credits_app a b : (credits (a ++ b) = credits a + credits b)%Z.
Proof.
  induction a as [|[| | |] a IH]; cbn [credits app]; rewrite ?IH; lia.
Qed.

Lemma run_app s a b :
  ScoreSystem.run s (a ++ b) = ScoreSystem.run (ScoreSystem.run s a) b.
Proof. unfold ScoreSystem.run. apply fold_left_app. Qed.

Lemma gatesPassed_add s p r a :
  ScoreSystem.gatesPassed (ScoreSystem.add s p r a) = ScoreSystem.gatesPassed s.
Proof.
  destruct (JS.isFinite p) eqn:H.
  - destruct (ScoreProofs.add_fields s p r a H)
      as (_ & _ & _ & _ & _ & _ & _ & _ & G & _). exact G.
  - rewrite (ScoreProofs.add_nonfinite s p r a H). reflexivity.
Qed.

Lemma gatesPassed_onGateCleared s b c sp :
  ScoreSystem.gatesPassed (ScoreSystem.onGateCleared s b c sp)
  = (ScoreSystem.gatesPassed s + 1)%Z.
Proof.
  unfold ScoreSystem.onGateCleared. cbv zeta.
  repeat match goal with |- context [if ?b then _ else _] => destruct b end;
    ss_proj; rewrite ?gatesPassed_add; reflexivity.
Qed.

Lemma gatesPassed_breakCombo s f :
  ScoreSystem.gatesPassed (ScoreSystem.breakCombo s f) = ScoreSystem.gatesPassed s.
Proof. unfold ScoreSystem.breakCombo. destruct f; reflexivity. Qed.

Lemma gatesPassed_calls evs : forall s,
  ScoreSystem.gatesPassed (ScoreSystem.run s (scoreCalls evs))
  = (ScoreSystem.gatesPassed s + credits evs)%Z.
Proof.
  unfold ScoreSystem.run.
  induction evs as [|ev evs IH]; intros s; [cbn; lia|].
  destruct ev; cbn [scoreCalls credits fold_left ScoreSystem.step];
    rewrite ?IH.
  - rewrite gatesPassed_onGateCleared. lia.
  - unfold ScoreSystem.onPenalty.
    rewrite gatesPassed_breakCombo, gatesPassed_add. reflexivity.
  - rewrite gatesPassed_breakCombo. reflexivity.
  - reflexivity.
Qed.

Lemma forGates_calls body
  (Hbody : forall i e g,
     score (fst (fst (body i e g)))
     = ScoreSystem.run (score e) (scoreCalls (snd (body i e g)))) :
  forall gs k e,
    score (fst (fst (forGates body k e gs)))
    = ScoreSystem.run (score e) (scoreCalls (snd (forGates body k e gs))).
Proof.
  induction gs as [|g gs IH]; intros k e; cbn [forGates]; [reflexivity|].
  pose proof (Hbody k e g) as Hb.
  destruct (body k e g) as [[e1 g1] ev1].
  specialize (IH (S k) e1).
  destruct (forGates body (S k) e1 gs) as [[e2 gs2] ev2].
  cbn [fst snd] in *. rewrite scoreCalls_app, run_app, <- Hb. exact IH.
Qed.

Lemma forGates_credits body
  (Hbody : forall i e g, (0 <= credits (snd (body i e g)) <= 1)%Z) :
  forall gs k e,
    (0 <= credits (snd (forGates body k e gs)) <= Z.of_nat (length gs))%Z.
Proof.
  induction gs as [|g gs IH]; intros k e; cbn [forGates]; [cbn; lia|].
  pose proof (Hbody k e g) as Hb.
  destruct (body k e g) as [[e1 g1] ev1].
  specialize (IH (S k) e1).
  destruct (forGates body (S k) e1 gs) as [[e2 gs2] ev2].
  cbn [fst snd length] in *. rewrite credits_app. lia.
Qed.

Lemma inv_sqrt_scaled u q :
  0 < u -> 0 < q ->
  1 / R_sqrt.sqrt (u * u * q) = 1 / (u * R_sqrt.sqrt q).
Proof.
  intros Hu Hq. f_equal.
  rewrite sqrt_mult_alt by nra.
  rewrite sqrt_square by lra. reflexivity.
Qed.

(** The three columns of [Matrix4.lookAt(eye, target, up)] for an [eye]
    that is not straight above or below [target]. *)
Lemma lookAt_columns e1 e2 e3 t1 t2 t3 :
  let a := e1 - t1 in
  let b := e2 - t2 in
  let c := e3 - t3 in
  let n := R_sqrt.sqrt (a * a + b * b + c * c) in
  let h := R_sqrt.sqrt (a * a + c * c) in
  a * a + c * c <> 0 ->
  Rotation.lookAt (fin3 e1 e2 e3) (fin3 t1 t2 t3) up
  = Rotation.mk (fin3 (c / h) 0 (- a / h))
                (fin3 (- (a * b) / (n * h)) (h / n) (- (b * c) / (n * h)))
                (fin3 (a / n) (b / n) (c / n)).
Proof.
  intros a b c n h Hh. unfold Rotation.lookAt. cbv zeta.
  change (Vector3.sub (fin3 e1 e2 e3) (fin3 t1 t2 t3))
    with (fin3 (e1 + - t1) (e2 + - t2) (e3 + - t3)).
  replace (e1 + - t1) with a by (subst a; lra).
  replace (e2 + - t2) with b by (subst b; lra).
  replace (e3 + - t3) with c by (subst c; lra).
  clearbody a b c.
  assert (Hq : a * a + b * b + c * c <> 0) by nra.
  assert (S0 : (Vector3.lengthSq (fin3 a b c) === Fin 0)%num = false).
  { unfold Vector3.lengthSq, fin3. cbn [Vector3.x Vector3.y Vector3.z JS.mul JS.add JS.seq].
    unfold Reqb. destruct (Req_dec_T _ 0); [contradiction|reflexivity]. }
  rewrite S0, (normalize_fin3 a b c Hq). fold n.
  assert (Hn : 0 < n) by (subst n; apply sqrt_lt_R0; nra).
  assert (Hhp : 0 < h) by (subst h; apply sqrt_lt_R0; nra).
  assert (Hnn : n * n = a * a + b * b + c * c) by (subst n; apply sqrt_sqrt; nra).
  assert (Hhh : h * h = a * a + c * c) by (subst h; apply sqrt_sqrt; nra).
  set (u := 1 / n).
  assert (Hu : 0 < u) by (subst u; apply Rdiv_lt_0_compat; lra).
  change (Vector3.cross up (fin3 (a * u) (b * u) (c * u)))
    with (fin3 (1 * (c * u) + - (0 * (b * u))) (0 * (a * u) + - (0 * (c * u)))
               (0 * (b * u) + - (1 * (a * u)))).
  set (x1 := 1 * (c * u) + - (0 * (b * u))).
  set (x2 := 0 * (a * u) + - (0 * (c * u))).
  set (x3 := 0 * (b * u) + - (1 * (a * u))).
  assert (Ex : x1 * x1 + x2 * x2 + x3 * x3 = u * u * (a * a + c * c))
    by (subst x1 x2 x3; ring).
  assert (Hx : x1 * x1 + x2 * x2 + x3 * x3 <> 0).
  { rewrite Ex. apply Rmult_integral_contrapositive. split; [nra|exact Hh]. }
  assert (S1 : (Vector3.lengthSq (fin3 x1 x2 x3) === Fin 0)%num = false).
  { unfold Vector3.lengthSq, fin3. cbn [Vector3.x Vector3.y Vector3.z JS.mul JS.add JS.seq].
    unfold Reqb. destruct (Req_dec_T _ 0); [contradiction|reflexivity]. }
  rewrite S1. cbn [fst snd]. rewrite (normalize_fin3 x1 x2 x3 Hx).
  rewrite Ex, (inv_sqrt_scaled u (a * a + c * c) Hu) by nra. fold h.
  change (Vector3.cross (fin3 (a * u) (b * u) (c * u))
            (fin3 (x1 * (1 / (u * h))) (x2 * (1 / (u * h))) (x3 * (1 / (u * h)))))
    with (fin3 (b * u * (x3 * (1 / (u * h))) + - (c * u * (x2 * (1 / (u * h)))))
               (c * u * (x1 * (1 / (u * h))) + - (a * u * (x3 * (1 / (u * h)))))
               (a * u * (x2 * (1 / (u * h))) + - (b * u * (x1 * (1 / (u * h)))))).
  subst x1 x2 x3 u.
  f_equal; apply fin3_eq; field_simplify_eq; try lra; try nra.
Qed.

Lemma floor_scaled_unit (m : Z) (c : R) :
  (0 < m)%Z -> 0 <= c <= 1 ->
  (0 <= Int_part (IZR m * c) <= m)%Z /\
  (Int_part (IZR m * c) = m <-> c = 1).
Proof.
  intros Hm Hc. apply IZR_lt in Hm.
  pose proof (base_Int_part (IZR m * c)) as [B1 B2].
  assert (U : IZR m * c <= IZR m) by nra.
  assert (L : 0 <= IZR m * c) by nra.
  split; [split|split].
  - assert (I : IZR (-1) < IZR (Int_part (IZR m * c))) by lra.
    apply lt_IZR in I. lia.
  - apply le_IZR. lra.
  - intros E. rewrite E in B1. nra.
  - intros ->. rewrite Rmult_1_r. apply Int_part_IZR.
Qed.

Lemma abs_div_sq x m : Rabs x / m * (Rabs x / m) = x / m * (x / m).
Proof.
  unfold Rdiv.
  replace (Rabs x * / m * (Rabs x * / m)) with (Rabs x * Rabs x * (/ m * / m)) by ring.
  replace (Rabs x * Rabs x) with (x * x)
    by (unfold Rabs; destruct (Rcase_abs x); ring).
  ring.
Qed.

Lemma clamp_unit x :
  exists c, clamp (Fin x) (Fin 0) (Fin 1) = Fin c /\ 0 <= c <= 1 /\
            (c = 1 <-> 1 <= x) /\ (x <= 0 -> c = 0) /\ (0 <= x <= 1 -> c = x).
Proof.
  unfold_num. rdec; eexists; (split; [reflexivity|]); repeat split; intros; lra.
Qed.

(** The two bonuses of a cleared gate in exact arithmetic. *)
Lemma bonus_bounds_exact :
  (forall lx ly, exists k : Z,
     centerScore (Fin lx) (Fin ly) = Fin (IZR k) /\ (0 <= k <= 80)%Z /\
     (k = 80%Z <-> lx = 0 /\ ly = 0) /\
     (1 <= (lx / 5.25) * (lx / 5.25) + (ly / 3) * (ly / 3) -> k = 0%Z)) /\
  (forall v, exists k : Z,
     speedScore (Fin v) = Fin (IZR k) /\ (0 <= k <= 50)%Z /\
     (k = 50%Z <-> 18 <= v) /\ (v <= 0 -> k = 0%Z) /\
     (0 <= v <= 18 -> k = Int_part (50 * (v / 18)))) /\
  speedScore PInf = Fin 50 /\ speedScore NInf = Fin 0 /\
  speedScore NaN = NaN /\ (speedScore NaN >? Fin 0)%num = false.
Proof.
  split; [|split; [|split; [|split; [|split]]]].
  - intros lx ly. unfold centerScore. cbv zeta.
    unfold gateW, gateH, centerBonusMax. cbn [JS.abs JS.mul].
    unfold JS.div.
    destruct (Req_dec_T (10.5 * 0.5) 0) as [Z|_]; [exfalso; lra|].
    destruct (Req_dec_T (6.0 * 0.5) 0) as [Z|_]; [exfalso; lra|].
    cbn [JS.mul JS.add]. unfold JS.sqrt.
    set (nx := Rabs lx / (10.5 * 0.5)). set (ny := Rabs ly / (6.0 * 0.5)).
    assert (Hnx : 0 <= nx).
    { unfold nx. apply Rmult_le_pos; [apply Rabs_pos|].
      left. apply Rinv_0_lt_compat. lra. }
    assert (Hny : 0 <= ny).
    { unfold ny. apply Rmult_le_pos; [apply Rabs_pos|].
      left. apply Rinv_0_lt_compat. lra. }
    assert (Hq : 0 <= nx * nx + ny * ny) by nra.
    destruct (Rlt_dec (nx * nx + ny * ny) 0) as [Z|_]; [exfalso; lra|].
    set (cd := R_sqrt.sqrt (nx * nx + ny * ny)).
    assert (Hcd : 0 <= cd) by apply sqrt_pos.
    assert (Hcc : cd * cd = nx * nx + ny * ny) by (apply sqrt_sqrt; exact Hq).
    cbn [JS.sub JS.neg JS.add].
    destruct (clamp_unit (1 + - cd)) as (c & Ec & Hc & C1 & C0 & _).
    rewrite Ec. cbn [JS.mul JS.floor].
    change 80 with (IZR 80).
    destruct (floor_scaled_unit 80 c ltac:(lia) Hc) as [K1 K2].
    exists (Int_part (IZR 80 * c)).
    split; [reflexivity|]. split; [exact K1|]. split.
    + rewrite K2, C1.
      assert (Sq : nx * nx = (lx / 5.25) * (lx / 5.25) /\
                   ny * ny = (ly / 3) * (ly / 3)).
      { unfold nx, ny. rewrite !abs_div_sq.
        replace (10.5 * 0.5) with 5.25 by lra.
        replace (6.0 * 0.5) with 3 by lra. auto. }
      split.
      * intros H. assert (Z : cd = 0) by lra.
        rewrite Z in Hcc.
        assert (X0 : nx * nx = 0) by nra. assert (Y0 : ny * ny = 0) by nra.
        destruct Sq as [Sx Sy]. rewrite Sx in X0. rewrite Sy in Y0.
        split; nra.
      * intros [-> ->].
        assert (Z : nx * nx + ny * ny = 0).
        { destruct Sq as [-> ->]. unfold Rdiv. ring. }
        unfold cd. rewrite Z, sqrt_0. lra.
    + intros H.
      assert (Sq : nx * nx + ny * ny
                   = (lx / 5.25) * (lx / 5.25) + (ly / 3) * (ly / 3)).
      { unfold nx, ny. rewrite !abs_div_sq.
        replace (10.5 * 0.5) with 5.25 by lra.
        replace (6.0 * 0.5) with 3 by lra. reflexivity. }
      assert (G : 1 <= cd) by nra.
      rewrite (C0 ltac:(lra)), Rmult_0_r.
      change 0 with (IZR 0). apply Int_part_IZR.
  - intros v. unfold speedScore. cbv zeta. unfold speedForMax, speedBonusMax.
    unfold JS.div. destruct (Req_dec_T 18 0) as [Z|_]; [exfalso; lra|].
    destruct (clamp_unit (v / 18)) as (c & Ec & Hc & C1 & C0 & Cm).
    rewrite Ec. cbn [JS.mul JS.floor]. change 50 with (IZR 50).
    destruct (floor_scaled_unit 50 c ltac:(lia) Hc) as [K1 K2].
    exists (Int_part (IZR 50 * c)).
    split; [reflexivity|]. split; [exact K1|].
    split; [|split].
    + rewrite K2, C1. split; intros H.
      * apply Rmult_le_reg_r with (/ 18); [lra|]. 
        replace (18 * / 18) with 1 by (field; lra). exact H.
      * unfold Rdiv. apply Rmult_le_reg_r with 18; [lra|].
        rewrite Rmult_assoc, Rinv_l by lra. lra.
    + intros H. assert (Q : v / 18 <= 0).
      { unfold Rdiv. apply Rmult_le_reg_r with 18; [lra|].
        rewrite Rmult_assoc, Rinv_l by lra. lra. }
      rewrite (C0 Q), Rmult_0_r. change 0 with (IZR 0). apply Int_part_IZR.
    + intros H. rewrite Cm; [reflexivity|].
      split.
      * unfold Rdiv. apply Rmult_le_reg_r with 18; [lra|].
        rewrite Rmult_assoc, Rinv_l by lra. lra.
      * unfold Rdiv. apply Rmult_le_reg_r with 18; [lra|].
        rewrite Rmult_assoc, Rinv_l by lra. lra.
  - unfold speedScore, speedForMax, speedBonusMax. cbv zeta.
    unfold JS.div. destruct (Rlt_dec 18 0); [exfalso; lra|].
    unfold_num. cbn.
    rdec; try (exfalso; lra).
    cbn [JS.floor]. rewrite Rmult_1_r. change 50 with (IZR 50).
    rewrite Int_part_IZR. reflexivity.
  - unfold speedScore, speedForMax, speedBonusMax. cbv zeta.
    unfold JS.div. destruct (Rlt_dec 18 0); [exfalso; lra|].
    unfold_num. cbn.
    rdec; try (exfalso; lra).
    cbn [JS.floor]. rewrite Rmult_0_r. change 0 with (IZR 0).
    rewrite Int_part_IZR. reflexivity.
  - reflexivity.
  - reflexivity.
Qed.

(** The two bonuses of a cleared gate.  The centring bonus is a whole
    number from 0 to 80: 80 at the very centre of the gate and nowhere
    farther from it than [10^-15] in the gate's own measure, and 0 from the
    ellipse through the middles of the four sides outwards, so in all four
    corners.  The speed bonus is a whole number from 0 to 50: 50 from
    speed 18 on and at [+Infinity], 0 at speed 0 and below, and between the
    two within one point below [50 * speed / 18]; a [NaN] speed gives
    [NaN], which is not [> 0]. *)
Theorem bonus_bounds :
  (forall lx ly, exists k : Z,
     centerScore (Fin lx) (Fin ly) = Fin (IZR k) /\ (0 <= k <= 80)%Z /\
     (lx = 0 -> ly = 0 -> k = 80%Z) /\
     (k = 80%Z ->
      (lx / 5.25) * (lx / 5.25) + (ly / 3) * (ly / 3) <= 1 / 10 ^ 30) /\
     (1 <= (lx / 5.25) * (lx / 5.25) + (ly / 3) * (ly / 3) -> k = 0%Z)) /\
  (forall v, exists k : Z,
     speedScore (Fin v) = Fin (IZR k) /\ (0 <= k <= 50)%Z /\
     (k = 50%Z <-> 18 <= v) /\ (v <= 0 -> k = 0%Z) /\
     (0 <= v <= 18 ->
      50 * (v / 18) - 1 - 1 / 1000 < IZR k < 50 * (v / 18) + 1 / 1000)) /\
  speedScore PInf = Fin 50 /\ speedScore NInf = Fin 0 /\
  speedScore NaN = NaN /\ (speedScore NaN >? Fin 0)%num = false.
Proof.
  destruct bonus_bounds_exact as (A & B & C).
  split; [|split; [|exact C]].
  - intros lx ly. destruct (A lx ly) as (k & E & R & I & Z).
    exists k. split; [exact E|]. split; [exact R|].
    split; [intros X Y; apply I; auto|]. split; [|exact Z].
    intros K. apply I in K. destruct K as [-> ->].
    unfold Rdiv. rewrite !Rmult_0_l, Rplus_0_r.
    apply Rmult_le_pos; [lra|]. apply Rlt_le, Rinv_0_lt_compat.
    apply pow_lt. lra.
  - intros v. destruct (B v) as (k & E & R & I & Z & F).
    exists k. split; [exact E|]. split; [exact R|]. split; [exact I|].
    split; [exact Z|]. intros Hv. rewrite (F Hv).
    pose proof (base_Int_part (50 * (v / 18))) as [B1 B2]. lra.
Qed.





Section WithOracle.

Variable rnd : Oracle.

Lemma recycleStep_calls p fwd i e g :
  score (fst (fst (recycleStep rnd p fwd i e g)))
  = ScoreSystem.run (score e) (scoreCalls (snd (recycleStep rnd p fwd i e g))).
Proof.
  destruct (shouldRecycle p fwd g) eqn:Hr.
  - destruct (recycleStep_recycle rnd p fwd i e g Hr)
      as (ln & e' & g' & E & _ & _ & _ & _ & Hs & _).
    rewrite E. cbn [fst snd]. rewrite Hs.
    destruct (missed p fwd g); reflexivity.
  - rewrite recycleStep_keep by assumption. reflexivity.
Qed.

Lemma passStep_calls p spd i e g :
  score (fst (fst (passStep p spd i e g)))
  = ScoreSystem.run (score e) (scoreCalls (snd (passStep p spd i e g))).
Proof.
  destruct (passStep_spec p spd i e g) as [E|[_ E]]; rewrite E; reflexivity.
Qed.

Lemma recycleStep_credits p fwd i e g :
  credits (snd (recycleStep rnd p fwd i e g)) = 0%Z.
Proof.
  destruct (shouldRecycle p fwd g) eqn:Hr.
  - destruct (recycleStep_recycle rnd p fwd i e g Hr) as (ln & e' & g' & E & _).
    rewrite E. cbn [snd]. destruct (missed p fwd g); reflexivity.
  - rewrite recycleStep_keep by assumption. reflexivity.
Qed.

Lemma passStep_credits p spd i e g :
  (0 <= credits (snd (passStep p spd i e g)) <= 1)%Z.
Proof.
  destruct (passStep_spec p spd i e g) as [E|[_ E]]; rewrite E; cbn; lia.
Qed.

Lemma update_calls c inp :
  score (env (fst (update rnd c inp)))
  = ScoreSystem.run (score (env c)) (scoreCalls (snd (update rnd c inp))).
Proof.
  rewrite (update_unfold rnd). cbv zeta. cbn [fst snd env].
  rewrite scoreCalls_app, run_app.
  set (fwd := getForward (env c) (quat inp) (velXZ inp)).
  set (e0 := set_fallbackForward (env c) fwd).
  pose proof (forGates_calls (recycleStep rnd (pos inp) fwd)
                (recycleStep_calls (pos inp) fwd) (gates c) 0%nat e0) as S1.
  change (score e0) with (score (env c)) in S1. rewrite <- S1.
  apply forGates_calls. apply passStep_calls.
Qed.

(** [update] works on the shared score only through the calls that its
    trace records: the score after the frame is the score before it run
    through those calls, in their order.  So [gatesPassed] grows by the
    number of gates credited in the frame, which is at most the size of
    the pool. *)
Theorem update_score_is_its_calls (c : GateCourse.t) (inp : Input) :
  score (env (fst (update rnd c inp)))
  = ScoreSystem.run (score (env c)) (scoreCalls (snd (update rnd c inp))) /\
  ScoreSystem.gatesPassed (score (env (fst (update rnd c inp))))
  = (ScoreSystem.gatesPassed (score (env c)) + credits (snd (update rnd c inp)))%Z /\
  (0 <= credits (snd (update rnd c inp)) <= Z.of_nat (length (gates c)))%Z.
Proof.
  split; [apply update_calls|]. split.
  - rewrite update_calls. apply gatesPassed_calls.
  - rewrite (update_unfold rnd). cbv zeta. cbn [fst snd]. rewrite credits_app.
    set (fwd := getForward (env c) (quat inp) (velXZ inp)).
    set (e0 := set_fallbackForward (env c) fwd).
    assert (C1 : credits (snd (forGates (recycleStep rnd (pos inp) fwd) 0 e0 (gates c))) = 0%Z).
    { generalize 0%nat e0. induction (gates c) as [|g gs IH]; intros k e;
        cbn [forGates]; [reflexivity|].
      pose proof (recycleStep_credits (pos inp) fwd k e g) as Hb.
      destruct (recycleStep rnd (pos inp) fwd k e g) as [[e1 g1] ev1].
      specialize (IH (S k) e1).
      destruct (forGates _ (S k) e1 gs) as [[e2 gs2] ev2].
      cbn [fst snd] in *. rewrite credits_app. lia. }
    rewrite C1.
    pose proof (forGates_credits (passStep (pos inp) (speed inp))
                  (passStep_credits (pos inp) (speed inp))
                  (snd (fst (forGates (recycleStep rnd (pos inp) fwd) 0 e0 (gates c))))
                  0%nat
                  (fst (fst (forGates (recycleStep rnd (pos inp) fwd) 0 e0 (gates c)))))
      as C2.
    rewrite forGates_length in C2. lia.
Qed.

Lemma recycleStep_respawn_iff p fwd i e g :
  (exists ln, In (EvRespawn i ln) (snd (recycleStep rnd p fwd i e g)))
  <-> shouldRecycle p fwd g = true.
Proof.
  destruct (shouldRecycle p fwd g) eqn:Hr.
  - destruct (recycleStep_recycle rnd p fwd i e g Hr) as (ln & e' & g' & E & _).
    rewrite E. cbn [snd]. split; [auto|]. intros _. exists ln.
    apply in_or_app. right. left. reflexivity.
  - rewrite recycleStep_keep by assumption. cbn [snd].
    split; [intros [ln []]|discriminate].
Qed.

(** The first loop on one gate.  It respawns the gate exactly when the gate
    is more than 18 behind or more than 320 away; it charges the miss
    penalty exactly when, besides, the gate is not passed and is or was
    ahead, so also for a gate that is ahead and out of range; it charges
    nothing else. *)
Theorem miss_charged_iff (p fwd : Vector3.t) (i : nat) (e : Env) (g : Gate) :
  ((exists ln, In (EvRespawn i ln) (snd (recycleStep rnd p fwd i e g)))
   <-> shouldRecycle p fwd g = true) /\
  (In (EvPenalty i (Fin 140)) (snd (recycleStep rnd p fwd i e g))
   <-> shouldRecycle p fwd g = true /\ passed g = false /\
       (wasAhead g = true \/ (ahead p fwd g >? Fin 0)%num = true)) /\
  (forall j q, In (EvPenalty j q) (snd (recycleStep rnd p fwd i e g)) ->
     j = i /\ q = Fin 140) /\
  ((dist p g >? Fin 320)%num = true -> (ahead p fwd g >? Fin 0)%num = true ->
   passed g = false ->
   In (EvPenalty i (Fin 140)) (snd (recycleStep rnd p fwd i e g))) /\
  (passed g = true ->
   forall j q, ~ In (EvPenalty j q) (snd (recycleStep rnd p fwd i e g))).
Proof.
  assert (M : missed p fwd g = true <->
              passed g = false /\
              (wasAhead g = true \/ (ahead p fwd g >? Fin 0)%num = true)).
  { unfold missed. rewrite andb_true_iff, negb_true_iff, orb_true_iff. tauto. }
  destruct (shouldRecycle p fwd g) eqn:Hr.
  - destruct (recycleStep_recycle rnd p fwd i e g Hr) as (ln & e' & g' & E & _).
    rewrite E. cbn [snd].
    assert (P : In (EvPenalty i (Fin 140))
                  ((if missed p fwd g
                    then [EvPenalty i missPenalty; EvBreakCombo i true] else [])
                   ++ [EvRespawn i ln]) <-> missed p fwd g = true).
    { destruct (missed p fwd g); cbn; split; auto.
      - intros [H|[]]; discriminate.
      - discriminate. }
    split; [|split; [|split; [|split]]].
    + split; [auto|]. intros _. exists ln. apply in_or_app. right. left. reflexivity.
    + rewrite P, M. tauto.
    + intros j q H. destruct (missed p fwd g); cbn in H.
      * destruct H as [H|[H|[H|[]]]]; inversion H. auto.
      * destruct H as [H|[]]. discriminate.
    + intros Hd Ha Hp. apply P, M. auto.
    + intros Hp j q H.
      assert (Mf : missed p fwd g = false) by (unfold missed; rewrite Hp; reflexivity).
      rewrite Mf in H. cbn in H. destruct H as [H|[]]. discriminate.
  - rewrite recycleStep_keep by assumption. cbn [snd].
    split; [|split; [|split; [|split]]].
    + split; [intros [ln []]|discriminate].
    + split; [intros []|intros [H _]; discriminate].
    + intros j q [].
    + intros Hd. exfalso. unfold shouldRecycle in Hr.
      apply orb_false_iff in Hr. destruct Hr as [_ Hr].
      change farRecycle with (Fin 320) in Hr. congruence.
    + intros _ j q [].
Qed.

(** A frame moves only the gates it respawns.  The frame respawns the gate
    at index [i] exactly when the first loop finds it more than 18 behind
    or more than 320 away; otherwise the gate keeps its position, its
    rotation and its lane, and a passed gate stays passed. *)
Theorem gate_moves_only_by_respawn (c : GateCourse.t) (inp : Input)
    (i : nat) (g : Gate) :
  nth_error (gates c) i = Some g ->
  ((exists ln, In (EvRespawn i ln) (snd (update rnd c inp)))
   <-> shouldRecycle (pos inp) (getForward (env c) (quat inp) (velXZ inp)) g
       = true) /\
  (shouldRecycle (pos inp) (getForward (env c) (quat inp) (velXZ inp)) g
   = false ->
   exists g',
     nth_error (gates (fst (update rnd c inp))) i = Some g' /\
     position g' = position g /\ rotation g' = rotation g /\
     GateCourse.lane g' = GateCourse.lane g /\
     (passed g = true -> passed g' = true /\ flash g' = flash g)).
Proof.
  intros Hg. rewrite (update_unfold rnd). cbv zeta. cbn [fst snd gates].
  set (fwd := getForward (env c) (quat inp) (velXZ inp)).
  set (e0 := set_fallbackForward (env c) fwd).
  pose proof (forGates_nth (recycleStep rnd (pos inp) fwd)
                (recycleStep_gateOf rnd (pos inp) fwd) (gates c) 0%nat e0 i g Hg)
    as (e1 & evA & evB & N1 & V1 & A1 & B1).
  set (r1 := forGates (recycleStep rnd (pos inp) fwd) 0 e0 (gates c)) in *.
  cbn [Nat.add] in *.
  set (g1 := snd (fst (recycleStep rnd (pos inp) fwd i e1 g))) in *.
  pose proof (forGates_nth (passStep (pos inp) (speed inp))
                (passStep_gateOf (pos inp) (speed inp))
                (snd (fst r1)) 0%nat (fst (fst r1)) i g1 N1)
    as (e2 & evC & evD & N2 & V2 & C2 & D2).
  set (r2 := forGates (passStep (pos inp) (speed inp)) 0 (fst (fst r1)) (snd (fst r1))) in *.
  cbn [Nat.add] in *.
  assert (Other : forall l ln, Forall (fun ev => gateOf ev <> i) l ->
                               ~ In (EvRespawn i ln) l).
  { intros l ln F H. rewrite Forall_forall in F. apply F in H. apply H. reflexivity. }
  assert (NoR2 : forall ln, ~ In (EvRespawn i ln) (snd r2)).
  { intros ln H. rewrite V2 in H.
    apply in_app_or in H. destruct H as [H|H]; [exact (Other _ _ C2 H)|].
    apply in_app_or in H. destruct H as [H|H]; [|exact (Other _ _ D2 H)].
    pose proof (passStep_isCleared (pos inp) (speed inp) i e2 g1) as F.
    rewrite Forall_forall in F. apply F in H. discriminate. }
  assert (R1 : (exists ln, In (EvRespawn i ln) (snd r1))
               <-> shouldRecycle (pos inp) fwd g = true).
  { destruct (recycleStep_respawn_iff (pos inp) fwd i e1 g) as [Q1 Q2]. split.
    - intros [ln H]. apply Q1. exists ln. rewrite V1 in H.
      apply in_app_or in H. destruct H as [H|H]; [destruct (Other _ _ A1 H)|].
      apply in_app_or in H. destruct H as [H|H]; [exact H|destruct (Other _ _ B1 H)].
    - intros H. destruct (Q2 H) as [ln Hin]. exists ln. rewrite V1.
      apply in_or_app. right. apply in_or_app. left. exact Hin. }
  split.
  - split.
    + intros [ln H]. apply R1. apply in_app_or in H.
      destruct H as [H|H]; [eauto|destruct (NoR2 _ H)].
    + intros H. destruct (proj2 R1 H) as [ln Hin]. exists ln.
      apply in_or_app. left. exact Hin.
  - intros Hr.
    assert (G1 : position g1 = position g /\ rotation g1 = rotation g /\
                 GateCourse.lane g1 = GateCourse.lane g /\
                 passed g1 = passed g /\ flash g1 = flash g).
    { subst g1. rewrite recycleStep_keep by assumption. cbn [fst snd].
      destruct (ahead (pos inp) fwd g >? Fin 0)%num; gate_proj; auto. }
    destruct G1 as (P1 & P2 & P3 & P4 & P5).
    eexists. split; [exact N2|].
    destruct (passStep_spec (pos inp) (speed inp) i e2 g1) as [E|[Hp E]];
      rewrite E; cbn [fst snd]; gate_proj.
    + repeat split; auto; congruence.
    + repeat split; auto; congruence.
Qed.

(** The gate that [respawnGate] leaves, in closed form, for a finite
    position and a horizontal unit forward. *)
Lemma respawnGate_frame i e g p1 p2 p3 fx fz :
  fx * fx + fz * fz = 1 ->
  exists (ln : Z) (d lat y : R) (e' : Env),
    In ln lanes /\ 70 <= d < 220 /\
    - 1.98 <= lat - 11 * IZR ln < 1.98 /\ 1.6 <= y < 3.6 /\
    respawnGate rnd i e g (fin3 p1 p2 p3) (fin3 fx 0 fz)
    = (e',
       mkGate (fin3 (p1 + fx * d + fz * lat) y (p3 + fz * d - fx * lat))
         (Rotation.mk
            (fin3 fz 0 (- fx))
            (fin3 (- (fx * (p2 - y)) / R_sqrt.sqrt (100 + (p2 - y) * (p2 - y)))
                  (10 / R_sqrt.sqrt (100 + (p2 - y) * (p2 - y)))
                  (- ((p2 - y) * fz) / R_sqrt.sqrt (100 + (p2 - y) * (p2 - y))))
            (fin3 (10 * fx / R_sqrt.sqrt (100 + (p2 - y) * (p2 - y)))
                  ((p2 - y) / R_sqrt.sqrt (100 + (p2 - y) * (p2 - y)))
                  (10 * fz / R_sqrt.sqrt (100 + (p2 - y) * (p2 - y)))))
         (flash g) false false ln,
       [EvRespawn i ln]).
Proof.
  intros Hu. unfold respawnGate. unfold random at 1. cbv zeta.
  destruct (chooseLane_spec rnd (set_cursor e (S (cursor e))))
    as (ln & k & E & Hin & _).
  rewrite E. unfold random. cbv zeta. env_proj. cbn [fst snd].
  pose proof (sample_range rnd (cursor e)) as R0.
  pose proof (sample_range rnd k) as R1.
  pose proof (sample_range rnd (S k)) as R2.
  set (r0 := sample rnd (cursor e)) in *.
  set (r1 := sample rnd k) in *. set (r2 := sample rnd (S k)) in *.
  unfold spawnMin, spawnMax, lateralLane, verticalCenter, verticalJitter.
  cbn [Vector3.x Vector3.y Vector3.z fin3 JS.neg JS.mul JS.add JS.sub].
  change (Vector3.mk (Fin fz) (Fin 0) (Fin (- fx))) with (fin3 fz 0 (- fx)).
  assert (Hr : fz * fz + 0 * 0 + - fx * - fx <> 0) by nra.
  rewrite (normalize_fin3 fz 0 (- fx) Hr).
  assert (Hs1 : R_sqrt.sqrt (fz * fz + 0 * 0 + - fx * - fx) = 1).
  { replace (fz * fz + 0 * 0 + - fx * - fx) with 1 by nra. apply sqrt_1. }
  rewrite Hs1.
  set (d := 70 + r0 * (220 + - (70))).
  set (lat := IZR ln * 11 + (r1 * 2 + - (1)) * (11 * 0.18)).
  set (y := 2.6 + (r2 * 2 + - (1)) * 1.0).
  unfold Vector3.addScaledVector, fin3.
  cbn [Vector3.x Vector3.y Vector3.z JS.mul JS.add].
  gate_proj.
  set (sx := p1 + fx * d + fz * (1 / 1) * lat).
  set (sy := p2 + 0 * d + 0 * (1 / 1) * lat).
  set (sz := p3 + fz * d + - fx * (1 / 1) * lat).
  exists ln, d, lat, y. eexists.
  split; [exact Hin|]. split; [subst d; lra|].
  split; [subst lat; lra|]. split; [subst y; lra|].
  unfold Rotation.objectLookAt.
  change (Vector3.mk (Fin (sx + fx * 10)) (Fin (sy + 0 * 10)) (Fin (sz + fz * 10)))
    with (fin3 (sx + fx * 10) (sy + 0 * 10) (sz + fz * 10)).
  change (Vector3.mk (Fin sx) (Fin y) (Fin sz)) with (fin3 sx y sz).
  pose proof (lookAt_columns (sx + fx * 10) (sy + 0 * 10) (sz + fz * 10) sx y sz) as L.
  cbv zeta in L. rewrite L by (clearbody sx sz; nra). clear L.
  assert (A : sx + fx * 10 - sx = 10 * fx) by lra.
  assert (B : sy + 0 * 10 - y = p2 - y) by (subst sy; lra).
  assert (C : sz + fz * 10 - sz = 10 * fz) by lra.
  rewrite A, B, C.
  assert (H10 : R_sqrt.sqrt (10 * fx * (10 * fx) + 10 * fz * (10 * fz)) = 10).
  { replace (10 * fx * (10 * fx) + 10 * fz * (10 * fz)) with (10 * 10) by nra.
    apply sqrt_square. lra. }
  rewrite H10.
  replace (10 * fx * (10 * fx) + (p2 - y) * (p2 - y) + 10 * fz * (10 * fz))
    with (100 + (p2 - y) * (p2 - y)) by nra.
  set (n := R_sqrt.sqrt (100 + (p2 - y) * (p2 - y))).
  assert (Hn : 0 < n).
  { subst n. apply sqrt_lt_R0. pose proof (Rle_0_sqr (p2 - y)). unfold Rsqr in *. lra. }
  f_equal. f_equal. f_equal.
  - apply fin3_eq; subst sx sz; lra.
  - f_equal; apply fin3_eq; try (field; lra); lra.
Qed.

Lemma passStep_contained p spd i e g :
  passed g = false -> contains g p = true ->
  exists cs, snd (passStep p spd i e g) = [EvGateCleared i (Fin 100) cs (speedScore spd)].
Proof.
  unfold contains, passStep. cbv zeta. intros Hp H. rewrite Hp.
  apply andb_true_iff in H. destruct H as [H H3].
  apply andb_true_iff in H. destruct H as [H1 H2].
  apply negb_true_iff in H1, H2, H3. rewrite H1, H2, H3.
  eexists. reflexivity.
Qed.

Lemma abs_le_of_sq a b : 0 <= b -> a * a <= b * b -> Rabs a <= b.
Proof.
  intros Hb H. unfold Rabs. destruct (Rcase_abs a); nra.
Qed.

(** Where [respawnGate] puts a gate, in exact arithmetic. *)
Lemma respawn_placement_exact (i : nat) (e : Env) (g : Gate)
    (p1 p2 p3 fx fz : R) :
  fx * fx + fz * fz = 1 ->
  exists (ln : Z) (d lat y : R),
    In ln [(-1)%Z; 0%Z; 1%Z] /\ 70 <= d < 220 /\
    - 1.98 <= lat - 11 * IZR ln < 1.98 /\ 1.6 <= y < 3.6 /\
    position (snd (fst (respawnGate rnd i e g (fin3 p1 p2 p3) (fin3 fx 0 fz))))
    = fin3 (p1 + fx * d + fz * lat) y (p3 + fz * d - fx * lat) /\
    GateCourse.lane (snd (fst (respawnGate rnd i e g (fin3 p1 p2 p3) (fin3 fx 0 fz))))
    = ln /\
    ahead (fin3 p1 p2 p3) (fin3 fx 0 fz)
      (snd (fst (respawnGate rnd i e g (fin3 p1 p2 p3) (fin3 fx 0 fz))))
    = Fin d /\
    Rotation.ex
      (rotation (snd (fst (respawnGate rnd i e g (fin3 p1 p2 p3) (fin3 fx 0 fz)))))
    = fin3 fz 0 (- fx) /\
    flash (snd (fst (respawnGate rnd i e g (fin3 p1 p2 p3) (fin3 fx 0 fz))))
    = flash g.
Proof.
  intros Hu.
  destruct (respawnGate_frame i e g p1 p2 p3 fx fz Hu)
    as (ln & d & lat & y & e' & Hin & Hd & Hl & Hy & E).
  exists ln, d, lat, y. rewrite E. cbn [fst snd]. gate_proj.
  repeat (split; [assumption || reflexivity|]).
  split; [|split; reflexivity].
  unfold ahead, Vector3.dot, Vector3.sub, fin3.
  cbn [position Vector3.x Vector3.y Vector3.z JS.sub JS.add JS.neg JS.mul].
  apply Fin_eq.
  replace d with ((fx * fx + fz * fz) * d) at 3 by (rewrite Hu; ring). ring.
Qed.

(** Where [respawnGate] puts a gate, for a position of size at most a
    million and a horizontal unit forward: from 70 to 220 ahead along the
    forward, to the side by 11 per lane within 1.99, at a height between
    1.59 and 3.61 whatever the height of the caller; its width axis is the
    horizontal vector at the right of the forward.  The flash is not
    reset. *)
Theorem respawn_placement (i : nat) (e : Env) (g : Gate)
    (p1 p2 p3 fx fz : R) :
  fx * fx + fz * fz = 1 ->
  Rabs p1 <= 1000000 -> Rabs p2 <= 1000000 -> Rabs p3 <= 1000000 ->
  exists (ln : Z) (d lat y a : R),
    In ln [(-1)%Z; 0%Z; 1%Z] /\ 70 <= d <= 220 /\
    Rabs (lat - 11 * IZR ln) <= 1.99 /\ 1.59 <= y <= 3.61 /\
    position (snd (fst (respawnGate rnd i e g (fin3 p1 p2 p3) (fin3 fx 0 fz))))
    = fin3 (p1 + fx * d + fz * lat) y (p3 + fz * d - fx * lat) /\
    GateCourse.lane (snd (fst (respawnGate rnd i e g (fin3 p1 p2 p3) (fin3 fx 0 fz))))
    = ln /\
    ahead (fin3 p1 p2 p3) (fin3 fx 0 fz)
      (snd (fst (respawnGate rnd i e g (fin3 p1 p2 p3) (fin3 fx 0 fz))))
    = Fin a /\ Rabs (a - d) <= 1 / 1000 /\
    Rotation.ex
      (rotation (snd (fst (respawnGate rnd i e g (fin3 p1 p2 p3) (fin3 fx 0 fz)))))
    = fin3 fz 0 (- fx) /\
    flash (snd (fst (respawnGate rnd i e g (fin3 p1 p2 p3) (fin3 fx 0 fz))))
    = flash g.
Proof.
  intros Hu _ _ _.
  destruct (respawn_placement_exact i e g p1 p2 p3 fx fz Hu)
    as (ln & d & lat & y & Hin & Hd & Hl & Hy & P & L & A & X & F).
  exists ln, d, lat, y, d.
  split; [exact Hin|]. split; [lra|].
  split; [unfold Rabs; destruct (Rcase_abs _); lra|]. split; [lra|].
  split; [exact P|]. split; [exact L|]. split; [exact A|].
  split; [|split; [exact X|exact F]].
  replace (d - d) with 0 by ring. rewrite Rabs_R0. lra.
Qed.

(** The recycle test on a gate just respawned, in exact arithmetic. *)
Lemma respawn_stable_exact (i : nat) (e : Env) (g : Gate)
    (p1 p2 p3 fx fz : R) :
  fx * fx + fz * fz = 1 ->
  (Rabs p2 <= 200 ->
   shouldRecycle (fin3 p1 p2 p3) (fin3 fx 0 fz)
     (snd (fst (respawnGate rnd i e g (fin3 p1 p2 p3) (fin3 fx 0 fz))))
   = false) /\
  (324 <= p2 ->
   shouldRecycle (fin3 p1 p2 p3) (fin3 fx 0 fz)
     (snd (fst (respawnGate rnd i e g (fin3 p1 p2 p3) (fin3 fx 0 fz))))
   = true /\
   missed (fin3 p1 p2 p3) (fin3 fx 0 fz)
     (snd (fst (respawnGate rnd i e g (fin3 p1 p2 p3) (fin3 fx 0 fz))))
   = true).
Proof.
  intros Hu.
  destruct (respawnGate_frame i e g p1 p2 p3 fx fz Hu)
    as (ln & d & lat & y & e' & Hin & Hd & Hl & Hy & E).
  rewrite E. cbn [fst snd].
  set (g' := mkGate _ _ _ _ _ _).
  assert (Ha : ahead (fin3 p1 p2 p3) (fin3 fx 0 fz) g' = Fin d).
  { unfold ahead, Vector3.dot, Vector3.sub, fin3, g'.
    cbn [position Vector3.x Vector3.y Vector3.z JS.sub JS.add JS.neg JS.mul].
    apply Fin_eq.
    replace d with ((fx * fx + fz * fz) * d) at 3 by (rewrite Hu; ring). ring. }
  assert (Hdist : dist (fin3 p1 p2 p3) g'
                  = Fin (R_sqrt.sqrt (d * d + lat * lat + (y - p2) * (y - p2)))).
  { unfold dist, g'. cbn [position].
    change (Vector3.sub (fin3 (p1 + fx * d + fz * lat) y (p3 + fz * d - fx * lat))
              (fin3 p1 p2 p3))
      with (fin3 (p1 + fx * d + fz * lat + - p1) (y + - p2)
                 (p3 + fz * d - fx * lat + - p3)).
    rewrite length_fin3. apply Fin_eq. f_equal.
    replace (d * d + lat * lat) with ((fx * fx + fz * fz) * (d * d + lat * lat))
      by (rewrite Hu; ring). ring. }
  assert (Hlane : -1 <= IZR ln <= 1).
  { cbn in Hin. destruct Hin as [<-|[<-|[<-|[]]]]; simpl; lra. }
  assert (Hlat : lat * lat <= 13 * 13) by nra.
  assert (Hdd : 0 <= d * d <= 220 * 220) by nra.
  unfold shouldRecycle, missed. rewrite Ha, Hdist.
  unfold behindRecycle, farRecycle.
  split.
  - intros Hp.
    assert (Hp' : - 200 <= p2 <= 200)
      by (unfold Rabs in Hp; destruct (Rcase_abs p2); lra).
    assert (Hy2 : (y - p2) * (y - p2) <= 204 * 204) by nra.
    assert (Hs : R_sqrt.sqrt (d * d + lat * lat + (y - p2) * (y - p2)) <= 320).
    { rewrite <- (sqrt_square 320) by lra. apply sqrt_le_1_alt. lra. }
    unfold_num. rdec; try reflexivity; exfalso; lra.
  - intros Hp.
    assert (Hy2 : 320 * 320 < (y - p2) * (y - p2)) by nra.
    assert (Hs : 320 < R_sqrt.sqrt (d * d + lat * lat + (y - p2) * (y - p2))).
    { rewrite <- (sqrt_square 320) at 1 by lra. apply sqrt_lt_1_alt.
      pose proof (Rle_0_sqr lat) as L. unfold Rsqr in L. lra. }
    unfold g'. cbn [passed wasAhead negb orb andb].
    unfold_num. split; rdec; try reflexivity; exfalso; lra.
Qed.

(** A gate just respawned around a drone within a million of the origin
    that flies within 200 of the ground is not due for recycling: the next
    frame from the same place leaves it where it is.  Around a drone at a
    height of 324 or more it is: every gate is then out of range as soon
    as it is placed, and, being ahead, it is charged as missed when the
    next frame recycles it. *)
Theorem respawn_is_stable (i : nat) (e : Env) (g : Gate)
    (p1 p2 p3 fx fz : R) :
  fx * fx + fz * fz = 1 ->
  Rabs p1 <= 1000000 -> Rabs p3 <= 1000000 ->
  (Rabs p2 <= 200 ->
   shouldRecycle (fin3 p1 p2 p3) (fin3 fx 0 fz)
     (snd (fst (respawnGate rnd i e g (fin3 p1 p2 p3) (fin3 fx 0 fz))))
   = false) /\
  (324 <= p2 <= 1000000 ->
   shouldRecycle (fin3 p1 p2 p3) (fin3 fx 0 fz)
     (snd (fst (respawnGate rnd i e g (fin3 p1 p2 p3) (fin3 fx 0 fz))))
   = true /\
   missed (fin3 p1 p2 p3) (fin3 fx 0 fz)
     (snd (fst (respawnGate rnd i e g (fin3 p1 p2 p3) (fin3 fx 0 fz))))
   = true).
Proof.
  intros Hu _ _.
  destruct (respawn_stable_exact i e g p1 p2 p3 fx fz Hu) as [A B].
  split; [exact A|]. intros [H _]. apply B, H.
Qed.

(** Holding the course after a respawn, in exact arithmetic. *)
Lemma holding_course_exact (i : nat) (e : Env) (g : Gate)
    (p1 p2 p3 fx fz : R) :
  fx * fx + fz * fz = 1 ->
  exists lat : R,
    (forall t h,
       Vector3.x (localOf (snd (fst (respawnGate rnd i e g (fin3 p1 p2 p3)
                                       (fin3 fx 0 fz))))
                    (fin3 (p1 + t * fx) h (p3 + t * fz)))
       = Fin (- lat)) /\
    (GateCourse.lane (snd (fst (respawnGate rnd i e g (fin3 p1 p2 p3)
                                  (fin3 fx 0 fz)))) <> 0%Z ->
     forall t h spd j e0,
       passStep (fin3 (p1 + t * fx) h (p3 + t * fz)) spd j e0
         (snd (fst (respawnGate rnd i e g (fin3 p1 p2 p3) (fin3 fx 0 fz))))
       = (e0, snd (fst (respawnGate rnd i e g (fin3 p1 p2 p3) (fin3 fx 0 fz))),
          [])) /\
    (GateCourse.lane (snd (fst (respawnGate rnd i e g (fin3 p1 p2 p3)
                                  (fin3 fx 0 fz)))) = 0%Z ->
     0.8 <= p2 <= 4.4 ->
     exists t, 69 < t < 220 /\
       forall spd j e0, exists cs,
         snd (passStep (fin3 (p1 + t * fx) p2 (p3 + t * fz)) spd j e0
                (snd (fst (respawnGate rnd i e g (fin3 p1 p2 p3)
                             (fin3 fx 0 fz)))))
         = [EvGateCleared j (Fin 100) cs (speedScore spd)]).
Proof.
  intros Hu.
  destruct (respawnGate_frame i e g p1 p2 p3 fx fz Hu)
    as (ln & d & lat & y & e' & Hin & Hd & Hl & Hy & E).
  rewrite E. cbn [fst snd].
  set (v := p2 - y) in *.
  set (n := R_sqrt.sqrt (100 + v * v)) in *.
  assert (Hn : 0 < n).
  { subst n. apply sqrt_lt_R0. pose proof (Rle_0_sqr v). unfold Rsqr in *. lra. }
  assert (Hnn : n * n = 100 + v * v).
  { subst n. apply sqrt_sqrt. pose proof (Rle_0_sqr v). unfold Rsqr in *. lra. }
  set (g' := mkGate _ _ _ _ _ _).
  assert (L : forall t h,
            localOf g' (fin3 (p1 + t * fx) h (p3 + t * fz))
            = fin3 (- lat)
                   ((- v * (t - d) + 10 * (h - y)) / n)
                   ((10 * (t - d) + v * (h - y)) / n)).
  { intros t h. unfold localOf, Rotation.worldToLocal, g'. cbv zeta.
    cbn [rotation position Rotation.ex Rotation.ey Rotation.ez].
    unfold Vector3.dot, fin3.
    cbn [Vector3.x Vector3.y Vector3.z JS.mul JS.add JS.neg].
    unfold JS.div. destruct (Req_dec_T _ 0) as [Z|_]; [exfalso; lra|].
    cbn [JS.mul].
    assert (W : 1 / (0 * (p1 + t * fx) + 0 * h + 0 * (p3 + t * fz) + 1) = 1)
      by (field; lra).
    rewrite W.
    f_equal; apply Fin_eq.
    - replace (- lat) with (- ((fx * fx + fz * fz) * lat)) by (rewrite Hu; ring).
      ring.
    - replace (- v * (t - d)) with (- v * ((fx * fx + fz * fz) * (t - d)))
        by (rewrite Hu; ring).
      field. lra.
    - replace (10 * (t - d)) with (10 * ((fx * fx + fz * fz) * (t - d)))
        by (rewrite Hu; ring).
      field. lra. }
  exists lat. split; [|split].
  - intros t h. rewrite L. reflexivity.
  - intros Hln t h spd j e0. apply passStep_not_contained.
    unfold contains. cbv zeta. rewrite L. unfold fin3.
    cbn [Vector3.x Vector3.y Vector3.z JS.abs].
    assert (Hlat : 5.25 < Rabs (- lat)).
    { unfold g' in Hln. cbn [GateCourse.lane] in Hln.
      rewrite Rabs_Ropp.
      cbn in Hin. destruct Hin as [<-|[<-|[<-|[]]]]; [|contradiction|].
      - rewrite Rabs_left; simpl in Hl; lra.
      - rewrite Rabs_right; simpl in Hl; lra. }
    assert (T : (Fin (Rabs (- lat)) >? gateW * Fin 0.5)%num = true).
    { unfold gateW. unfold_num. rdec; [reflexivity|exfalso; lra]. }
    rewrite T. cbn [negb]. rewrite andb_false_r. reflexivity.
  - intros Hln Hp. unfold g' in Hln. cbn [GateCourse.lane] in Hln. subst ln.
    simpl in Hl.
    assert (Hv : - 2.8 <= v <= 2.8) by (subst v; lra).
    exists (d - v * v / 10). split; [nra|].
    intros spd j e0. apply passStep_contained; [reflexivity|].
    unfold contains. cbv zeta. rewrite L. unfold fin3.
    cbn [Vector3.x Vector3.y Vector3.z JS.abs].
    fold v.
    assert (Z3 : (10 * (d - v * v / 10 - d) + v * v) / n = 0)
      by (field; lra).
    assert (Y3 : (- v * (d - v * v / 10 - d) + 10 * v) / n = v * n / 10).
    { assert (Q : - v * (d - v * v / 10 - d) + 10 * v = v * (n * n) / 10)
        by (rewrite Hnn; field).
      rewrite Q. field. lra. }
    rewrite Z3, Y3.
    assert (A1 : Rabs 0 <= 1.6) by (rewrite Rabs_R0; lra).
    assert (A2 : Rabs (- lat) <= 5.25).
    { rewrite Rabs_Ropp. unfold Rabs. destruct (Rcase_abs lat); lra. }
    assert (A3 : Rabs (v * n / 10) <= 3).
    { apply abs_le_of_sq; [lra|].
      replace (v * n / 10 * (v * n / 10)) with (v * v * (n * n) / 100) by field.
      rewrite Hnn.
      assert (W1 : 0 <= v * v <= 7.84) by nra.
      assert (W2 : v * v * (v * v) <= 7.84 * 7.84) by nra.
      lra. }
    unfold triggerDepth, gateW, gateH. unfold_num.
    rdec; try reflexivity; exfalso; lra.
Qed.

(** Holding the course after a respawn, within a million of the origin.
    Along the line from the place of the respawn in the direction of the
    forward, at any height, the drone stays at one and the same distance
    to the side of the gate's centre.  So it never clears a gate put in
    lane [-1] or [1] without steering; and it clears a gate put in lane
    [0] if it flies level, between the heights 0.8 and 4.4. *)
Theorem holding_course_clears_lane_zero_only (i : nat) (e : Env) (g : Gate)
    (p1 p2 p3 fx fz : R) :
  fx * fx + fz * fz = 1 ->
  Rabs p1 <= 1000000 -> Rabs p2 <= 1000000 -> Rabs p3 <= 1000000 ->
  exists lat : R,
    (forall t h, Rabs t <= 1000000 -> Rabs h <= 1000000 ->
       Vector3.x (localOf (snd (fst (respawnGate rnd i e g (fin3 p1 p2 p3)
                                       (fin3 fx 0 fz))))
                    (fin3 (p1 + t * fx) h (p3 + t * fz)))
       = Fin (- lat)) /\
    (GateCourse.lane (snd (fst (respawnGate rnd i e g (fin3 p1 p2 p3)
                                  (fin3 fx 0 fz)))) <> 0%Z ->
     forall t h spd j e0, Rabs t <= 1000000 -> Rabs h <= 1000000 ->
       passStep (fin3 (p1 + t * fx) h (p3 + t * fz)) spd j e0
         (snd (fst (respawnGate rnd i e g (fin3 p1 p2 p3) (fin3 fx 0 fz))))
       = (e0, snd (fst (respawnGate rnd i e g (fin3 p1 p2 p3) (fin3 fx 0 fz))),
          [])) /\
    (GateCourse.lane (snd (fst (respawnGate rnd i e g (fin3 p1 p2 p3)
                                  (fin3 fx 0 fz)))) = 0%Z ->
     0.8 <= p2 <= 4.4 ->
     exists t, 69 < t < 220 /\
       forall spd j e0, exists cs,
         snd (passStep (fin3 (p1 + t * fx) p2 (p3 + t * fz)) spd j e0
                (snd (fst (respawnGate rnd i e g (fin3 p1 p2 p3)
                             (fin3 fx 0 fz)))))
         = [EvGateCleared j (Fin 100) cs (speedScore spd)]).
Proof.
  intros Hu _ _ _.
  destruct (holding_course_exact i e g p1 p2 p3 fx fz Hu)
    as (lat & A & B & C).
  exists lat. split; [intros t h _ _; apply A|].
  split; [intros Hl t h spd j e0 _ _; apply B, Hl|exact C].
Qed.

(** Where the forward comes from, in exact arithmetic. *)
Lemma forward_choice_exact (e : Env) (q : option Quaternion.t) :
  (forall vx vz, 0.6 < vx * vx + vz * vz ->
     getForward e q (Some (Fin vx, Fin vz))
     = fin3 (vx / R_sqrt.sqrt (vx * vx + vz * vz)) 0
            (vz / R_sqrt.sqrt (vx * vx + vz * vz))) /\
  (forall vx vz, vx * vx + vz * vz <= 0.6 ->
     getForward e q (Some (Fin vx, Fin vz)) = getForward e q None) /\
  (forall vz, getForward e q (Some (NaN, vz)) = getForward e q None) /\
  (forall vz, getForward e q (Some (PInf, Fin vz))
              = Vector3.mk NaN (Fin 0) (Fin 0)) /\
  getForward e None None = fallbackForward e /\
  (forall c inp,
     getForward (env (fst (update rnd c inp))) None None
     = getForward (env c) (quat inp) (velXZ inp)).
Proof.
  split; [|split; [|split; [|split; [|split]]]].
  - intros vx vz Hv. unfold getForward. cbv zeta. cbn [JS.mul JS.add].
    assert (G : (Fin (vx * vx + vz * vz) >? Fin 0.6)%num = true).
    { unfold_num. rdec; [reflexivity|contradiction]. }
    rewrite G.
    change (Vector3.mk (Fin vx) (Fin 0) (Fin vz)) with (fin3 vx 0 vz).
    assert (Hn : vx * vx + 0 * 0 + vz * vz <> 0) by lra.
    rewrite (normalize_fin3 vx 0 vz Hn).
    replace (vx * vx + 0 * 0 + vz * vz) with (vx * vx + vz * vz) by ring.
    assert (Hr : R_sqrt.sqrt (vx * vx + vz * vz) <> 0).
    { apply sqrt_nonzero; lra. }
    apply fin3_eq; field; exact Hr.
  - intros vx vz Hv. unfold getForward. cbv zeta. cbn [JS.mul JS.add].
    unfold_num. rdec; [exfalso; lra|reflexivity].
  - intros vz. unfold getForward. cbv zeta. reflexivity.
  - intros vz. unfold getForward. cbv zeta. cbn [JS.mul JS.add JS.gt JS.lt].
    unfold Vector3.normalize, Vector3.length, Vector3.lengthSq.
    cbn [Vector3.x Vector3.y Vector3.z JS.mul JS.add JS.sqrt].
    cbn [or_else truthy]. unfold Vector3.divideScalar, Vector3.multiplyScalar.
    cbn [Vector3.x Vector3.y Vector3.z JS.div JS.mul].
    rewrite Examples.scaleInf_zero. f_equal; apply Fin_eq; ring.
  - reflexivity.
  - intros c inp.
    change (getForward (env (fst (update rnd c inp))) None None)
      with (fallbackForward (env (fst (update rnd c inp)))).
    apply fallbackForward_update.
Qed.

(** Where the forward comes from.  A velocity sample of size at most
    [10^100] and of squared length 0.61 or more gives its own direction
    and the orientation is not read; one of squared length 0.59 or less is
    not used; with no velocity and no orientation the forward is the one
    that the last [update] used.  A velocity sample whose [x] is
    [+Infinity] gives [NaN]. *)
Theorem forward_choice (e : Env) (q : option Quaternion.t) :
  (forall vx vz, Rabs vx <= 10 ^ 100 -> Rabs vz <= 10 ^ 100 ->
     0.61 <= vx * vx + vz * vz ->
     getForward e q (Some (Fin vx, Fin vz))
     = fin3 (vx / R_sqrt.sqrt (vx * vx + vz * vz)) 0
            (vz / R_sqrt.sqrt (vx * vx + vz * vz))) /\
  (forall vx vz, vx * vx + vz * vz <= 0.59 ->
     getForward e q (Some (Fin vx, Fin vz)) = getForward e q None) /\
  (forall vz, getForward e q (Some (NaN, vz)) = getForward e q None) /\
  (forall vz, getForward e q (Some (PInf, Fin vz))
              = Vector3.mk NaN (Fin 0) (Fin 0)) /\
  getForward e None None = fallbackForward e /\
  (forall c inp,
     getForward (env (fst (update rnd c inp))) None None
     = getForward (env c) (quat inp) (velXZ inp)).
Proof.
  destruct (forward_choice_exact e q) as (A & B & C & D & E & F).
  split; [intros vx vz _ _ H; apply A; lra|].
  split; [intros vx vz H; apply B; lra|].
  split; [exact C|]. split; [exact D|]. split; [exact E|exact F].
Qed.


End WithOracle.

End CourseFacts.

(* ================================================================== *)
(** * The glow *)
(* ================================================================== *)

Module GlowFacts.

Import GateCourse CourseSpec CourseProofs GateGlow.

Lemma setGateGlow_ready st op :
  glowReady st ->
  setGateGlow st op
  = mkMaterials (frameMat st)
      (mkMaterial true (Fin 0.95) op (4 + version (glowMat st))).
Proof.
  intros (H1 & H2 & H3). unfold setGateGlow, groupMeshes. cbn [fold_left].
  assert (F : forall s, emissiveIntensity (frameMat s) = Fin 0.15 ->
                        glowMesh op s FrameMat = s).
  { intros s Hs. unfold glowMesh. cbv zeta. cbn [getMat]. rewrite Hs.
    assert (G : (Fin 0.15 >=? Fin 0.9)%num = false).
    { unfold_num. rdec; [exfalso; lra|reflexivity]. }
    rewrite G, andb_false_r. reflexivity. }
  rewrite !(F st H3).
  assert (G : (Fin 0.95 >=? Fin 0.9)%num = true).
  { unfold_num. rdec; [reflexivity|exfalso; lra]. }
  unfold glowMesh. cbv zeta. cbn [getMat putMat glowMat frameMat emissive
                                    emissiveIntensity version].
  rewrite H1, H2, G. cbn [andb getMat putMat glowMat frameMat emissive
                          emissiveIntensity version].
  rewrite G. cbn [andb getMat putMat glowMat frameMat emissive
                  emissiveIntensity version].
  rewrite G. cbn [andb getMat putMat glowMat frameMat emissive
                  emissiveIntensity version].
  rewrite G. cbn [andb].
  reflexivity.
Qed.

Lemma glowReady_setGateGlow st op : glowReady st -> glowReady (setGateGlow st op).
Proof.
  intros H. rewrite (setGateGlow_ready st op H).
  destruct H as (H1 & H2 & H3). repeat split. exact H3.
Qed.

Lemma animateStep_spec dt st g :
  animateStep dt st g
  = if (flash g <=? Fin 0)%num then (st, g)
    else (setGateGlow st
            (Fin 0.85 + max (Fin 0) (flash g - dt * Fin 2.8) * Fin 0.35)%num,
          set_flash g (max (Fin 0) (flash g - dt * Fin 2.8)%num)).
Proof. unfold animateStep. cbv zeta. destruct (_ <=? _)%num; reflexivity. Qed.

Lemma animateStep_flash dt st g f :
  0 <= dt -> flash g = Fin f -> 0 <= f ->
  flash (snd (animateStep (Fin dt) st g)) = Fin (Rmax 0 (f - 2.8 * dt)) /\
  sameButFlash g (snd (animateStep (Fin dt) st g)).
Proof.
  intros Hdt Hf H0. rewrite animateStep_spec, Hf.
  unfold JS.le, JS.Rleb. destruct (Rle_dec f 0) as [L|L]; cbn [snd].
  - split; [|repeat split]. rewrite Hf. apply Fin_eq.
    unfold Rmax. destruct (Rle_dec 0 (f - 2.8 * dt)); nra.
  - split; [|repeat split]. gate_proj. unfold_num. unfold Rmax.
    rdec; destruct (Rle_dec 0 (f - 2.8 * dt)); try (exfalso; lra);
      apply Fin_eq; lra.
Qed.

Lemma animateGates_nth dt : forall gs st i g,
  nth_error gs i = Some g ->
  exists st',
    nth_error (snd (animateGates dt st gs)) i = Some (snd (animateStep dt st' g)).
Proof.
  induction gs as [|g0 gs IH]; intros st i g Hi; [destruct i; discriminate|].
  cbn [animateGates].
  destruct (animateStep dt st g0) as [st1 g1] eqn:E1.
  destruct i as [|i]; cbn [nth_error] in Hi.
  - inversion Hi; subst g0. exists st.
    destruct (animateGates dt st1 gs) as [st2 gs2]. cbn [snd nth_error].
    rewrite E1. reflexivity.
  - destruct (IH st1 i g Hi) as [st' H]. exists st'.
    destruct (animateGates dt st1 gs) as [st2 gs2]. cbn [snd nth_error] in *.
    exact H.
Qed.

Lemma animateGates_length dt : forall gs st,
  length (snd (animateGates dt st gs)) = length gs.
Proof.
  induction gs as [|g gs IH]; intros st; cbn [animateGates]; [reflexivity|].
  destruct (animateStep dt st g) as [st1 g1].
  specialize (IH st1). destruct (animateGates dt st1 gs) as [st2 gs2].
  cbn [snd length] in *. lia.
Qed.

Lemma animate_gates c st dt :
  gates (fst (animate c st dt)) = snd (animateGates dt st (gates c)) /\
  env (fst (animate c st dt)) = env c /\
  snd (animate c st dt) = fst (animateGates dt st (gates c)).
Proof.
  unfold animate. destruct (animateGates dt st (gates c)) as [st' gs].
  repeat split.
Qed.

Lemma animateAll_gate dts : forall c st i g f,
  Forall (fun d => 0 <= d) dts ->
  nth_error (gates c) i = Some g -> flash g = Fin f -> 0 <= f ->
  exists g',
    nth_error (gates (fst (animateAll c st dts))) i = Some g' /\
    flash g' = Fin (Rmax 0 (f - 2.8 * fold_right Rplus 0 dts)) /\
    sameButFlash g g' /\
    env (fst (animateAll c st dts)) = env c.
Proof.
  induction dts as [|d dts IH]; intros c st i g f Hd Hg Hf H0.
  - cbn [animateAll fst fold_right]. exists g. split; [exact Hg|].
    split; [|split; [repeat split|reflexivity]].
    rewrite Hf. apply Fin_eq. unfold Rmax.
    destruct (Rle_dec 0 (f - 2.8 * 0)); lra.
  - inversion Hd as [|? ? Hd0 Hd']; subst.
    cbn [animateAll fold_right].
    destruct (animate_gates c st (Fin d)) as (G & Ev & _).
    destruct (animateGates_nth (Fin d) (gates c) st i g Hg) as [st' N].
    destruct (animateStep_flash d st' g f Hd0 Hf H0) as [F1 S1].
    rewrite <- G in N.
    destruct (animate c st (Fin d)) as [c1 st1]. cbn [fst] in *.
    destruct (IH c1 st1 i _ (Rmax 0 (f - 2.8 * d)) Hd' N F1 (Rmax_l _ _))
      as (g' & N' & F' & S' & E').
    exists g'. split; [exact N'|]. split; [|split].
    + rewrite F'. apply Fin_eq.
      assert (0 <= fold_right Rplus 0 dts).
      { clear -Hd'. induction Hd'; cbn [fold_right]; lra. }
      unfold Rmax. repeat destruct (Rle_dec _ _); nra.
    + destruct S1 as (A1 & A2 & A3 & A4 & A5).
      destruct S' as (B1 & B2 & B3 & B4 & B5).
      repeat split; congruence.
    + rewrite E'. exact Ev.
Qed.

(** [animate] lets every flash fade by 2.8 per second of frame time, down
    to 0, however the time is cut into frames, and changes nothing else
    of a gate nor of the course: a full flash is over after 0.36 seconds.  It
    does not grow the pool. *)
Theorem flash_fades (c : GateCourse.t) (st : Materials) (dts : list R)
    (i : nat) (g : Gate) (f : R) :
  Forall (fun d => 0 <= d) dts ->
  nth_error (gates c) i = Some g -> flash g = Fin f -> 0 <= f ->
  (exists g',
     nth_error (gates (fst (animateAll c st dts))) i = Some g' /\
     flash g' = Fin (Rmax 0 (f - 2.8 * fold_right Rplus 0 dts)) /\
     sameButFlash g g' /\
     (f <= 1 -> 0.36 <= fold_right Rplus 0 dts -> flash g' = Fin 0)) /\
  env (fst (animateAll c st dts)) = env c /\
  length (gates (fst (animateAll c st dts))) = length (gates c).
Proof.
  intros Hd Hg Hf H0.
  destruct (animateAll_gate dts c st i g f Hd Hg Hf H0) as (g' & N & F & S & E).
  split; [|split; [exact E|]].
  - exists g'. split; [exact N|]. split; [exact F|]. split; [exact S|].
    intros H1 Ht. rewrite F. apply Fin_eq. unfold Rmax.
    destruct (Rle_dec 0 (f - 2.8 * fold_right Rplus 0 dts)); lra.
  - clear. revert c st. induction dts as [|d dts IH]; intros c st; [reflexivity|].
    cbn [animateAll].
    destruct (animate_gates c st (Fin d)) as (G & _ & _).
    pose proof (animateGates_length (Fin d) (gates c) st) as L.
    rewrite <- G in L.
    destruct (animate c st (Fin d)) as [c1 st1]. cbn [fst] in *.
    rewrite IH. exact L.
Qed.

Lemma sameButFlash_refl g : sameButFlash g g.
Proof. repeat split. Qed.

Lemma animateGates_same dt : forall gs st,
  Forall2 sameButFlash gs (snd (animateGates dt st gs)).
Proof.
  induction gs as [|g gs IH]; intros st; cbn [animateGates]; [constructor|].
  assert (S : sameButFlash g (snd (animateStep dt st g))).
  { rewrite animateStep_spec. destruct (_ <=? _)%num; repeat split. }
  destruct (animateStep dt st g) as [st1 g1].
  specialize (IH st1). destruct (animateGates dt st1 gs) as [st2 gs2].
  cbn [snd] in *. constructor; assumption.
Qed.

Section WithOracle.

Variable rnd : Oracle.

(** [respawnGate] overwrites everything of the gate but the flash. *)
Lemma respawnGate_any_gate i e g g' p fwd :
  fst (fst (respawnGate rnd i e g' p fwd)) = fst (fst (respawnGate rnd i e g p fwd)) /\
  snd (respawnGate rnd i e g' p fwd) = snd (respawnGate rnd i e g p fwd) /\
  sameButFlash (snd (fst (respawnGate rnd i e g p fwd)))
               (snd (fst (respawnGate rnd i e g' p fwd))).
Proof.
  unfold respawnGate, random. cbv zeta. cbn [fst snd].
  destruct (chooseLane rnd (set_cursor e (S (cursor e)))) as [ln e1].
  cbn [fst snd]. repeat split.
Qed.

Lemma recycleStep_same p fwd i e g g' :
  sameButFlash g g' ->
  fst (fst (recycleStep rnd p fwd i e g')) = fst (fst (recycleStep rnd p fwd i e g)) /\
  snd (recycleStep rnd p fwd i e g') = snd (recycleStep rnd p fwd i e g) /\
  sameButFlash (snd (fst (recycleStep rnd p fwd i e g)))
               (snd (fst (recycleStep rnd p fwd i e g'))).
Proof.
  intros (P & R & Pa & Wa & Ln).
  assert (A : ahead p fwd g' = ahead p fwd g) by (unfold ahead; rewrite P; reflexivity).
  assert (S : shouldRecycle p fwd g' = shouldRecycle p fwd g).
  { unfold shouldRecycle, dist. rewrite A, P. reflexivity. }
  unfold recycleStep. cbv zeta. rewrite A, S.
  destruct (shouldRecycle p fwd g).
  - set (g1 := if (ahead p fwd g >? Fin 0)%num then set_wasAhead g true else g).
    set (g1' := if (ahead p fwd g >? Fin 0)%num then set_wasAhead g' true else g').
    assert (M : negb (passed g1') && wasAhead g1' = negb (passed g1) && wasAhead g1).
    { unfold g1, g1'. destruct (ahead p fwd g >? Fin 0)%num; gate_proj;
        rewrite Pa, ?Wa; reflexivity. }
    rewrite M. destruct (negb (passed g1) && wasAhead g1).
    + destruct (onGateMissed_spec i e g1) as (gm & Em & _).
      destruct (onGateMissed_spec i e g1') as (gm' & Em' & _).
      rewrite Em, Em'.
      set (eM := GateCourse.set_score e _).
      destruct (respawnGate_any_gate i eM gm gm' p fwd) as (E1 & E2 & E3).
      destruct (respawnGate rnd i eM gm p fwd) as [[ea ga] eva].
      destruct (respawnGate rnd i eM gm' p fwd) as [[eb gb] evb].
      cbn [fst snd] in *. subst. repeat split; apply E3.
    + destruct (respawnGate_any_gate i e g1 g1' p fwd) as (E1 & E2 & E3).
      destruct (respawnGate rnd i e g1 p fwd) as [[ea ga] eva].
      destruct (respawnGate rnd i e g1' p fwd) as [[eb gb] evb].
      cbn [fst snd] in *. subst. repeat split; apply E3.
  - cbn [fst snd]. split; [reflexivity|]. split; [reflexivity|].
    destruct (ahead p fwd g >? Fin 0)%num; gate_proj; repeat split; assumption.
Qed.

Lemma passStep_same p spd i e g g' :
  sameButFlash g g' ->
  fst (fst (passStep p spd i e g')) = fst (fst (passStep p spd i e g)) /\
  snd (passStep p spd i e g') = snd (passStep p spd i e g) /\
  sameButFlash (snd (fst (passStep p spd i e g)))
               (snd (fst (passStep p spd i e g'))).
Proof.
  intros (P & R & Pa & Wa & Ln).
  assert (L : localOf g' p = localOf g p) by (unfold localOf; rewrite P, R; reflexivity).
  unfold passStep. cbv zeta. rewrite Pa, L.
  destruct (passed g) eqn:Hp; [cbn [fst snd]; repeat split; congruence|].
  destruct (_ >? _)%num; [cbn [fst snd]; repeat split; congruence|].
  destruct (_ >? _)%num; [cbn [fst snd]; repeat split; congruence|].
  destruct (_ >? _)%num; [cbn [fst snd]; repeat split; congruence|].
  cbn [fst snd]. gate_proj. repeat split; congruence.
Qed.

Lemma forGates_same body
  (Hbody : forall i e g g', sameButFlash g g' ->
     fst (fst (body i e g')) = fst (fst (body i e g)) /\
     snd (body i e g') = snd (body i e g) /\
     sameButFlash (snd (fst (body i e g))) (snd (fst (body i e g')))) :
  forall gs gs' k e, Forall2 sameButFlash gs gs' ->
    fst (fst (forGates body k e gs')) = fst (fst (forGates body k e gs)) /\
    snd (forGates body k e gs') = snd (forGates body k e gs) /\
    Forall2 sameButFlash (snd (fst (forGates body k e gs)))
                         (snd (fst (forGates body k e gs'))).
Proof.
  induction gs as [|g gs IH]; intros gs' k e H; inversion H; subst.
  - cbn. repeat split. constructor.
  - cbn [forGates].
    destruct (Hbody k e g y H2) as (B1 & B2 & B3).
    destruct (body k e g) as [[e1 g1] ev1].
    destruct (body k e y) as [[e1' g1'] ev1'].
    cbn [fst snd] in *. subst e1' ev1'.
    destruct (IH l' (S k) e1 H4) as (I1 & I2 & I3).
    destruct (forGates body (S k) e1 gs) as [[e2 gs2] ev2].
    destruct (forGates body (S k) e1 l') as [[e2' gs2'] ev2'].
    cbn [fst snd] in *. subst e2' ev2'.
    repeat split. constructor; assumption.
Qed.

Lemma update_same c c' inp :
  env c' = env c -> Forall2 sameButFlash (gates c) (gates c') ->
  snd (update rnd c' inp) = snd (update rnd c inp) /\
  env (fst (update rnd c' inp)) = env (fst (update rnd c inp)) /\
  Forall2 sameButFlash (gates (fst (update rnd c inp)))
                       (gates (fst (update rnd c' inp))).
Proof.
  intros He Hg. rewrite !(update_unfold rnd). cbv zeta. cbn [fst snd gates env].
  rewrite He.
  set (fwd := getForward (env c) (quat inp) (velXZ inp)).
  set (e0 := set_fallbackForward (env c) fwd).
  destruct (forGates_same (recycleStep rnd (pos inp) fwd)
              (fun i e g g' => recycleStep_same (pos inp) fwd i e g g')
              (gates c) (gates c') 0%nat e0 Hg) as (A1 & A2 & A3).
  rewrite A1, A2.
  destruct (forGates_same (passStep (pos inp) (speed inp))
              (fun i e g g' => passStep_same (pos inp) (speed inp) i e g g')
              _ _ 0%nat
              (fst (fst (forGates (recycleStep rnd (pos inp) fwd) 0 e0 (gates c))))
              A3) as (B1 & B2 & B3).
  rewrite B1, B2. repeat split. exact B3.
Qed.

(** [animate] is visual only: a frame of [update] after [animate] makes
    the same calls on the score, respawns the same gates to the same
    lanes, leaves the same score and the same lane memory, and the same
    gates but for their flash, as the frame without [animate]. *)
Theorem animate_is_visual_only (c : GateCourse.t) (st : Materials)
    (dt : num) (inp : Input) :
  snd (update rnd (fst (animate c st dt)) inp) = snd (update rnd c inp) /\
  env (fst (update rnd (fst (animate c st dt)) inp))
  = env (fst (update rnd c inp)) /\
  Forall2 sameButFlash (gates (fst (update rnd c inp)))
                       (gates (fst (update rnd (fst (animate c st dt)) inp))).
Proof.
  destruct (animate_gates c st dt) as (G & E & _).
  apply update_same; [exact E|]. rewrite G. apply animateGates_same.
Qed.

End WithOracle.

Lemma animateGates_quiet dt : forall gs st,
  Forall (fun h => (flash h <=? Fin 0)%num = true) gs ->
  animateGates dt st gs = (st, gs).
Proof.
  induction gs as [|g gs IH]; intros st H; [reflexivity|].
  inversion H; subst. cbn [animateGates].
  rewrite animateStep_spec, H2, IH by assumption. reflexivity.
Qed.

Lemma animateGates_ready dt : forall gs st,
  glowReady st ->
  glowReady (fst (animateGates dt st gs)) /\
  frameMat (fst (animateGates dt st gs)) = frameMat st.
Proof.
  induction gs as [|g gs IH]; intros st H; [split; [exact H|reflexivity]|].
  cbn [animateGates].
  assert (S : glowReady (fst (animateStep dt st g)) /\
              frameMat (fst (animateStep dt st g)) = frameMat st).
  { rewrite animateStep_spec. destruct (_ <=? _)%num; cbn [fst]; [auto|].
    split; [apply glowReady_setGateGlow; exact H|].
    rewrite setGateGlow_ready by exact H. reflexivity. }
  destruct (animateStep dt st g) as [st1 g1]. cbn [fst] in S.
  destruct (IH st1 (proj1 S)) as [I1 I2].
  destruct (animateGates dt st1 gs) as [st2 gs2]. cbn [fst] in *.
  split; [exact I1|]. rewrite I2. apply S.
Qed.

(** All the gates glow as one.  The glow material is one object for the
    22 gates, so after [animate] its opacity is the one that the last
    flashing gate of the pool asks for, on every gate; without a flashing
    gate [animate] leaves the materials alone; a respawn of any gate puts
    the glow of every gate back to 0.85.  The frame material is never
    written. *)
Theorem glow_is_shared (c : GateCourse.t) (st : Materials) (dt : R) :
  glowReady st ->
  (forall pre g post f,
     gates c = pre ++ g :: post -> flash g = Fin f -> 0 < f -> 0 <= dt ->
     Forall (fun h => (flash h <=? Fin 0)%num = true) post ->
     opacity (glowMat (snd (animate c st (Fin dt))))
     = Fin (0.85 + Rmax 0 (f - 2.8 * dt) * 0.35)) /\
  (Forall (fun h => (flash h <=? Fin 0)%num = true) (gates c) ->
   snd (animate c st (Fin dt)) = st) /\
  frameMat (snd (animate c st (Fin dt))) = frameMat st /\
  glowReady (snd (animate c st (Fin dt))) /\
  (forall evs i ln, In (EvRespawn i ln) evs ->
     opacity (glowMat (glowAfter st evs)) = Fin 0.85 /\
     frameMat (glowAfter st evs) = frameMat st).
Proof.
  intros Hr.
  destruct (animate_gates c st (Fin dt)) as (_ & _ & ->).
  split; [|split; [|split; [|split]]].
  - intros pre g post f Hg Hf H0 Hdt Hpost. rewrite Hg.
    clear Hg. revert st Hr.
    induction pre as [|h pre IH]; intros st Hr.
    + cbn [app animateGates]. rewrite animateStep_spec, Hf.
      assert (G : (Fin f <=? Fin 0)%num = false).
      { unfold_num. rdec; [exfalso; lra|reflexivity]. }
      rewrite G, animateGates_quiet by exact Hpost. cbn [fst].
      rewrite setGateGlow_ready by exact Hr. cbn [glowMat opacity].
      unfold_num. unfold Rmax.
      rdec; destruct (Rle_dec 0 (f - 2.8 * dt)); try (exfalso; lra);
        apply Fin_eq; lra.
    + cbn [app animateGates].
      assert (S : glowReady (fst (animateStep (Fin dt) st h))).
      { rewrite animateStep_spec. destruct (_ <=? _)%num; cbn [fst]; [exact Hr|].
        apply glowReady_setGateGlow; exact Hr. }
      destruct (animateStep (Fin dt) st h) as [st1 h1]. cbn [fst] in S.
      specialize (IH st1 S).
      destruct (animateGates (Fin dt) st1 (pre ++ g :: post)) as [st2 gs2].
      exact IH.
  - intros H. rewrite animateGates_quiet by exact H. reflexivity.
  - apply animateGates_ready. exact Hr.
  - apply animateGates_ready. exact Hr.
  - intros evs i ln Hin.
    assert (K : forall evs st0, glowReady st0 ->
              glowReady (glowAfter st0 evs) /\
              frameMat (glowAfter st0 evs) = frameMat st0 /\
              ((exists j l, In (EvRespawn j l) evs) ->
               opacity (glowMat (glowAfter st0 evs)) = Fin 0.85)).
    { clear. unfold glowAfter.
      induction evs as [|ev evs IH] using rev_ind; intros st0 H0.
      - cbn. split; [exact H0|]. split; [reflexivity|]. intros (j & l & []).
      - rewrite fold_left_app. cbn [fold_left].
        destruct (IH st0 H0) as (I1 & I2 & I3).
        destruct ev.
        + split; [exact I1|]. split; [exact I2|].
          intros (j & l & Hin). apply I3. apply in_app_or in Hin.
          destruct Hin as [Hin|[Hin|[]]]; [eauto|discriminate].
        + split; [exact I1|]. split; [exact I2|].
          intros (j & l & Hin). apply I3. apply in_app_or in Hin.
          destruct Hin as [Hin|[Hin|[]]]; [eauto|discriminate].
        + split; [exact I1|]. split; [exact I2|].
          intros (j & l & Hin). apply I3. apply in_app_or in Hin.
          destruct Hin as [Hin|[Hin|[]]]; [eauto|discriminate].
        + split; [apply glowReady_setGateGlow; exact I1|].
          rewrite setGateGlow_ready by exact I1. cbn [frameMat glowMat opacity].
          split; [exact I2|]. intros _. reflexivity. }
    destruct (K evs st Hr) as (_ & K2 & K3). split; [|exact K2].
    apply K3. eauto.
Qed.

End GlowFacts.

(* ================================================================== *)
(** * The main loop *)
(* ================================================================== *)

Module GameFacts.

Import GateCourse CourseSpec CourseProofs GateGlow GlowFacts Game GameSpec.

Lemma onCollision_cases handle speed s cd c :
  onCollision handle speed (s, cd) c
  = if isDroneHit handle c && negb (cd >? Fin 0)%num
    then (ScoreSystem.onPenalty s (collisionPenalty speed), Fin 0.35)
    else (s, cd).
Proof.
  unfold onCollision, isDroneHit, CRASH_COOLDOWN_SEC.
  destruct (started c); cbn [negb andb]; [|reflexivity].
  destruct (cd >? Fin 0)%num; cbn [negb];
    [rewrite andb_false_r; reflexivity|rewrite andb_true_r].
  destruct (collider1 c) as [[p1|]|]; try reflexivity.
  destruct (collider2 c) as [[p2|]|]; try reflexivity.
  cbv zeta. destruct ((p1 =? handle)%Z || (p2 =? handle)%Z); reflexivity.
Qed.

Lemma fold_onCollision_cooling handle speed evs : forall s cd,
  (cd >? Fin 0)%num = true ->
  fold_left (onCollision handle speed) evs (s, cd) = (s, cd).
Proof.
  induction evs as [|c evs IH]; intros s cd H; [reflexivity|].
  cbn [fold_left]. rewrite onCollision_cases, H. cbn [negb].
  rewrite andb_false_r. apply IH. exact H.
Qed.

Lemma fold_onCollision handle speed evs : forall s cd,
  (cd >? Fin 0)%num = false ->
  fold_left (onCollision handle speed) evs (s, cd)
  = if existsb (isDroneHit handle) evs
    then (ScoreSystem.onPenalty s (collisionPenalty speed), Fin 0.35)
    else (s, cd).
Proof.
  induction evs as [|c evs IH]; intros s cd H; [reflexivity|].
  cbn [fold_left existsb]. rewrite onCollision_cases, H. cbn [negb].
  rewrite andb_true_r. destruct (isDroneHit handle c); cbn [orb].
  - apply fold_onCollision_cooling. unfold_num. rdec; [reflexivity|exfalso; lra].
  - apply IH. exact H.
Qed.

Lemma drain_cases handle speed s cd evs :
  drainCollisionPenalties handle speed (s, cd) evs
  = if negb (cd >? Fin 0)%num && existsb (isDroneHit handle) evs
    then (ScoreSystem.onPenalty s (collisionPenalty speed), Fin 0.35)
    else (s, cd).
Proof.
  unfold drainCollisionPenalties. cbn [snd].
  destruct (cd >? Fin 0)%num eqn:H; cbn [negb andb]; [reflexivity|].
  apply fold_onCollision. exact H.
Qed.


Lemma min_clock e :
  0 <= e -> min (Fin e) (Fin (1 / 20)) = Fin (Rmin e 0.05) /\ 0 <= Rmin e 0.05 <= 0.05.
Proof.
  intros H. unfold_num. unfold Rmin.
  rdec; destruct (Rle_dec e 0.05); try (exfalso; lra);
    (split; [apply Fin_eq; lra|lra]).
Qed.

Lemma stepLoop_spec fuel : forall x steps,
  0 <= x ->
  exists k : nat,
    stepLoop fuel (Fin x) steps = (Fin (x - INR k / 60), (steps + k)%nat) /\
    (k <= fuel)%nat /\ 0 <= x - INR k / 60 /\
    (x - INR k / 60 < 1 / 60 \/ k = fuel \/ (maxSteps <= steps + k)%nat).
Proof.
  induction fuel as [|fuel IH]; intros x steps Hx.
  - exists 0%nat. cbn [stepLoop INR]. rewrite Nat.add_0_r.
    split; [apply f_equal2; [apply Fin_eq; lra|reflexivity]|].
    split; [lia|]. split; [lra|]. auto.
  - cbn [stepLoop]. unfold FIXED_DT.
    destruct (Rle_dec (1 / 60) x) as [L|L].
    + assert (G : (Fin x >=? Fin (1 / 60))%num = true).
      { unfold_num. rdec; [reflexivity|contradiction]. }
      rewrite G. cbn [andb].
      destruct (steps <? maxSteps)%nat eqn:Hs.
      * cbn [JS.sub JS.neg JS.add].
        destruct (IH (x + - (1 / 60)) (S steps) ltac:(lra))
          as (k & E & K1 & K2 & K3).
        exists (S k). rewrite E. rewrite S_INR.
        split; [apply f_equal2; [apply Fin_eq; lra|lia]|].
        split; [lia|]. split; [lra|].
        destruct K3 as [K3|[K3|K3]]; [left; lra|right; left; lia|right; right; lia].
      * exists 0%nat. cbn [INR]. rewrite Nat.add_0_r.
        split; [apply f_equal2; [apply Fin_eq; lra|reflexivity]|].
        split; [lia|]. split; [lra|]. right. right.
        apply Nat.ltb_ge in Hs. lia.
    + assert (G : (Fin x >=? Fin (1 / 60))%num = false).
      { unfold_num. rdec; [exfalso; lra|reflexivity]. }
      rewrite G. cbn [andb]. exists 0%nat. cbn [INR]. rewrite Nat.add_0_r.
      split; [apply f_equal2; [apply Fin_eq; lra|reflexivity]|].
      split; [lia|]. split; [lra|]. left. lra.
Qed.

Lemma hypot_cases x y z :
  hypot x y z = NaN \/ hypot x y z = PInf \/
  exists v, hypot x y z = Fin v /\ 0 <= v.
Proof.
  unfold hypot. cbv zeta.
  destruct x as [a| | |], y as [b| | |], z as [c| | |]; cbn [orb];
    try (right; left; reflexivity); try (left; reflexivity).
  cbn [JS.mul JS.add]. unfold JS.sqrt.
  destruct (Rlt_dec (a * a + b * b + c * c) 0); [left; reflexivity|].
  right. right. eexists. split; [reflexivity|apply sqrt_pos].
Qed.

Lemma updateCameraFOV_range x speed :
  70 <= x <= 85 -> speed <> NaN ->
  exists c x',
    clamp (speed / SPEED_FOR_MAX_FOV)%num (Fin 0) (Fin 1) = Fin c /\
    0 <= c <= 1 /\
    updateCameraFOV (Fin x) speed = Fin x' /\
    x' = x + 0.08 * (70 + 15 * c - x) /\ 70 <= x' <= 85.
Proof.
  intros Hx Hs. unfold updateCameraFOV. cbv zeta.
  assert (C : exists c, clamp (speed / SPEED_FOR_MAX_FOV)%num (Fin 0) (Fin 1) = Fin c
                        /\ 0 <= c <= 1).
  { unfold SPEED_FOR_MAX_FOV. destruct speed as [v| | |]; [| | |contradiction].
    - unfold JS.div. destruct (Req_dec_T 18 0); [exfalso; lra|].
      unfold_num. rdec; eexists; (split; [reflexivity|lra]).
    - unfold JS.div. destruct (Rlt_dec 18 0); [exfalso; lra|].
      unfold_num. cbn. rdec; eexists; (split; [reflexivity|lra]).
    - unfold JS.div. destruct (Rlt_dec 18 0); [exfalso; lra|].
      unfold_num. cbn. rdec; eexists; (split; [reflexivity|lra]). }
  destruct C as (c & Ec & Hc). exists c. rewrite Ec.
  unfold lerp, BASE_FOV, MAX_FOV, FOV_LERP.
  cbn [JS.sub JS.neg JS.add JS.mul].
  eexists. split; [reflexivity|]. split; [exact Hc|].
  split; [reflexivity|]. split; [lra|]. split; nra.
Qed.

Section WithOracle.

Variable rnd : Oracle.

(** The fields of the state after a frame. *)
Lemma loop_fields g f :
  let dt := min (elapsed f) (Fin (1 / 20)) in
  let v := linvel f in
  let speed := hypot (Vector3.x v) (Vector3.y v) (Vector3.z v) in
  let d := drainCollisionPenalties (droneHandle g) speed
             (GateCourse.score (env (course g)),
              max (Fin 0) (crashCooldown g - dt)%num) (collisions f) in
  let u := GateCourse.update rnd
             (GateCourse.mk (gates (course g))
                (GateCourse.set_score (env (course g)) (fst d)))
             (mkInput dt (position f) speed (Some (quaternion f))
                (Some (Vector3.x v, Vector3.z v))) in
  crashCooldown (fst (loop rnd g f)) = snd d /\
  accumulator (fst (loop rnd g f))
  = fst (stepLoop maxSteps (accumulator g + dt)%num 0) /\
  fst (snd (loop rnd g f))
  = snd (stepLoop maxSteps (accumulator g + dt)%num 0) /\
  snd (snd (loop rnd g f)) = snd u /\
  GateCourse.score (env (course (fst (loop rnd g f))))
  = ScoreSystem.update (GateCourse.score (env (fst u))) dt /\
  fov (fst (loop rnd g f)) = updateCameraFOV (fov g) speed /\
  droneHandle (fst (loop rnd g f)) = droneHandle g /\
  length (gates (course (fst (loop rnd g f)))) = length (gates (course g)).
Proof.
  intros dt v speed d u. unfold loop. fold dt. fold v. fold speed.
  destruct (stepLoop maxSteps (accumulator g + dt)%num 0) as [acc steps].
  fold d. destruct d as [s cd] eqn:Ed. cbn [fst snd] in u. fold u.
  pose proof (update_length rnd
                (GateCourse.mk (gates (course g))
                   (GateCourse.set_score (env (course g)) s))
                (mkInput dt (position f) speed (Some (quaternion f))
                   (Some (Vector3.x v, Vector3.z v)))) as Lu.
  fold u in Lu.
  destruct u as [c1 evs].
  destruct (animate_gates c1 (glowAfter (glow g) evs) dt) as (G & E & _).
  pose proof (animateGates_length dt (gates c1) (glowAfter (glow g) evs)) as La.
  rewrite <- G in La.
  destruct (animate c1 (glowAfter (glow g) evs) dt) as [c2 gl].
  cbn [fst snd course crashCooldown accumulator fov droneHandle gates env
       GateCourse.score] in *.
  unfold GateCourse.set_score. cbn [GateCourse.score].
  rewrite E. repeat split. lia.
Qed.

Lemma loop_mute g f :
  (max (Fin 0) (crashCooldown g - min (elapsed f) (Fin (1 / 20)))%num >? Fin 0)%num
  = true ->
  loop rnd g (mute f) = loop rnd g f /\
  crashCooldown (fst (loop rnd g f))
  = max (Fin 0) (crashCooldown g - min (elapsed f) (Fin (1 / 20)))%num.
Proof.
  intros H. split.
  - unfold loop, mute. cbn [elapsed position quaternion linvel collisions].
    rewrite !drain_cases, H. cbn [negb andb]. reflexivity.
  - destruct (loop_fields g f) as (F1 & _). cbv zeta in F1.
    rewrite F1, drain_cases, H. reflexivity.
Qed.

Lemma cooling_frame g f k :
  (2 <= k)%nat -> elapsed f <> NaN ->
  (Fin (0.05 * INR k) <=? crashCooldown g)%num = true ->
  loop rnd g (mute f) = loop rnd g f /\
  (Fin (0.05 * INR (k - 1)) <=? crashCooldown (fst (loop rnd g f)))%num = true.
Proof.
  intros Hk He Hc.
  assert (Hk' : 2 <= INR k) by (apply (le_INR 2); exact Hk).
  assert (Hk1 : INR (k - 1) = INR k - 1).
  { rewrite minus_INR by lia. reflexivity. }
  assert (M : exists m,
            max (Fin 0) (crashCooldown g - min (elapsed f) (Fin (1 / 20)))%num = m /\
            (m >? Fin 0)%num = true /\
            (Fin (0.05 * INR (k - 1)) <=? m)%num = true).
  { eexists. split; [reflexivity|]. rewrite Hk1.
    destruct (crashCooldown g) as [c| | |]; try discriminate.
    - assert (Hc' : 0.05 * INR k <= c).
      { revert Hc. unfold JS.le, JS.Rleb.
        destruct (Rle_dec (0.05 * INR k) c); [auto|discriminate]. }
      destruct (elapsed f) as [e| | |]; [| | |contradiction].
      + unfold_num. unfold JS.le.
        rdec; cbn; unfold JS.Rleb; rdec; try (split; reflexivity);
          exfalso; lra.
      + unfold_num. unfold JS.le. cbn.
        rdec; cbn; unfold JS.Rleb; rdec; try (split; reflexivity);
          exfalso; lra.
      + unfold_num. cbn. split; reflexivity.
    - destruct (elapsed f) as [e| | |]; [| | |contradiction].
      + unfold_num. rdec; cbn; split; reflexivity.
      + unfold_num. cbn. rdec; cbn; split; reflexivity.
      + unfold_num. cbn. split; reflexivity. }
  destruct M as (m & Em & M1 & M2).
  destruct (loop_mute g f) as [L1 L2]; [rewrite Em; exact M1|].
  split; [exact L1|]. rewrite L2, Em. exact M2.
Qed.

(** After a charged collision the next six frames charge no collision,
    whatever their queues hold: with the cooldown at 0.35 and no frame
    longer than the 1/20 second that the loop clamps it to, these frames
    run as they would without their collision events. *)
Theorem collisions_muted_after_hit (g : Game.t) (fs : list Frame) :
  crashCooldown g = Fin 0.35 ->
  (length fs <= 6)%nat ->
  Forall (fun f => elapsed f <> NaN) fs ->
  run rnd g (map mute fs) = run rnd g fs.
Proof.
  intros Hc Hl Hf.
  assert (G : forall k g0,
            (length fs + 1 <= k)%nat ->
            (Fin (0.05 * INR k) <=? crashCooldown g0)%num = true ->
            run rnd g0 (map mute fs) = run rnd g0 fs).
  { clear Hc Hl g. induction Hf as [|f fs He Hf IH]; intros k g0 Hk H0;
      [reflexivity|].
    cbn [length] in Hk. unfold run in *. cbn [map fold_left].
    destruct (cooling_frame g0 f k ltac:(lia) He H0) as [L1 L2].
    rewrite L1. apply (IH (k - 1)%nat); [lia|exact L2]. }
  apply (G 7%nat); [lia|]. rewrite Hc.
  unfold_num. rdec; [reflexivity|exfalso; simpl in *; lra].
Qed.

(** The fixed-step loop in exact arithmetic: at most three steps. *)
Lemma fixed_steps_exact (g : Game.t) (f : Frame) (a : R) :
  accumulator g = Fin a -> 0 <= a < 1 / 60 -> clockOk f ->
  exists (a' : R) (k : nat),
    accumulator (fst (loop rnd g f)) = Fin a' /\
    fst (snd (loop rnd g f)) = k /\
    0 <= a' < 1 / 60 /\ (k <= 3)%nat /\
    (forall e, elapsed f = Fin e -> a' + INR k / 60 = a + Rmin e 0.05).
Proof.
  intros Ha Hr (e & He & H0).
  destruct (loop_fields g f) as (_ & F2 & F3 & _). cbv zeta in F2, F3.
  rewrite F2, F3, Ha, He.
  destruct (min_clock e H0) as [Em Hm]. rewrite Em. cbn [JS.add].
  destruct (stepLoop_spec maxSteps (a + Rmin e 0.05) 0 ltac:(lra))
    as (k & E & K1 & K2 & K3).
  rewrite E. cbn [fst snd Nat.add].
  exists (a + Rmin e 0.05 - INR k / 60), k.
  split; [reflexivity|]. split; [reflexivity|].
  assert (K5 : INR k <= 5).
  { apply (le_INR k 5) in K1. simpl in K1. lra. }
  assert (K4 : INR k / 60 <= a + Rmin e 0.05) by lra.
  assert (Hk : (k <= 3)%nat).
  { assert (I : INR k < INR 4) by (simpl; lra).
    apply INR_lt in I. lia. }
  assert (Hlt : a + Rmin e 0.05 - INR k / 60 < 1 / 60).
  { destruct K3 as [K3|[K3|K3]]; [exact K3| |];
      exfalso; unfold maxSteps in *; lia. }
  split; [lra|]. split; [exact Hk|].
  intros e' He'. inversion He'; subst e'. lra.
Qed.

(** The fixed-step loop keeps up with the clock.  With the frame time
    clamped to 1/20 second, a frame makes at most four physics steps of
    1/60 second, so the limit of five steps is never the reason to stop;
    the accumulator stays under one step, and no time is dropped.  (In
    exact arithmetic the steps are at most three; the rounding of the
    accumulator can add a fourth.) *)
Theorem fixed_steps_keep_up (g : Game.t) (f : Frame) (a : R) :
  accumulator g = Fin a -> 0 <= a < 1 / 60 -> clockOk f ->
  exists (a' : R) (k : nat),
    accumulator (fst (loop rnd g f)) = Fin a' /\
    fst (snd (loop rnd g f)) = k /\
    0 <= a' < 1 / 60 /\ (k <= 4)%nat /\ (k < maxSteps)%nat /\
    (forall e, elapsed f = Fin e -> a' + INR k / 60 = a + Rmin e 0.05).
Proof.
  intros Ha Hr Hc.
  destruct (fixed_steps_exact g f a Ha Hr Hc)
    as (a' & k & A & B & C & D & E).
  exists a', k. split; [exact A|]. split; [exact B|]. split; [exact C|].
  split; [lia|]. split; [unfold maxSteps; lia|exact E].
Qed.

Lemma comboLock_calls evs : forall s,
  ScoreSystem.comboLock s = Fin 0 ->
  ScoreSystem.comboLock (ScoreSystem.run s (scoreCalls evs)) = Fin 0.
Proof.
  unfold ScoreSystem.run.
  induction evs as [|ev evs IH]; intros s H; [exact H|].
  destruct ev; cbn [scoreCalls fold_left]; apply IH;
    try exact H;
    (apply ScoreFacts.comboLock_step_noCrash; [exact I|exact H]).
Qed.

Lemma comboLock_loop g f :
  clockOk f ->
  ScoreSystem.comboLock (GateCourse.score (env (course g))) = Fin 0 ->
  ScoreSystem.comboLock (GateCourse.score (env (course (fst (loop rnd g f)))))
  = Fin 0.
Proof.
  intros (e & He & H0) H.
  destruct (loop_fields g f) as (_ & _ & _ & _ & F5 & _). cbv zeta in F5.
  rewrite F5, He. destruct (min_clock e H0) as [Em Hm]. rewrite Em.
  rewrite (CourseFacts.update_calls rnd). cbn [env GateCourse.score].
  unfold GateCourse.set_score. cbn [GateCourse.score].
  apply (ScoreFacts.comboLock_step_noCrash _ (ScoreSystem.OpUpdate (Fin (Rmin e 0.05))));
    [cbn; lra|].
  apply comboLock_calls.
  rewrite drain_cases.
  match goal with |- context [if ?b then _ else _] => destruct b end;
    cbn [fst]; [|exact H].
  unfold ScoreSystem.onPenalty.
  rewrite ScoreProofs.comboLock_breakCombo, ScoreProofs.comboLock_add. exact H.
Qed.

(** The game never locks the combo.  Its loop charges a collision with
    [onPenalty] and never calls [onCrash], so from the start of a game,
    through any frames in which the clock does not run backwards, the
    combo lock stays at 0. *)
Theorem game_never_locks_combo (handle : Z) (fs : list Frame) :
  Forall clockOk fs ->
  ScoreSystem.comboLock
    (GateCourse.score (env (course (run rnd (start handle) fs)))) = Fin 0.
Proof.
  intros Hf.
  assert (G : forall g,
            ScoreSystem.comboLock (GateCourse.score (env (course g))) = Fin 0 ->
            ScoreSystem.comboLock
              (GateCourse.score (env (course (run rnd g fs)))) = Fin 0).
  { unfold run. induction Hf as [|f fs Hc Hf IH]; intros g H; [exact H|].
    cbn [fold_left]. apply IH. apply comboLock_loop; assumption. }
  apply G. reflexivity.
Qed.

(** The field of view stays between 70 and 85 degrees through every frame
    in which no component of the velocity is [NaN], and moves by 8
    percent of the way to its target for the speed. *)
Theorem camera_fov_in_range (g : Game.t) (f : Frame) (x : R) :
  fov g = Fin x -> 70 <= x <= 85 ->
  hypot (Vector3.x (linvel f)) (Vector3.y (linvel f)) (Vector3.z (linvel f))
  <> NaN ->
  exists c x',
    0 <= c <= 1 /\
    fov (fst (loop rnd g f)) = Fin x' /\
    x' = x + 0.08 * (70 + 15 * c - x) /\ 70 <= x' <= 85.
Proof.
  intros Hx Hr Hs.
  destruct (loop_fields g f) as (_ & _ & _ & _ & _ & F6 & _). cbv zeta in F6.
  rewrite F6, Hx.
  destruct (updateCameraFOV_range x _ Hr Hs) as (c & x' & _ & Hc & E & E' & R').
  exists c, x'. auto.
Qed.

End WithOracle.

End GameFacts.

(* ================================================================== *)
(** * More runs on concrete inputs *)
(* ================================================================== *)

Module FactExamples.

Import GateCourse CourseSpec CourseProofs.

Lemma respawn_placement_witness :
  0 * 0 + -1 * -1 = 1 /\ Rabs 0 <= 1000000 /\ Rabs 3 <= 1000000 /\
  exists (ln : Z) (d a : R),
    70 <= d <= 220 /\
    ahead (fin3 0 3 0) (fin3 0 0 (-1))
      (snd (fst (respawnGate zeroOracle 0 (env newCourse) (buildGate 0)
                   (fin3 0 3 0) (fin3 0 0 (-1)))))
    = Fin a /\ Rabs (a - d) <= 1 / 1000.
Proof.
  assert (H : 0 * 0 + -1 * -1 = 1) by lra.
  assert (H0 : Rabs 0 <= 1000000) by (rewrite Rabs_R0; lra).
  assert (H3 : Rabs 3 <= 1000000) by (rewrite Rabs_right; lra).
  split; [exact H|]. split; [exact H0|]. split; [exact H3|].
  destruct (CourseFacts.respawn_placement zeroOracle 0 (env newCourse)
              (buildGate 0) 0 3 0 0 (-1) H H0 H3 H0)
    as (ln & d & lat & y & a & _ & Hd & _ & _ & _ & _ & Ha & Hn & _).
  exists ln, d, a. split; [exact Hd|]. split; [exact Ha|exact Hn].
Defined.


Lemma center_not_recycled :
  shouldRecycle (pos frameCenter)
    (getForward (env newCourse) (quat frameCenter) (velXZ frameCenter))
    (buildGate 0) = false.
Proof.
  change (getForward (env newCourse) (quat frameCenter) (velXZ frameCenter))
    with (Vector3.mk (Fin 0) (Fin 0) (Fin (-1))).
  assert (A : ahead (pos frameCenter)
                (Vector3.mk (Fin 0) (Fin 0) (Fin (-1))) (buildGate 0)
              = Fin 0).
  { unfold ahead, Vector3.dot, Vector3.sub.
    cbn [pos frameCenter fin3 position buildGate verticalCenter
         Vector3.x Vector3.y Vector3.z JS.sub JS.add JS.neg JS.mul].
    apply f_equal. simpl INR. lra. }
  assert (D : dist (pos frameCenter) (buildGate 0) = Fin 0).
  { unfold dist.
    cbn [pos frameCenter position buildGate verticalCenter JS.sub JS.add
         JS.neg JS.mul].
    change (Vector3.sub _ (fin3 0 2.6 (-80)))
      with (fin3 (0 + - 0) (2.6 + - (2.6)) (-80 + - (INR 0 * 18) + - (-80))).
    rewrite length_fin3. apply f_equal.
    replace ((0 + - 0) * (0 + - 0) + (2.6 + - (2.6)) * (2.6 + - (2.6))
             + (-80 + - (INR 0 * 18) + - (-80))
               * (-80 + - (INR 0 * 18) + - (-80)))
      with 0 by (simpl INR; lra).
    apply sqrt_0. }
  unfold shouldRecycle. rewrite A, D. unfold behindRecycle, farRecycle.
  unfold_num. rdec; try lra; reflexivity.
Qed.

(** The first gate of a new course in the frame at its centre: it is
    credited where it stands. *)
Lemma gate_moves_only_by_respawn_witness :
  nth_error (gates newCourse) 0 = Some (buildGate 0) /\
  exists g',
    nth_error (gates (fst (update zeroOracle newCourse frameCenter))) 0 = Some g' /\
    position g' = position (buildGate 0).
Proof.
  split; [reflexivity|].
  destruct (proj2 (CourseFacts.gate_moves_only_by_respawn zeroOracle newCourse
                     frameCenter 0 (buildGate 0) eq_refl) center_not_recycled)
    as (g' & N & P & _).
  exists g'. split; [exact N|exact P].
Defined.

(** A respawn around a drone at height 3 that looks down the negative z
    axis. *)
Lemma respawn_is_stable_witness :
  0 * 0 + -1 * -1 = 1 /\ Rabs 0 <= 1000000 /\ Rabs 3 <= 200 /\
  shouldRecycle (fin3 0 3 0) (fin3 0 0 (-1))
    (snd (fst (respawnGate zeroOracle 0 (env newCourse) (buildGate 0)
                 (fin3 0 3 0) (fin3 0 0 (-1)))))
  = false.
Proof.
  assert (H : 0 * 0 + -1 * -1 = 1) by lra.
  assert (H0 : Rabs 0 <= 1000000) by (rewrite Rabs_R0; lra).
  assert (H3 : Rabs 3 <= 200) by (rewrite Rabs_right; lra).
  split; [exact H|]. split; [exact H0|]. split; [exact H3|].
  exact (proj1 (CourseFacts.respawn_is_stable zeroOracle 0 (env newCourse)
                  (buildGate 0) 0 3 0 0 (-1) H H0 H0) H3).
Defined.

Lemma holding_course_clears_lane_zero_only_witness :
  0 * 0 + -1 * -1 = 1 /\ Rabs 0 <= 1000000 /\ Rabs 3 <= 1000000 /\
  exists lat : R,
    forall t h, Rabs t <= 1000000 -> Rabs h <= 1000000 ->
      Vector3.x (localOf (snd (fst (respawnGate zeroOracle 0 (env newCourse)
                                      (buildGate 0) (fin3 0 3 0) (fin3 0 0 (-1)))))
                   (fin3 (0 + t * 0) h (0 + t * -1)))
      = Fin (- lat).
Proof.
  assert (H : 0 * 0 + -1 * -1 = 1) by lra.
  assert (H0 : Rabs 0 <= 1000000) by (rewrite Rabs_R0; lra).
  assert (H3 : Rabs 3 <= 1000000) by (rewrite Rabs_right; lra).
  split; [exact H|]. split; [exact H0|]. split; [exact H3|].
  destruct (CourseFacts.holding_course_clears_lane_zero_only zeroOracle 0
              (env newCourse) (buildGate 0) 0 3 0 0 (-1) H H0 H3 H0)
    as (lat & L & _).
  exists lat. exact L.
Defined.



(** The credited first gate, which flashes at 1, through two frames of 0.2
    seconds. *)
Lemma flash_fades_witness :
  Forall (fun d => 0 <= d) [0.2; 0.2] /\
  nth_error (gates creditedCourse) 0 = Some creditedGate /\
  flash creditedGate = Fin 1.0 /\ 0 <= 1.0 /\
  exists g',
    nth_error (gates (fst (GateGlow.animateAll creditedCourse
                             GateGlow.initialMaterials [0.2; 0.2]))) 0
    = Some g' /\
    flash g' = Fin (Rmax 0 (1.0 - 2.8 * fold_right Rplus 0 [0.2; 0.2])).
Proof.
  assert (H1 : Forall (fun d => 0 <= d) [0.2; 0.2])
    by (repeat constructor; lra).
  assert (H2 : nth_error (gates creditedCourse) 0 = Some creditedGate).
  { destruct Examples.center_frame as (tlg & _ & _ & G & _). rewrite G. reflexivity. }
  assert (H3 : 0 <= 1.0) by lra.
  split; [exact H1|]. split; [exact H2|]. split; [reflexivity|].
  split; [exact H3|].
  destruct (proj1 (GlowFacts.flash_fades creditedCourse GateGlow.initialMaterials
                     [0.2; 0.2] 0 creditedGate 1.0 H1 H2 eq_refl H3))
    as (g' & N & F & _).
  exists g'. split; [exact N|exact F].
Defined.

(** The materials as [buildGates] makes them, and a course without a
    flashing gate. *)
Lemma glow_is_shared_witness :
  glowReady GateGlow.initialMaterials /\
  GateGlow.frameMat (snd (GateGlow.animate newCourse GateGlow.initialMaterials
                            (Fin 0.016)))
  = GateGlow.frameMat GateGlow.initialMaterials.
Proof.
  assert (H : glowReady GateGlow.initialMaterials) by (repeat split).
  split; [exact H|].
  exact (proj1 (proj2 (proj2 (GlowFacts.glow_is_shared newCourse
                                GateGlow.initialMaterials 0.016 H)))).
Defined.

End FactExamples.

Module GameExamples.

Import GateCourse CourseSpec Game GameSpec.

(** A game whose drone has just hit something, and a frame whose queue
    holds a collision of the drone. *)
Lemma collisions_muted_after_hit_witness :
  crashCooldown justHit = Fin 0.35 /\
  (length [stillFrame] <= 6)%nat /\
  Forall (fun f => elapsed f <> NaN) [stillFrame] /\
  run zeroOracle justHit (map mute [stillFrame]) = run zeroOracle justHit [stillFrame].
Proof.
  assert (H2 : (length [stillFrame] <= 6)%nat) by (cbn; lia).
  assert (H3 : Forall (fun f => elapsed f <> NaN) [stillFrame])
    by (repeat constructor; discriminate).
  split; [reflexivity|]. split; [exact H2|]. split; [exact H3|].
  exact (GameFacts.collisions_muted_after_hit zeroOracle justHit [stillFrame]
           eq_refl H2 H3).
Defined.

Lemma stillFrame_clockOk : clockOk stillFrame.
Proof. exists 0.016. split; [reflexivity|lra]. Qed.

(** The first frame of a game. *)
Lemma fixed_steps_keep_up_witness :
  accumulator (start 7) = Fin 0 /\ 0 <= 0 < 1 / 60 /\ clockOk stillFrame /\
  exists (a' : R) (k : nat),
    accumulator (fst (loop zeroOracle (start 7) stillFrame)) = Fin a' /\
    0 <= a' < 1 / 60 /\ (k <= 4)%nat.
Proof.
  assert (H2 : 0 <= 0 < 1 / 60) by lra.
  split; [reflexivity|]. split; [exact H2|]. split; [exact stillFrame_clockOk|].
  destruct (GameFacts.fixed_steps_keep_up zeroOracle (start 7) stillFrame 0
              eq_refl H2 stillFrame_clockOk)
    as (a' & k & A & _ & R' & K & _).
  exists a', k. split; [exact A|]. split; [exact R'|exact K].
Defined.

Lemma game_never_locks_combo_witness :
  Forall clockOk [stillFrame; stillFrame] /\
  ScoreSystem.comboLock
    (GateCourse.score
       (env (course (run zeroOracle (start 7) [stillFrame; stillFrame]))))
  = Fin 0.
Proof.
  assert (H : Forall clockOk [stillFrame; stillFrame])
    by (repeat constructor; exact stillFrame_clockOk).
  split; [exact H|].
  exact (GameFacts.game_never_locks_combo zeroOracle 7 [stillFrame; stillFrame] H).
Defined.

Lemma camera_fov_in_range_witness :
  fov (start 7) = Fin 70 /\ 70 <= 70 <= 85 /\
  hypot (Vector3.x (linvel stillFrame)) (Vector3.y (linvel stillFrame))
    (Vector3.z (linvel stillFrame)) <> NaN /\
  exists x', fov (fst (loop zeroOracle (start 7) stillFrame)) = Fin x' /\
             70 <= x' <= 85.
Proof.
  assert (H2 : 70 <= 70 <= 85) by lra.
  assert (H3 : hypot (Vector3.x (linvel stillFrame)) (Vector3.y (linvel stillFrame))
                 (Vector3.z (linvel stillFrame)) <> NaN).
  { unfold hypot. cbn. unfold JS.sqrt.
    destruct (Rlt_dec (0 * 0 + 0 * 0 + 0 * 0) 0); [exfalso; lra|discriminate]. }
  split; [reflexivity|]. split; [exact H2|]. split; [exact H3|].
  destruct (GameFacts.camera_fov_in_range zeroOracle (start 7) stillFrame 70
              eq_refl H2 H3) as (c & x' & _ & E & _ & R').
  exists x'. split; [exact E|exact R'].
Defined.

End GameExamples.

(* ================================================================== *)
(** * ScoreSystem.ts in binary64: the score and the combo lock *)
(* ================================================================== *)

Module Score64Proofs.

Import B64 ScoreSystem64 Score64Spec.

(** ** Rounding never makes a [NaN] *)













(** ** [Math.max(0, x)] *)




(** ** The score under the mutators *)













(** C8, counterexample.  Fifty frames of 0.011 seconds add up to less
    than 0.55 seconds.  Yet after [onCrash(0)] and fifty [update(0.011)]
    the lock, which the code lowers by [dt] and rounds at every frame, is
    0, and the gate cleared then raises the combo from the 1.0 of the
    crash to 1.12. *)
Lemma combo_lock_ends_early :
  50 * toR (dec 11 1000) < 0.55 /\
  forall exp : spec_float -> spec_float,
    let s1 := onCrash init zero in
    let s2 := run exp s1 (repeat (OpUpdate (dec 11 1000)) 50) in
    let s3 := onGateCleared s2 (ofZ 100) zero zero in
    combo s1 = ofZ 1 /\
    comboLock s1 = dec 55 100 /\
    comboLock s2 = zero /\
    combo s2 = ofZ 1 /\
    combo s3 = dec 112 100 /\
    lt (combo s1) (combo s3) = true /\
    score s3 = ofZ 100.
Proof.
  split.
  - assert (E : dec 11 1000 = S754_finite false 6341068275337658 (-59))
      by (vm_compute; reflexivity).
    rewrite E. cbn [toR].
    replace (powerRZ 2 (-59)) with (/ IZR (2 ^ 59)).
    2:{ unfold powerRZ. apply f_equal. rewrite pow_IZR. apply f_equal.
        reflexivity. }
    change (2 ^ 59)%Z with 576460752303423488%Z. lra.
  - intros exp. vm_compute. repeat split.
Qed.

End Score64Proofs.
